(** * The content filter of the Adguard browser extension

    A shallow embedding of [MultiMap] and [ContentFilter] (the rule and
    exception bookkeeping of the content-rule engine), followed by the
    properties of the rule set that the specification states.

    Rule objects are JavaScript objects handled by reference: the same
    rule may sit several times in [contentRules] or in the exception
    index, and the filter mutates the restricted-domain set of the rules
    it holds.  The embedding therefore keeps a store of rule objects,
    indexed by reference, next to the fields of the filter itself, and
    records the calls that the filter makes on rule objects.  A
    dereference of something that is not a rule object ([undefined]) is a
    [TypeError] in the source and [None] here.

    The listeners of [webrequest.js] that inject scripts and
    stylesheets into committed frames and that add
    Content-Security-Policy headers to responses follow, in a module of
    their own. *)

From stdpp Require Import gmap strings list fin_maps.
From Stdlib Require Import ZArith.

Local Open Scope Z_scope.

(** ** JavaScript values used by the filter *)

(** [!v] for a value that is a string or [undefined]: the empty string
    and [undefined] are falsy. *)
Definition truthy (v : option string) : bool :=
  match v with
  | Some EmptyString => false
  | Some _ => true
  | None => false
  end.

(** Property keys are strings: [obj[undefined]] reads the property named
    ["undefined"]. *)
Definition keyOf (v : option string) : string := default "undefined"%string v.

(** ** adguard.utils.collections *)

Module collections.
Section removal.
Context {V : Type} {Veq : EqDecision V}.

(** Modelled from the spec: [adguard.utils.collections.removeRule] lives
    in a source file that is not part of the sources at hand.  The
    specification gives its behaviour: it removes the first occurrence
    of the value, compared by identity, and does nothing when the value
    is not found. *)
Fixpoint removeRule (collection : list V) (rule : V) : list V :=
  match collection with
  | [] => []
  | x :: rest =>
      if decide (x = rule) then rest else x :: removeRule rest rule
  end.
End removal.
End collections.

(** ** MultiMap *)

Module MultiMap.
Section multimap.
Context {V : Type} {Veq : EqDecision V}.

(** [this.map] is an object without prototype used as a dictionary,
    [this.size] a number. *)
Record t : Type := Build { map : gmap string (list V); size : Z }.

(** The constructor. *)
Definition new : t := {| map := ∅; size := 0 |}.

Definition put (key : string) (value : V) (m : t) : t :=
  match map m !! key with
  | None => {| map := <[key := [value]]> (map m); size := size m + 1 |}
  | Some values => {| map := <[key := values ++ [value]]> (map m); size := size m |}
  end.

Definition remove (key : string) (value : V) (m : t) : t :=
  match map m !! key with
  | None => m
  | Some values =>
      let values' := collections.removeRule values value in
      if decide (length values' = 0%nat)
      then {| map := delete key (map m); size := size m - 1 |}
      else {| map := <[key := values']> (map m); size := size m |}
  end.

Definition get (key : string) (m : t) : option (list V) := map m !! key.

Definition clear (m : t) : t := {| map := ∅; size := size m |}.

Definition isEmpty (m : t) : bool := bool_decide (size m = 0).

(** What [put] and [remove] maintain from [new] on: no key holds an
    empty array and [size] counts the keys. *)
Definition counted (m : t) : Prop :=
  size m = Z.of_nat (base.size (map m)) ∧
  ∀ key values, map m !! key = Some values → values ≠ [].

(** Number of occurrences of a value under a key. *)
Definition occurrences (key : string) (value : V) (m : t) : nat :=
  length (filter (λ x, x = value) (default [] (map m !! key))).
End multimap.
Global Arguments t : clear implicits.
End MultiMap.

(** ** Rule objects *)

Definition RuleRef : Type := nat.

(** Modelled from the spec: the rule class is not part of the sources at
    hand.  A rule object has the three fields that the filter reads,
    [tagName] (what [addRule] tests), [elementsFilter] (the matching key)
    and [whiteListRule] (the exception flag), and the two domain sets
    that the specification puts behind [getPermittedDomains],
    [addRestrictedDomains] and [removeRestrictedDomains]. *)
Record Rule : Type := mkRule {
  tagName : option string;
  elementsFilter : option string;
  whiteListRule : bool;
  permittedDomains : gset string;
  restrictedDomains : gset string
}.

Definition setRestrictedDomains (o : Rule) (domains : gset string) : Rule :=
  {| tagName := tagName o;
     elementsFilter := elementsFilter o;
     whiteListRule := whiteListRule o;
     permittedDomains := permittedDomains o;
     restrictedDomains := domains |}.

(** Modelled from the spec: the rule class is not part of the sources at
    hand.  The specification gives [getPermittedDomains] as the read of
    the permitted-domain set. *)
Definition getPermittedDomains (o : Rule) : gset string := permittedDomains o.

(** Modelled from the spec: the rule class is not part of the sources at
    hand.  Applying an exception means [S_R := S_R ∪ P_E] on the
    restricted-domain set of the rule object. *)
Definition addRestrictedDomains (rule : RuleRef) (domains : gset string)
    (h : gmap RuleRef Rule) : option (gmap RuleRef Rule) :=
  o ← h !! rule;
  Some (<[rule := setRestrictedDomains o (restrictedDomains o ∪ domains)]> h).

(** Modelled from the spec: the rule class is not part of the sources at
    hand.  Reversing an exception means [S_R := S_R ∖ P_E]. *)
Definition removeRestrictedDomains (rule : RuleRef) (domains : gset string)
    (h : gmap RuleRef Rule) : option (gmap RuleRef Rule) :=
  o ← h !! rule;
  Some (<[rule := setRestrictedDomains o (restrictedDomains o ∖ domains)]> h).

(** ** ContentFilter *)

(** The calls that change a rule object, in the order the filter makes
    them: [Applied r e] is the call of [r.addRestrictedDomains] in
    [applyExceptionRule r e], [RolledBack r e] the call of
    [r.removeRestrictedDomains] in [rollbackExceptionRule e]. *)
Inductive Call : Type :=
  | Applied (rule exceptionRule : RuleRef)
  | RolledBack (rule exceptionRule : RuleRef).

Global Instance Call_eq_dec : EqDecision Call.
Proof. solve_decision. Defined.

(** The store of rule objects, the three fields of the filter, and the
    calls made on rule objects so far. *)
Record State : Type := mkState {
  heap : gmap RuleRef Rule;
  contentRules : list RuleRef;
  exceptionRulesMap : MultiMap.t RuleRef;
  dirty : bool;
  calls : list Call
}.

Definition withHeap (h : gmap RuleRef Rule) (c : Call) (s : State) : State :=
  {| heap := h; contentRules := contentRules s;
     exceptionRulesMap := exceptionRulesMap s; dirty := dirty s;
     calls := calls s ++ [c] |}.

Definition withContentRules (l : list RuleRef) (s : State) : State :=
  {| heap := heap s; contentRules := l;
     exceptionRulesMap := exceptionRulesMap s; dirty := dirty s;
     calls := calls s |}.

Definition withExceptionRulesMap (m : MultiMap.t RuleRef) (s : State) : State :=
  {| heap := heap s; contentRules := contentRules s;
     exceptionRulesMap := m; dirty := dirty s; calls := calls s |}.

Definition withDirty (b : bool) (s : State) : State :=
  {| heap := heap s; contentRules := contentRules s;
     exceptionRulesMap := exceptionRulesMap s; dirty := b; calls := calls s |}.

(** [for (let i = 0; i < xs.length; i += 1) body(xs[i])] over an array
    that the body does not change. *)
Fixpoint forEach {A : Type} (body : A → State → option State)
    (xs : list A) (s : State) : option State :=
  match xs with
  | [] => Some s
  | x :: rest => s' ← body x s; forEach body rest s'
  end.

Definition addRule (rule : RuleRef) (s : State) : option State :=
  o ← heap s !! rule;
  if negb (truthy (tagName o)) then Some s
  else
    let s' :=
      if whiteListRule o
      then withExceptionRulesMap
             (MultiMap.put (keyOf (elementsFilter o)) rule (exceptionRulesMap s)) s
      else withContentRules (contentRules s ++ [rule]) s in
    Some (withDirty true s').

Definition applyExceptionRule (rule exceptionRule : RuleRef) (s : State)
    : option State :=
  r ← heap s !! rule;
  e ← heap s !! exceptionRule;
  if decide (elementsFilter r ≠ elementsFilter e) then Some s
  else
    h ← addRestrictedDomains rule (getPermittedDomains e) (heap s);
    Some (withHeap h (Applied rule exceptionRule) s).

Definition applyExceptionRules (rule : RuleRef) (s : State) : option State :=
  r ← heap s !! rule;
  match MultiMap.get (keyOf (elementsFilter r)) (exceptionRulesMap s) with
  | Some exceptionRules => forEach (applyExceptionRule rule) exceptionRules s
  | None => Some s
  end.

Definition rebuild (s : State) : option State :=
  if negb (dirty s) then Some s
  else
    s' ← (if negb (MultiMap.isEmpty (exceptionRulesMap s))
          then forEach applyExceptionRules (contentRules s) s
          else Some s);
    Some (withDirty false s').

Definition rollbackExceptionRule (exceptionRule : RuleRef) (s : State)
    : option State :=
  e ← heap s !! exceptionRule;
  if negb (whiteListRule e) then Some s
  else
    forEach
      (λ rule s,
         r ← heap s !! rule;
         e ← heap s !! exceptionRule;
         if decide (elementsFilter r = elementsFilter e)
         then h ← removeRestrictedDomains rule (getPermittedDomains e) (heap s);
              Some (withHeap h (RolledBack rule exceptionRule) s)
         else Some s)
      (contentRules s) s.

Definition removeRule (rule : RuleRef) (s : State) : option State :=
  o ← heap s !! rule;
  let s1 := withContentRules (collections.removeRule (contentRules s) rule) s in
  let s2 := withExceptionRulesMap
              (MultiMap.remove (keyOf (elementsFilter o)) rule
                 (exceptionRulesMap s1)) s1 in
  s3 ← rollbackExceptionRule rule s2;
  Some (withDirty true s3).

(** The constructor, over a store of rule objects made beforehand;
    [rules] may be [undefined]. *)
Definition new (h : gmap RuleRef Rule) (rules : option (list RuleRef))
    : option State :=
  forEach addRule (default [] rules)
    {| heap := h; contentRules := []; exceptionRulesMap := MultiMap.new;
       dirty := false; calls := [] |}.

Section queries.
(** The two capabilities of a rule object that the filter calls and that
    are taken as given: the permission decision of the rule for a
    domain, which reads the domain sets of the rule, and the traversal
    of a document, which may answer [null]. *)
Context {Doc Element : Type}.
Variable isPermitted : Rule → string → bool.
Variable ruleMatchedElements : Rule → Doc → option (list Element).

(** The loop of [getRulesForDomain]; [result] starts as [null]. *)
Fixpoint collectPermitted (domainName : string) (h : gmap RuleRef Rule)
    (rules : list RuleRef) (result : option (list RuleRef))
    : option (option (list RuleRef)) :=
  match rules with
  | [] => Some result
  | rule :: rest =>
      o ← h !! rule;
      collectPermitted domainName h rest
        (if isPermitted o domainName
         then Some (default [] result ++ [rule])
         else result)
  end.

Definition getRulesForDomain (domainName : string) (s : State)
    : option (State * option (list RuleRef)) :=
  s' ← (if dirty s then rebuild s else Some s);
  result ← collectPermitted domainName (heap s') (contentRules s') None;
  Some (s', result).

(** The loop of [getMatchedElementsForRules]. *)
Fixpoint collectElements (doc : Doc) (h : gmap RuleRef Rule)
    (rules : list RuleRef) (result : option (list Element))
    : option (option (list Element)) :=
  match rules with
  | [] => Some result
  | rule :: rest =>
      o ← h !! rule;
      collectElements doc h rest
        (match ruleMatchedElements o doc with
         | Some (x :: elements) => Some (default [] result ++ x :: elements)
         | _ => result
         end)
  end.

Definition getMatchedElementsForRules (doc : Doc) (rules : option (list RuleRef))
    (s : State) : option (option (list Element)) :=
  match rules with
  | None | Some [] => Some None
  | Some rules => collectElements doc (heap s) rules None
  end.

Definition getMatchedElements (doc : Doc) (domainName : string) (s : State)
    : option (State * option (list Element)) :=
  s1 ← (if dirty s then rebuild s else Some s);
  '(s2, rules) ← getRulesForDomain domainName s1;
  match rules with
  | Some _ =>
      result ← getMatchedElementsForRules doc rules s2;
      Some (s2, result)
  | None => Some (s2, None)
  end.
End queries.

(** * webrequest.js

    The parts of the web request listeners that compute: the escaping of
    scripts injected into a page, the listeners that inject scripts and
    stylesheets when a frame is committed, and the rewriting of the
    Content-Security-Policy headers.  The services of the extension that
    they call ([adguard.tabs], [adguard.frames], [adguard.webRequestService]
    and the like) are other modules and are taken as given; the calls
    that have an effect outside are recorded in the order in which they
    are made. *)

Module webrequest.

(** Strings are sequences of UTF-16 code units. *)
Definition text (s : string) : list N :=
  Ascii.N_of_ascii <$> String.list_ascii_of_string s.

(** The code unit of the double quote. *)
Definition dq : N := 34%N.

(** [String.prototype.replace] with a global regular expression that
    matches single code units and a function: every match is replaced
    by what the function returns for it, [undefined] being written
    out. *)
Definition replace (s : list N) (re : N → bool) (fn : N → option (list N))
    : list N :=
  flat_map (λ c, if re c then default (text "undefined") (fn c) else [c]) s.

(** [Array.prototype.join]. *)
Fixpoint join (parts : list (list N)) (separator : list N) : list N :=
  match parts with
  | [] => []
  | [part] => part
  | part :: rest => part ++ separator ++ join rest separator
  end.

Definition CSP_HEADER_NAME : string := "Content-Security-Policy".

(** ** modifyCSPHeader *)

(** A header of a response. *)
Record Header : Type := mkHeader { name : string; value : string }.

(** The request details that [modifyCSPHeader] reads; the response
    headers may be missing. *)
Module requestDetails.
Record t (Tab RequestType : Type) : Type := Build {
  tab : Tab;
  requestUrl : string;
  responseHeaders : option (list Header);
  requestType : RequestType;
  frameId : Z
}.
Arguments Build {_ _}.
Arguments tab {_ _}.
Arguments requestUrl {_ _}.
Arguments responseHeaders {_ _}.
Arguments requestType {_ _}.
Arguments frameId {_ _}.
End requestDetails.

(** What [modifyCSPHeader] answers when it answers. *)
Module response.
Record t : Type := Build {
  responseHeaders : list Header;
  modifiedHeaders : list Header
}.
End response.

(** The calls of [webRequestService.recordRuleHit] and of
    [filteringLog.addHttpRequestEvent]. *)
Inductive ServiceCall (Tab RequestType Rule : Type) : Type :=
  | RecordRuleHit (tab : Tab) (rule : Rule) (url : string)
  | AddHttpRequestEvent (tab : Tab) (requestUrl frameUrl : string)
      (requestType : RequestType) (rule : Rule).
Arguments RecordRuleHit {_ _ _}.
Arguments AddHttpRequestEvent {_ _ _}.

Section headers.
(** The browser, the frames and the request service; a rule that
    was not found is [null]. *)
Context {Tab RequestType Rule : Type}.
Variable isEdgeBeforeCreatorsUpdate : bool.
Variable webSocketSupported : bool.
Variables WEBSOCKET WEBRTC CSP : RequestType.
Variable getFrameUrl : Tab → Z → string.
Variable getRuleForRequest : Tab → string → string → RequestType → option Rule.
Variable isRequestBlockedByRule : option Rule → bool.
Variable getCspRules : Tab → string → string → RequestType → option (list Rule).
Variable cspDirective : Rule → string.
Variable DEFAULT_DIRECTIVE : string.

Definition findLegacyCspRule (tab : Tab) (frameUrl : string) : option Rule :=
  let rule := None in
  let applyCSP := false in
  let '(rule, applyCSP) :=
    if negb webSocketSupported then
      let rule :=
        getRuleForRequest tab "ws://adguardwebsocket.check" frameUrl WEBSOCKET in
      (rule, isRequestBlockedByRule rule)
    else (rule, applyCSP) in
  if negb applyCSP then
    getRuleForRequest tab "stun:adguardwebrtc.check" frameUrl WEBRTC
  else rule.

(** The body of the loop over [cspRules]: the headers collected and the
    calls made so far go in and come out. *)
Definition cspRuleStep (tab : Tab) (requestUrl frameUrl : string)
    (acc : list Header * list (ServiceCall Tab RequestType Rule)) (rule : Rule)
    : list Header * list (ServiceCall Tab RequestType Rule) :=
  let '(cspHeaders, made) := acc in
  let cspHeaders :=
    if isRequestBlockedByRule (Some rule) then
      cspHeaders ++ [mkHeader CSP_HEADER_NAME (cspDirective rule)]
    else cspHeaders in
  (cspHeaders,
   made ++ [RecordRuleHit tab rule requestUrl;
            AddHttpRequestEvent tab requestUrl frameUrl CSP rule]).

(** [modifyCSPHeader], from the calls made so far to its answer,
    [undefined] when there is none, and the calls made after it. *)
Definition modifyCSPHeader (details : requestDetails.t Tab RequestType)
    (made : list (ServiceCall Tab RequestType Rule))
    : option response.t * list (ServiceCall Tab RequestType Rule) :=
  if isEdgeBeforeCreatorsUpdate then (None, made)
  else
    let tab := requestDetails.tab details in
    let requestUrl := requestDetails.requestUrl details in
    let responseHeaders := default [] (requestDetails.responseHeaders details) in
    let requestType := requestDetails.requestType details in
    let frameUrl := getFrameUrl tab (requestDetails.frameId details) in
    let cspHeaders := [] in
    let legacyCspRule := findLegacyCspRule tab frameUrl in
    let cspHeaders :=
      if isRequestBlockedByRule legacyCspRule then
        cspHeaders ++ [mkHeader CSP_HEADER_NAME DEFAULT_DIRECTIVE]
      else cspHeaders in
    let made :=
      match legacyCspRule with
      | Some rule =>
          made ++ [RecordRuleHit tab rule frameUrl;
                   AddHttpRequestEvent tab "content-security-policy-check"
                     frameUrl CSP rule]
      | None => made
      end in
    let cspRules := getCspRules tab requestUrl frameUrl requestType in
    let '(cspHeaders, made) :=
      match cspRules with
      | Some cspRules =>
          foldl (cspRuleStep tab requestUrl frameUrl) (cspHeaders, made) cspRules
      | None => (cspHeaders, made)
      end in
    if (0 <? length cspHeaders)%nat then
      let responseHeaders := responseHeaders ++ cspHeaders in
      (Some (response.Build responseHeaders cspHeaders), made)
    else (None, made).
End headers.

(** ** fastScriptRulesLoader *)

(** [reJsEscape]: double quote, quote, backslash, line feed, carriage
    return, U+2028 and U+2029. *)
Definition reJsEscape (c : N) : bool :=
  match c with
  | 34 | 39 | 92 | 10 | 13 | 8232 | 8233 => true
  | _ => false
  end%N.

(** The [switch] has no default: [undefined] for any other match. *)
Definition escapeJs (matched : N) : option (list N) :=
  match matched with
  | 34 | 39 | 92 => Some ([92] ++ [matched])
  | 10 => Some [92; 110; 92; 10]
  | 13 => Some []
  | 8232 => Some (text "\u2028")
  | 8233 => Some (text "\u2029")
  | _ => None
  end%N.

(** The text of [injectedScript] before the escaped scripts: the first
    string literal, line continuations taken out. *)
Definition injectedScriptBefore : list N :=
  text "(function() {" ++
  text "                    var script = document.createElement(" ++
  [dq] ++
  text "script" ++
  [dq] ++
  text ");" ++
  text "                    script.setAttribute(" ++
  [dq] ++
  text "type" ++
  [dq] ++
  text ", " ++
  [dq] ++
  text "text/javascript" ++
  [dq] ++
  text ");" ++
  text "                    script.textContent = " ++
  [dq].

(** The text of [injectedScript] after the escaped scripts: the second
    string literal, which starts with the closing quote. *)
Definition injectedScriptAfter : list N :=
  [dq] ++
  text ";" ++
  text "                    var parent = document.head || document.documentElement;" ++
  text "                    try {" ++
  text "                        parent.appendChild(script);" ++
  text "                        parent.removeChild(script);" ++
  text "                    } catch (e) {" ++
  text "                    } finally {" ++
  text "                        return true;" ++
  text "                    }" ++
  text "                })()".

(** The two flags that the listeners read and write on a frame object
    of [adguard.tabs]. *)
Record Frame : Type := mkFrame { executedJS : bool; insertedCSS : bool }.

Definition FrameRef : Type := nat.

(** The calls of [adguard.tabs.executeScript] and [adguard.tabs.insertCSS],
    with the details passed. *)
Inductive TabCall : Type :=
  | ExecuteScript (tabId : Z) (code : list N) (frameId : Z) (runAt : string)
  | InsertCSS (tabId : Z) (code : list N) (runAt : string) (cssOrigin : option string).

(** The flags written on the frame objects and the calls made so far. *)
Record State : Type := mkState {
  frames : gmap FrameRef Frame;
  tabCalls : list TabCall
}.

(** A flag that was never written reads as [undefined], which is falsy. *)
Definition frameOf (frame : FrameRef) (s : State) : Frame :=
  default (mkFrame false false) (frames s !! frame).

(** [result.selectors] and the result of
    [webRequestService.processGetSelectorsAndScripts]. *)
Record Selectors : Type := mkSelectors { css : option (list (list N)) }.

Record SelectorsAndScripts : Type := mkResult {
  scripts : option (list N);
  selectors : option Selectors
}.

(** The details of a committed navigation. *)
Module details.
Record t : Type := Build { tabId : Z; frameId : Z; url : string }.
End details.

Section listeners.
(** [adguard.tabs.getTabFrame] answers a frame object or nothing;
    [GetSelectorAndScriptsEnum] and [processGetSelectorsAndScripts]
    belong to the request service; [userCSSSupport] is computed once
    from [adguard.extensionTypes]. *)
Context {Bits : Type}.
Variable getTabFrame : Z → Z → option FrameRef.
Variables RETRIEVE_SCRIPTS RETRIEVE_TRADITIONAL_CSS : Bits.
Variable processGetSelectorsAndScripts : Z → string → Bits → SelectorsAndScripts.
Variable userCSSSupport : bool.

Definition setExecutedJS (frame : FrameRef) (s : State) : State :=
  {| frames := <[frame := mkFrame true (insertedCSS (frameOf frame s))]> (frames s);
     tabCalls := tabCalls s |}.

Definition setInsertedCSS (frame : FrameRef) (s : State) : State :=
  {| frames := <[frame := mkFrame (executedJS (frameOf frame s)) true]> (frames s);
     tabCalls := tabCalls s |}.

Definition call (c : TabCall) (s : State) : State :=
  {| frames := frames s; tabCalls := tabCalls s ++ [c] |}.

Definition tryInjectScripts (tabId frameId : Z) (frame : FrameRef)
    (resultScripts : list N) (s : State) : State :=
  let injectedScript :=
    injectedScriptBefore ++ replace resultScripts reJsEscape escapeJs ++
    injectedScriptAfter in
  setExecutedJS frame
    (call (ExecuteScript tabId injectedScript frameId "document_start") s).

(** The first listener of [webNavigation.onCommitted]. *)
Definition onCommittedScripts (details : details.t) (s : State) : State :=
  let tabId := details.tabId details in
  let frameId := details.frameId details in
  let url := details.url details in
  match getTabFrame tabId frameId with
  | None => s
  | Some frame =>
      if executedJS (frameOf frame s) then s
      else
        let result := processGetSelectorsAndScripts tabId url RETRIEVE_SCRIPTS in
        match scripts result with
        | None | Some [] => s
        | Some resultScripts =>
            tryInjectScripts tabId frameId frame resultScripts s
        end
  end.

Definition tryInsertCss (tabId frameId : Z) (frame : FrameRef)
    (css : list (list N)) (s : State) : State :=
  let cssStringified := join css (text " ") in
  setInsertedCSS frame
    (call (InsertCSS tabId cssStringified "document_start"
             (if userCSSSupport then Some "user"%string else None)) s).

(** The second listener of [webNavigation.onCommitted]. *)
Definition onCommittedCss (details : details.t) (s : State) : State :=
  let tabId := details.tabId details in
  let frameId := details.frameId details in
  let url := details.url details in
  if negb (frameId =? 0)%Z then s
  else
    match getTabFrame tabId frameId with
    | None => s
    | Some frame =>
        if insertedCSS (frameOf frame s) then s
        else
          let result :=
            processGetSelectorsAndScripts tabId url RETRIEVE_TRADITIONAL_CSS in
          match selectors result with
          | None => s
          | Some sel =>
              match css sel with
              | None => s
              | Some css => tryInsertCss tabId frameId frame css s
              end
          end
    end.

(** The two listeners are added to [webNavigation.onCommitted] in this
    order, and not at all in Edge. *)
Variable isEdgeBrowser : bool.

Definition onCommitted (details : details.t) (s : State) : State :=
  let shouldUseExecuteScript := negb isEdgeBrowser in
  let shouldUseInsertCSS := negb isEdgeBrowser in
  let s := if shouldUseExecuteScript then onCommittedScripts details s else s in
  if shouldUseInsertCSS then onCommittedCss details s else s.
End listeners.

End webrequest.

(** * Vocabulary of the properties *)

(** ** The store of rule objects *)

(** The filter only ever writes the restricted-domain set of a rule
    object.  [descriptor] is what it leaves alone. *)
Definition descriptor (o : Rule) : Rule := setRestrictedDomains o ∅.

Definition sameDescriptors (h h' : gmap RuleRef Rule) : Prop :=
  ∀ r, descriptor <$> h !! r = descriptor <$> h' !! r.

(** Reads of a rule object through its reference. *)
Definition filterAt (h : gmap RuleRef Rule) (r : RuleRef) : option (option string) :=
  elementsFilter <$> h !! r.

Definition permittedAt (h : gmap RuleRef Rule) (r : RuleRef) : gset string :=
  default ∅ (permittedDomains <$> h !! r).

Definition restrictedAt (h : gmap RuleRef Rule) (r : RuleRef) : gset string :=
  default ∅ (restrictedDomains <$> h !! r).

Definition isExceptionAt (h : gmap RuleRef Rule) (r : RuleRef) : option bool :=
  whiteListRule <$> h !! r.

(** The property name under which the index files a rule. *)
Definition keyAt (h : gmap RuleRef Rule) (r : RuleRef) : string :=
  keyOf (default None (filterAt h r)).

(** Whether [addRule] takes the rule behind a reference. *)
Definition acceptedAt (h : gmap RuleRef Rule) (rule : RuleRef) : bool :=
  match h !! rule with
  | Some o => truthy (tagName o)
  | None => false
  end.

(** No reference held by the filter dangles. *)
Definition closed (s : State) : Prop :=
  (∀ r, r ∈ contentRules s → is_Some (heap s !! r)) ∧
  (∀ key values e, MultiMap.map (exceptionRulesMap s) !! key = Some values →
     e ∈ values → is_Some (heap s !! e)).

(** ** What the loops over [contentRules] do *)

(** While a loop over [contentRules] runs, the store keeps its
    descriptors and the fields of the filter stay as they were. *)
Definition during (h0 : gmap RuleRef Rule) (cr0 : list RuleRef)
    (m0 : MultiMap.t RuleRef) (d0 : bool) (s : State) : Prop :=
  sameDescriptors h0 (heap s) ∧ contentRules s = cr0 ∧
  exceptionRulesMap s = m0 ∧ dirty s = d0.

(** A rule object whose restricted-domain set went through [G]. *)
Definition rewritten (G : option string → gset string → gset string) (o : Rule)
    : Rule :=
  setRestrictedDomains o (G (elementsFilter o) (restrictedDomains o)).

(** The exception rules that [applyExceptionRules] applies to a rule with
    matching key [f]: those filed under the property [keyOf f] for which
    the test of [applyExceptionRule] passes. *)
Definition exceptionsFor (h : gmap RuleRef Rule) (m : MultiMap.t RuleRef)
    (f : option string) : list RuleRef :=
  filter (λ e, filterAt h e = Some f) (default [] (MultiMap.get (keyOf f) m)).

(** The domains that these exception rules permit. *)
Definition exceptedDomains (h : gmap RuleRef Rule) (m : MultiMap.t RuleRef)
    (f : option string) : gset string :=
  ⋃ (permittedAt h <$> exceptionsFor h m f).

(** Whether [rebuild] runs its loop. *)
Definition rebuildActive (s : State) : bool :=
  dirty s && negb (MultiMap.isEmpty (exceptionRulesMap s)).

(** The calls of [addRestrictedDomains] that one run of
    [applyExceptionRules] makes. *)
Definition applications (h : gmap RuleRef Rule) (m : MultiMap.t RuleRef)
    (rule : RuleRef) : list Call :=
  match filterAt h rule with
  | Some f => Applied rule <$> exceptionsFor h m f
  | None => []
  end.

(** The rule object after one pass of [rebuild]. *)
Definition rebuilt (s : State) (r : RuleRef) (o : Rule) : Rule :=
  if rebuildActive s && bool_decide (r ∈ contentRules s)
  then setRestrictedDomains o
         (restrictedDomains o ∪
          exceptedDomains (heap s) (exceptionRulesMap s) (elementsFilter o))
  else o.

(** The rule object after [rollbackExceptionRule] for an exception rule
    object [eo], and the calls of [removeRestrictedDomains] that the loop
    makes for one rule. *)
Definition rolledBack (rules : list RuleRef) (eo : Rule) (r : RuleRef) (o : Rule)
    : Rule :=
  if whiteListRule eo && bool_decide (r ∈ rules) &&
     bool_decide (elementsFilter o = elementsFilter eo)
  then setRestrictedDomains o (restrictedDomains o ∖ permittedDomains eo)
  else o.

Definition rollbacks (h : gmap RuleRef Rule) (exceptionRule : RuleRef)
    (eo : Rule) (rule : RuleRef) : list Call :=
  if decide (filterAt h rule = Some (elementsFilter eo))
  then [RolledBack rule exceptionRule] else [].

(** Every rule of [contentRules] is restricted on the permitted domains
    of every exception rule filed under its key. *)
Definition exceptionsApplied (s : State) : Prop :=
  ∀ r ro e eo,
    r ∈ contentRules s → heap s !! r = Some ro →
    e ∈ default [] (MultiMap.get (keyOf (elementsFilter eo)) (exceptionRulesMap s)) →
    heap s !! e = Some eo →
    elementsFilter ro = elementsFilter eo →
    permittedDomains eo ⊆ restrictedDomains ro.

(** ** What the queries read *)

(** The permission decision of the rule object behind a reference. *)
Definition permits (isPermitted : Rule → string → bool)
    (h : gmap RuleRef Rule) (domainName : string) (r : RuleRef) : bool :=
  match h !! r with
  | Some o => isPermitted o domainName
  | None => false
  end.

(** The elements that the traversal of a rule yields; [null] counts as
    no element. *)
Definition matchedAt {Doc Element : Type}
    (ruleMatchedElements : Rule → Doc → option (list Element))
    (h : gmap RuleRef Rule) (doc : Doc) (r : RuleRef) : list Element :=
  match h !! r with
  | Some o => default [] (ruleMatchedElements o doc)
  | None => []
  end.

(** ** Histories of calls *)

(** The calls that a user of the filter makes after the constructor. *)
Inductive Op (Doc : Type) : Type :=
  | OpAddRule (rule : RuleRef)
  | OpRemoveRule (rule : RuleRef)
  | OpGetRulesForDomain (domainName : string)
  | OpGetMatchedElements (doc : Doc) (domainName : string).
Global Arguments OpAddRule {Doc} rule.
Global Arguments OpRemoveRule {Doc} rule.
Global Arguments OpGetRulesForDomain {Doc} domainName.
Global Arguments OpGetMatchedElements {Doc} doc domainName.

Definition step {Doc Element : Type} (isPermitted : Rule → string → bool)
    (ruleMatchedElements : Rule → Doc → option (list Element))
    (op : Op Doc) (s : State) : option State :=
  match op with
  | OpAddRule rule => addRule rule s
  | OpRemoveRule rule => removeRule rule s
  | OpGetRulesForDomain domainName =>
      fst <$> getRulesForDomain isPermitted domainName s
  | OpGetMatchedElements doc domainName =>
      fst <$> getMatchedElements isPermitted ruleMatchedElements doc domainName s
  end.

Fixpoint run {Doc Element : Type} (isPermitted : Rule → string → bool)
    (ruleMatchedElements : Rule → Doc → option (list Element))
    (ops : list (Op Doc)) (s : State) : option State :=
  match ops with
  | [] => Some s
  | op :: rest =>
      s' ← step isPermitted ruleMatchedElements op s;
      run isPermitted ruleMatchedElements rest s'
  end.

(** The rule arguments of a call are rule objects of the store. *)
Definition definedOp {Doc : Type} (h : gmap RuleRef Rule) (op : Op Doc) : bool :=
  match op with
  | OpAddRule rule | OpRemoveRule rule => bool_decide (is_Some (h !! rule))
  | _ => true
  end.

(** How many times the filter holds a rule after a history: an accepted
    [addRule] adds one, a [removeRule] takes one away if there is one. *)
Definition heldStep {Doc : Type} (h : gmap RuleRef Rule) (r : RuleRef)
    (op : Op Doc) (n : nat) : nat :=
  match op with
  | OpAddRule rule =>
      if decide (rule = r) then (if acceptedAt h rule then S n else n) else n
  | OpRemoveRule rule => if decide (rule = r) then Nat.pred n else n
  | _ => n
  end.

Fixpoint held {Doc : Type} (h : gmap RuleRef Rule) (r : RuleRef)
    (ops : list (Op Doc)) (n : nat) : nat :=
  match ops with
  | [] => n
  | op :: rest => held h r rest (heldStep h r op n)
  end.

(** How many times a state holds a rule: in [contentRules] and in the
    index under the key of the rule. *)
Definition copies (s : State) (r : RuleRef) : nat :=
  (length (filter (λ x, x = r) (contentRules s)) +
   MultiMap.occurrences (keyAt (heap s) r) r (exceptionRulesMap s))%nat.

(** What every state reached from the constructor satisfies. *)
Definition partitioned (h0 : gmap RuleRef Rule) (s : State) : Prop :=
  sameDescriptors h0 (heap s) ∧
  closed s ∧
  MultiMap.counted (exceptionRulesMap s) ∧
  (∀ r, r ∈ contentRules s → isExceptionAt (heap s) r = Some false) ∧
  (∀ key values e, MultiMap.map (exceptionRulesMap s) !! key = Some values →
     e ∈ values → isExceptionAt (heap s) e = Some true ∧ key = keyAt (heap s) e) ∧
  (dirty s = false → exceptionsApplied s).

(** ** Deciding the side conditions on a given state *)

Global Instance closed_dec s : Decision (closed s).
Proof.
  refine (cast_if (decide
    (Forall (λ r, is_Some (heap s !! r)) (contentRules s) ∧
     map_Forall (λ _ values, Forall (λ e, is_Some (heap s !! e)) values)
       (MultiMap.map (exceptionRulesMap s))))).
  - destruct a as [Hcr Hm]. split.
    + by apply Forall_forall.
    + intros key values e Hkey He.
      specialize (Hm key values Hkey). simpl in Hm.
      rewrite Forall_forall in Hm. by apply Hm.
  - intros [Hcr Hm]. apply n. split.
    + by apply Forall_forall.
    + intros key values Hkey. simpl. apply Forall_forall.
      intros e He. by eapply Hm.
Defined.

Global Instance counted_dec (m : MultiMap.t RuleRef) : Decision (MultiMap.counted m).
Proof.
  refine (cast_if (decide
    (MultiMap.size m = Z.of_nat (base.size (MultiMap.map m)) ∧
     map_Forall (λ _ values, values ≠ []) (MultiMap.map m)))).
  - exact a.
  - exact n.
Defined.

Ltac by_evaluation P :=
  apply (bool_decide_unpack P); vm_compute; exact I.

(** ** Sample rule objects

    A regular rule whose restricted-domain set already holds a domain, an
    exception rule with the same matching key that permits that domain, a
    second regular rule with another key, and a rule with a matching key
    but no tag name. *)

Definition sampleRegular : Rule :=
  mkRule (Some "div"%string) (Some "div[ad]"%string) false ∅ {[ "a.com"%string ]}.

Definition sampleException : Rule :=
  mkRule (Some "div"%string) (Some "div[ad]"%string) true {[ "a.com"%string ]} ∅.

Definition sampleOther : Rule :=
  mkRule (Some "span"%string) (Some "span[x]"%string) false ∅ ∅.

Definition sampleNoTag : Rule :=
  mkRule (Some EmptyString) (Some "[ad]"%string) false ∅ ∅.

Definition sampleHeap : gmap RuleRef Rule :=
  {[ 1%nat := sampleRegular; 2%nat := sampleException;
     3%nat := sampleOther; 4%nat := sampleNoTag ]}.

(** The filter holding the first regular rule, as a query leaves it ... *)
Definition sampleClean : State :=
  mkState sampleHeap [1%nat] MultiMap.new false [].

(** ... and a filter with two regular rules to which the exception rule
    has just been added. *)
Definition sampleStale : State :=
  mkState sampleHeap [1%nat; 3%nat]
    (MultiMap.put "div[ad]" 2%nat MultiMap.new) true [].

(** A permission decision for the samples: a rule acts on every domain
    outside its restricted set. *)
Definition unlessRestricted (o : Rule) (domainName : string) : bool :=
  bool_decide (domainName ∉ restrictedDomains o).

(** A traversal for the samples: documents are lists of tag names, a rule
    yields the positions of its tag. *)
Definition positionsOfTag (o : Rule) (doc : list string) : option (list nat) :=
  match tagName o with
  | Some tag =>
      Some (fst <$> filter (λ p, p.2 = tag) (imap (λ i t, (i, t)) doc))
  | None => None
  end.

(** ** Histories of an index *)

(** The two calls that change a [MultiMap] built by its constructor. *)
Inductive IndexOp (V : Type) : Type :=
  | IndexPut (key : string) (value : V)
  | IndexRemove (key : string) (value : V).
Global Arguments IndexPut {V} key value.
Global Arguments IndexRemove {V} key value.

Definition indexStep {V : Type} {Veq : EqDecision V} (op : IndexOp V)
    (m : MultiMap.t V) : MultiMap.t V :=
  match op with
  | IndexPut key value => MultiMap.put key value m
  | IndexRemove key value => MultiMap.remove key value m
  end.

Fixpoint indexRun {V : Type} {Veq : EqDecision V} (ops : list (IndexOp V))
    (m : MultiMap.t V) : MultiMap.t V :=
  match ops with
  | [] => m
  | op :: rest => indexRun rest (indexStep op m)
  end.

(** An index with two values under one key and one under another. *)
Definition sampleIndex : MultiMap.t RuleRef :=
  MultiMap.put "b" 3%nat (MultiMap.put "a" 2%nat (MultiMap.put "a" 1%nat MultiMap.new)).

(** ** What the constructor files where *)

(** Whether [addRule] appends the rule behind a reference to
    [contentRules], and whether it files it in the index under a given
    property name. *)
Definition addedRegular (h : gmap RuleRef Rule) (r : RuleRef) : bool :=
  acceptedAt h r && bool_decide (isExceptionAt h r = Some false).

Definition addedException (h : gmap RuleRef Rule) (key : string) (r : RuleRef)
    : bool :=
  acceptedAt h r && bool_decide (isExceptionAt h r = Some true) &&
  bool_decide (keyAt h r = key).

(** ** String literals of the injected script *)

(** How JavaScript reads the body of a double-quoted string literal:
    [readDoubleQuoted] takes the source after the opening quote and
    answers the string value and the source after the closing quote.
    It reads the single character escapes, the line continuation with a
    line feed and the escapes with four hexadecimal digits, and nothing
    where the literal is malformed or uses another escape. *)
Definition hexDigit (c : N) : option N :=
  if (48 <=? c)%N && (c <=? 57)%N then Some (c - 48)%N
  else if (97 <=? c)%N && (c <=? 102)%N then Some (c - 87)%N
  else if (65 <=? c)%N && (c <=? 70)%N then Some (c - 55)%N
  else None.

Definition hex4 (a b c d : N) : option N :=
  a ← hexDigit a; b ← hexDigit b; c ← hexDigit c; d ← hexDigit d;
  Some (((a * 16 + b) * 16 + c) * 16 + d)%N.

Definition singleEscape (c : N) : option N :=
  if (c =? 34)%N then Some 34%N
  else if (c =? 39)%N then Some 39%N
  else if (c =? 92)%N then Some 92%N
  else if (c =? 98)%N then Some 8%N
  else if (c =? 102)%N then Some 12%N
  else if (c =? 110)%N then Some 10%N
  else if (c =? 114)%N then Some 13%N
  else if (c =? 116)%N then Some 9%N
  else if (c =? 118)%N then Some 11%N
  else None.

Definition isLineTerminator (c : N) : bool :=
  (c =? 10)%N || (c =? 13)%N || (c =? 8232)%N || (c =? 8233)%N.

Fixpoint readDoubleQuoted (source : list N) : option (list N * list N) :=
  match source with
  | [] => None
  | c :: source =>
      if (c =? 34)%N then Some ([], source)
      else if (c =? 92)%N then
        match source with
        | [] => None
        | e :: source =>
            if (e =? 10)%N then readDoubleQuoted source
            else if (e =? 117)%N then
              match source with
              | a :: b :: c :: d :: source =>
                  unit ← hex4 a b c d;
                  '(value, source) ← readDoubleQuoted source;
                  Some (unit :: value, source)
              | _ => None
              end
            else
              unit ← singleEscape e;
              '(value, source) ← readDoubleQuoted source;
              Some (unit :: value, source)
        end
      else if isLineTerminator c then None
      else
        '(value, source) ← readDoubleQuoted source;
        Some (c :: value, source)
  end.

(** A text without its carriage returns. *)
Definition withoutCarriageReturns (s : list N) : list N :=
  filter (λ c, c ≠ 13%N) s.

(** ** Navigations *)

(** The number of calls of [executeScript] for a frame of a tab, and of
    calls of [insertCSS] for a tab, among the calls made. *)
Definition isExecution (tabId frameId : Z) (c : webrequest.TabCall) : bool :=
  match c with
  | webrequest.ExecuteScript t _ f _ => (t =? tabId) && (f =? frameId)
  | _ => false
  end.

Definition isInsertion (tabId : Z) (c : webrequest.TabCall) : bool :=
  match c with
  | webrequest.InsertCSS t _ _ _ => t =? tabId
  | _ => false
  end.

Definition executions (tabId frameId : Z) (made : list webrequest.TabCall) : nat :=
  length (filter (λ c, isExecution tabId frameId c) made).

Definition insertions (tabId : Z) (made : list webrequest.TabCall) : nat :=
  length (filter (λ c, isInsertion tabId c) made).

(** The listeners run for every navigation of a history. *)
Definition navigate {A : Type} (listener : webrequest.details.t → A → A)
    (history : list webrequest.details.t) (s : A) : A :=
  foldl (λ s details, listener details s) s history.

(** The frame of a tab has its scripts executed, or the top frame of a
    tab its stylesheets inserted, when the frame object carries the
    flag. *)
Definition executedIn (getTabFrame : Z → Z → option webrequest.FrameRef)
    (tabId frameId : Z) (s : webrequest.State) : Prop :=
  ∃ frame, getTabFrame tabId frameId = Some frame ∧
           webrequest.executedJS (webrequest.frameOf frame s) = true.

Definition insertedIn (getTabFrame : Z → Z → option webrequest.FrameRef)
    (tabId : Z) (s : webrequest.State) : Prop :=
  ∃ frame, getTabFrame tabId 0 = Some frame ∧
           webrequest.insertedCSS (webrequest.frameOf frame s) = true.

(** A step that does a thing at most once: it counts the thing at most
    once more, only when it leaves the thing marked as done, and not
    at all when the thing was marked as done before. *)
Definition once {A : Type} (marked : A → Prop) (count : A → nat) (s s' : A) : Prop :=
  (marked s → marked s' ∧ count s' = count s) ∧
  (count s' ≤ count s + 1)%nat ∧
  (count s' ≠ count s → marked s').

(** ** Headers added to a response *)

Section added_headers.
Context {Tab RequestType Rule : Type}.
Variable webSocketSupported : bool.
Variables WEBSOCKET WEBRTC : RequestType.
Variable getFrameUrl : Tab → Z → string.
Variable getRuleForRequest : Tab → string → string → RequestType → option Rule.
Variable isRequestBlockedByRule : option Rule → bool.
Variable getCspRules : Tab → string → string → RequestType → option (list Rule).
Variable cspDirective : Rule → string.
Variable DEFAULT_DIRECTIVE : string.

(** The probe for web sockets, made where the browser cannot filter
    them, or the probe for WebRTC is blocked in the frame. *)
Definition probeBlocked (tab : Tab) (frameUrl : string) : bool :=
  negb webSocketSupported &&
    isRequestBlockedByRule
      (getRuleForRequest tab "ws://adguardwebsocket.check" frameUrl WEBSOCKET)
  || isRequestBlockedByRule
       (getRuleForRequest tab "stun:adguardwebrtc.check" frameUrl WEBRTC).

(** The directives to add to a response: the default one where a probe
    is blocked, then those of the rules for the request that block. *)
Definition directives (details : webrequest.requestDetails.t Tab RequestType)
    : list string :=
  let tab := webrequest.requestDetails.tab details in
  let frameUrl := getFrameUrl tab (webrequest.requestDetails.frameId details) in
  (if probeBlocked tab frameUrl then [DEFAULT_DIRECTIVE] else []) ++
  (cspDirective <$>
     filter (λ rule, isRequestBlockedByRule (Some rule) = true)
       (default []
          (getCspRules tab (webrequest.requestDetails.requestUrl details) frameUrl
             (webrequest.requestDetails.requestType details)))).
End added_headers.

(** A request with two rules reported for it, of which the second
    blocks. *)
Definition sampleDetails : webrequest.requestDetails.t Z Z :=
  webrequest.requestDetails.Build 1 "https://example.org/page"
    (Some [webrequest.mkHeader "Server" "nginx"]) 0 0.

Definition sampleBlocks (rule : option nat) : bool :=
  match rule with
  | Some rule => Nat.even rule
  | None => false
  end.

Definition sampleCspRules (tab : Z) (requestUrl frameUrl : string)
    (requestType : Z) : option (list nat) :=
  Some [1; 2]%nat.

(** * Properties *)

(** ** Removal from a collection *)

Section removal_facts.
Context {V : Type} {Veq : EqDecision V}.
Implicit Types (l : list V) (x y : V).

Lemma collections_removeRule_absent l x : x ∉ l → collections.removeRule l x = l.
Proof.
  induction l as [|y l IH]; simpl; [done|].
  intros Hx. apply not_elem_of_cons in Hx as [Hne Hx].
  rewrite decide_False by congruence. by rewrite IH.
Qed.

Lemma collections_removeRule_elem_of l x y : y ∈ collections.removeRule l x → y ∈ l.
Proof.
  induction l as [|z l IH]; simpl; [done|].
  destruct (decide (z = x)); rewrite !elem_of_cons; intuition congruence.
Qed.

Lemma collections_removeRule_other l x y : y ≠ x → y ∈ l → y ∈ collections.removeRule l x.
Proof.
  intros Hne. induction l as [|z l IH]; simpl; [done|].
  destruct (decide (z = x)); rewrite !elem_of_cons; intuition congruence.
Qed.

Lemma collections_removeRule_count l x y :
  length (filter (λ z, z = y) (collections.removeRule l x)) =
  if decide (x = y) then Nat.pred (length (filter (λ z, z = y) l))
  else length (filter (λ z, z = y) l).
Proof.
  induction l as [|z l IH]; simpl.
  - by destruct (decide (x = y)).
  - rewrite (filter_cons _ z l).
    destruct (decide (z = x)) as [->|Hzx].
    + destruct (decide (x = y)) as [->|Hxy]; done.
    + rewrite filter_cons.
      destruct (decide (z = y)) as [->|Hzy]; simpl; rewrite IH.
      * by destruct (decide (x = y)) as [->|Hxy].
      * done.
Qed.

(** The first occurrence is the one that goes. *)
Lemma collections_removeRule_first l1 l2 x :
  x ∉ l1 → collections.removeRule (l1 ++ x :: l2) x = l1 ++ l2.
Proof.
  induction l1 as [|y l1 IH]; simpl; intros Hx.
  - by rewrite decide_True.
  - apply not_elem_of_cons in Hx as [Hne Hx].
    rewrite decide_False by congruence. by rewrite IH.
Qed.
End removal_facts.

(** ** The grouping index *)

Section multimap_facts.
Context {V : Type} {Veq : EqDecision V}.
Implicit Types (m : MultiMap.t V) (key : string) (value : V).

Lemma MultiMap_counted_new : MultiMap.counted (MultiMap.new (V:=V)).
Proof. split; [done|]. intros key values. simpl. by rewrite lookup_empty. Qed.

Lemma MultiMap_counted_put key value m :
  MultiMap.counted m → MultiMap.counted (MultiMap.put key value m).
Proof.
  intros [Hsize Hne]. unfold MultiMap.put.
  destruct (MultiMap.map m !! key) as [values|] eqn:Hkey; split; simpl.
  - by rewrite map_size_insert_Some by eauto.
  - intros k l. rewrite lookup_insert. case_decide; [|by apply Hne].
    intros [= <-]. by destruct values.
  - rewrite map_size_insert_None by done. lia.
  - intros k l. rewrite lookup_insert. case_decide; [|by apply Hne].
    by intros [= <-].
Qed.

Lemma MultiMap_counted_remove key value m :
  MultiMap.counted m → MultiMap.counted (MultiMap.remove key value m).
Proof.
  intros [Hsize Hne]. unfold MultiMap.remove.
  destruct (MultiMap.map m !! key) as [values|] eqn:Hkey; [|done].
  simpl. case_decide as Hlen; split; simpl.
  - rewrite map_size_delete_Some by eauto.
    assert (base.size (MultiMap.map m) ≠ 0%nat); [|lia].
    apply (map_size_ne_0_lookup_2 _ key). eauto.
  - intros k l. rewrite lookup_delete. case_decide; [done|by apply Hne].
  - by rewrite map_size_insert_Some by eauto.
  - intros k l. rewrite lookup_insert. case_decide; [|by apply Hne].
    intros [= <-]. intros Hnil. by rewrite Hnil in Hlen.
Qed.

(** On an index built by [put] and [remove] alone, [isEmpty] is true
    exactly when no key is left. *)
Lemma MultiMap_isEmpty_counted m :
  MultiMap.counted m →
  MultiMap.isEmpty m = true ↔ ∀ key, MultiMap.map m !! key = None.
Proof.
  intros [Hsize _]. unfold MultiMap.isEmpty.
  rewrite bool_decide_eq_true, Hsize.
  split.
  - intros Hz key. assert (base.size (MultiMap.map m) = 0%nat) as H0 by lia.
    apply map_size_empty_inv in H0. by rewrite H0, lookup_empty.
  - intros Hnone. assert (MultiMap.map m = ∅) as ->; [|done].
    apply map_eq. intros key. by rewrite Hnone, lookup_empty.
Qed.

Lemma MultiMap_isEmpty_false_lookup m key values :
  MultiMap.counted m → MultiMap.map m !! key = Some values →
  MultiMap.isEmpty m = false.
Proof.
  intros Hc Hkey. destruct (MultiMap.isEmpty m) eqn:He; [|done].
  pose proof (proj1 (MultiMap_isEmpty_counted m Hc) He key) as Hnone. congruence.
Qed.

Lemma MultiMap_remove_absent key value m :
  MultiMap.counted m →
  value ∉ default [] (MultiMap.map m !! key) →
  MultiMap.remove key value m = m.
Proof.
  intros [_ Hne] Hv. unfold MultiMap.remove.
  destruct (MultiMap.map m !! key) as [values|] eqn:Hkey; [|done].
  simpl in *. rewrite collections_removeRule_absent by done.
  rewrite decide_False.
  - destruct m as [mp sz]. simpl in *. f_equal. by apply insert_id.
  - specialize (Hne _ _ Hkey). by destruct values.
Qed.

Lemma MultiMap_occurrences_put key value k v m :
  MultiMap.occurrences k v (MultiMap.put key value m) =
  (MultiMap.occurrences k v m +
   if decide (key = k ∧ value = v) then 1 else 0)%nat.
Proof.
  unfold MultiMap.occurrences, MultiMap.put.
  destruct (MultiMap.map m !! key) as [values|] eqn:Hkey; simpl;
    rewrite lookup_insert.
  - destruct (decide (key = k)) as [<-|Hk]; simpl.
    + rewrite Hkey. simpl. rewrite filter_app, length_app, filter_cons.
      destruct (decide (value = v)) as [->|Hv].
      * by rewrite decide_True.
      * by rewrite decide_False by (by intros [? ?]).
    + rewrite decide_False by (by intros [? ?]). lia.
  - destruct (decide (key = k)) as [<-|Hk]; simpl.
    + rewrite Hkey. simpl. rewrite filter_cons.
      destruct (decide (value = v)) as [->|Hv].
      * by rewrite decide_True.
      * by rewrite decide_False by (by intros [? ?]).
    + rewrite decide_False by (by intros [? ?]). lia.
Qed.

Lemma MultiMap_occurrences_remove key value k v m :
  MultiMap.occurrences k v (MultiMap.remove key value m) =
  if decide (key = k ∧ value = v)
  then Nat.pred (MultiMap.occurrences k v m)
  else MultiMap.occurrences k v m.
Proof.
  unfold MultiMap.occurrences, MultiMap.remove.
  destruct (MultiMap.map m !! key) as [values|] eqn:Hkey; simpl.
  - case_decide as Hlen; simpl.
    + rewrite lookup_delete. destruct (decide (key = k)) as [<-|Hk]; simpl.
      * rewrite Hkey. simpl.
        pose proof (collections_removeRule_count values value v) as Hc.
        apply length_zero_iff_nil in Hlen. rewrite Hlen in Hc. simpl in Hc.
        destruct (decide (value = v)) as [->|Hv].
        -- by rewrite decide_True.
        -- by rewrite decide_False by (by intros [? ?]).
      * by rewrite decide_False by (by intros [? ?]).
    + rewrite lookup_insert. destruct (decide (key = k)) as [<-|Hk]; simpl.
      * rewrite Hkey. simpl. rewrite collections_removeRule_count.
        destruct (decide (value = v)) as [->|Hv].
        -- by rewrite decide_True.
        -- by rewrite decide_False by (by intros [? ?]).
      * by rewrite decide_False by (by intros [? ?]).
  - destruct (decide (key = k ∧ value = v)) as [[<- <-]|]; [|done].
    by rewrite Hkey.
Qed.
End multimap_facts.

(** ** The store of rule objects *)

Lemma State_eta s :
  mkState (heap s) (contentRules s) (exceptionRulesMap s) (dirty s) (calls s) = s.
Proof. by destruct s. Qed.

Lemma setRestrictedDomains_id o : setRestrictedDomains o (restrictedDomains o) = o.
Proof. by destruct o. Qed.

Lemma sameDescriptors_refl h : sameDescriptors h h.
Proof. done. Qed.

Lemma sameDescriptors_trans h1 h2 h3 :
  sameDescriptors h1 h2 → sameDescriptors h2 h3 → sameDescriptors h1 h3.
Proof. intros H12 H23 r. by rewrite H12. Qed.

Lemma sameDescriptors_sym h1 h2 : sameDescriptors h1 h2 → sameDescriptors h2 h1.
Proof. intros H12 r. by rewrite H12. Qed.

Lemma sameDescriptors_insert h r o X :
  h !! r = Some o → sameDescriptors h (<[r := setRestrictedDomains o X]> h).
Proof.
  intros Hr r'. rewrite lookup_insert. case_decide as Heq; [|done].
  subst r'. by rewrite Hr.
Qed.

Lemma sameDescriptors_is_Some h h' r :
  sameDescriptors h h' → is_Some (h !! r) → is_Some (h' !! r).
Proof.
  intros Hd [o Ho]. specialize (Hd r). rewrite Ho in Hd.
  destruct (h' !! r); [eauto|done].
Qed.

Lemma sameDescriptors_lookup h h' r o :
  sameDescriptors h h' → h !! r = Some o →
  ∃ o', h' !! r = Some o' ∧ descriptor o' = descriptor o.
Proof.
  intros Hd Ho. specialize (Hd r). rewrite Ho in Hd.
  destruct (h' !! r) as [o'|]; [|done]. exists o'. split; [done|].
  simpl in Hd. by apply (inj Some) in Hd.
Qed.

Lemma descriptor_elementsFilter o o' :
  descriptor o = descriptor o' → elementsFilter o = elementsFilter o'.
Proof. intros Hd. apply (f_equal elementsFilter) in Hd. done. Qed.

Lemma descriptor_permittedDomains o o' :
  descriptor o = descriptor o' → permittedDomains o = permittedDomains o'.
Proof. intros Hd. apply (f_equal permittedDomains) in Hd. done. Qed.

Lemma descriptor_whiteListRule o o' :
  descriptor o = descriptor o' → whiteListRule o = whiteListRule o'.
Proof. intros Hd. apply (f_equal whiteListRule) in Hd. done. Qed.

Lemma descriptor_tagName o o' :
  descriptor o = descriptor o' → tagName o = tagName o'.
Proof. intros Hd. apply (f_equal tagName) in Hd. done. Qed.

Lemma sameDescriptors_filterAt h h' r :
  sameDescriptors h h' → filterAt h r = filterAt h' r.
Proof.
  intros Hd. unfold filterAt. specialize (Hd r).
  destruct (h !! r) as [o|], (h' !! r) as [o'|]; simpl in *; try done.
  apply (inj Some) in Hd. f_equal. by apply descriptor_elementsFilter.
Qed.

Lemma sameDescriptors_permittedAt h h' r :
  sameDescriptors h h' → permittedAt h r = permittedAt h' r.
Proof.
  intros Hd. unfold permittedAt. specialize (Hd r).
  destruct (h !! r) as [o|], (h' !! r) as [o'|]; simpl in *; try done.
  apply (inj Some) in Hd. by apply descriptor_permittedDomains.
Qed.

Lemma sameDescriptors_isExceptionAt h h' r :
  sameDescriptors h h' → isExceptionAt h r = isExceptionAt h' r.
Proof.
  intros Hd. unfold isExceptionAt. specialize (Hd r).
  destruct (h !! r) as [o|], (h' !! r) as [o'|]; simpl in *; try done.
  apply (inj Some) in Hd. f_equal. by apply descriptor_whiteListRule.
Qed.

Lemma sameDescriptors_exceptionsFor h h' m f :
  sameDescriptors h h' → exceptionsFor h m f = exceptionsFor h' m f.
Proof.
  intros Hd. unfold exceptionsFor.
  apply list_filter_iff. intros e. by rewrite (sameDescriptors_filterAt h h').
Qed.

Lemma sameDescriptors_exceptedDomains h h' m f :
  sameDescriptors h h' → exceptedDomains h m f = exceptedDomains h' m f.
Proof.
  intros Hd. unfold exceptedDomains.
  rewrite (sameDescriptors_exceptionsFor h h') by done.
  f_equal. apply list_fmap_ext. intros i e _.
  by apply sameDescriptors_permittedAt.
Qed.

(** ** The loops over [contentRules] *)

(** Both loops over [contentRules], the one of [rebuild] and the one of
    [rollbackExceptionRule], rewrite the restricted-domain set of the
    rule at hand by a function [G] of its matching key, make the calls
    [C], and leave the rest of the state alone.  A rule that sits twice
    in the array is rewritten twice. *)
Section loops.
Variables (h0 : gmap RuleRef Rule) (cr0 : list RuleRef).
Variables (m0 : MultiMap.t RuleRef) (d0 : bool).
Variable G : option string → gset string → gset string.
Variable C : RuleRef → list Call.
Variable body : RuleRef → State → option State.

Hypothesis G_idem : ∀ f S, G f (G f S) = G f S.
Hypothesis body_spec : ∀ x s o,
  during h0 cr0 m0 d0 s → heap s !! x = Some o →
  body x s =
  Some (mkState (<[x := rewritten G o]> (heap s)) cr0 m0 d0 (calls s ++ C x)).

Lemma forEach_rewritten l : ∀ s,
  during h0 cr0 m0 d0 s → (∀ x, x ∈ l → is_Some (h0 !! x)) →
  ∃ s', forEach body l s = Some s' ∧ during h0 cr0 m0 d0 s' ∧
    (∀ r, heap s' !! r =
          (λ o, if bool_decide (r ∈ l) then rewritten G o else o) <$> heap s !! r) ∧
    calls s' = calls s ++ concat (C <$> l).
Proof.
  induction l as [|x l IH]; intros s Hs Hl; simpl.
  - exists s. split_and!; [done|done| |by rewrite app_nil_r].
    intros r. by destruct (heap s !! r).
  - destruct Hs as (Hd & Hcr & Hm & Hdirty).
    destruct (Hl x) as [o0 Ho0]; [by left|].
    destruct (sameDescriptors_lookup h0 (heap s) x o0) as (o & Ho & Hdo); [done..|].
    rewrite (body_spec x s o) by done. simpl.
    set (s1 := mkState _ _ _ _ _).
    assert (during h0 cr0 m0 d0 s1) as Hs1.
    { split_and!; try done. simpl.
      eapply sameDescriptors_trans; [done|]. by apply sameDescriptors_insert. }
    destruct (IH s1 Hs1) as (s' & Hrun & Hs' & Hheap & Hcalls).
    { intros y Hy. apply Hl. by right. }
    exists s'. split_and!; [done|done| |].
    + intros r. rewrite Hheap. simpl. rewrite lookup_insert.
      destruct (decide (x = r)) as [->|Hne]; simpl.
      * rewrite Ho. simpl. f_equal.
        rewrite (bool_decide_eq_true_2 (r ∈ r :: l)) by by left.
        case_bool_decide; [|done].
        unfold rewritten. simpl. by rewrite G_idem.
      * destruct (heap s !! r) as [o'|]; [|done]. simpl. f_equal.
        assert (r ∈ x :: l ↔ r ∈ l) as Hiff.
        { rewrite elem_of_cons. split; [by intros [->|]|by right]. }
        by rewrite (bool_decide_ext _ _ Hiff).
    + rewrite Hcalls. simpl. by rewrite <-app_assoc.
Qed.
End loops.

(** *** The loop of [applyExceptionRules] *)

Lemma applyExceptionRule_spec rule e h cr m d cs o eo :
  h !! rule = Some o → h !! e = Some eo →
  applyExceptionRule rule e (mkState h cr m d cs) =
  Some (if decide (elementsFilter o = elementsFilter eo)
        then mkState
               (<[rule := setRestrictedDomains o
                            (restrictedDomains o ∪ permittedDomains eo)]> h)
               cr m d (cs ++ [Applied rule e])
        else mkState h cr m d cs).
Proof.
  intros Ho Heo. unfold applyExceptionRule, addRestrictedDomains. simpl.
  rewrite Ho. simpl. rewrite Heo. simpl.
  destruct (decide (elementsFilter o = elementsFilter eo)) as [Heq|Hne].
  - by rewrite decide_False by (intros Hne; by apply Hne).
  - by rewrite decide_True.
Qed.

Lemma applyExceptionRule_loop rule cr m d l : ∀ h o cs,
  h !! rule = Some o →
  (∀ e, e ∈ l → is_Some (h !! e)) →
  let applied := filter (λ e, filterAt h e = Some (elementsFilter o)) l in
  forEach (applyExceptionRule rule) l (mkState h cr m d cs) =
  Some (mkState
          (<[rule := setRestrictedDomains o
                       (restrictedDomains o ∪ ⋃ (permittedAt h <$> applied))]> h)
          cr m d (cs ++ (Applied rule <$> applied))).
Proof.
  induction l as [|e l IH]; intros h o cs Ho Hl; simpl.
  - rewrite union_empty_r_L, setRestrictedDomains_id, insert_id, app_nil_r; done.
  - destruct (Hl e) as [eo Heo]; [by left|].
    rewrite (applyExceptionRule_spec rule e h cr m d cs o eo) by done. simpl.
    rewrite filter_cons.
    destruct (decide (elementsFilter o = elementsFilter eo)) as [Heq|Hne].
    + rewrite decide_True by (unfold filterAt; rewrite Heo; simpl; by rewrite Heq).
      set (o1 := setRestrictedDomains o (restrictedDomains o ∪ permittedDomains eo)).
      set (h1 := <[rule := o1]> h).
      assert (sameDescriptors h h1) as Hd by by apply sameDescriptors_insert.
      assert (filter (λ e0, filterAt h1 e0 = Some (elementsFilter o1)) l =
              filter (λ e0, filterAt h e0 = Some (elementsFilter o)) l) as Hfilter.
      { apply list_filter_iff. intros e0.
        by rewrite (sameDescriptors_filterAt h h1). }
      assert (∀ L : list RuleRef, permittedAt h1 <$> L = permittedAt h <$> L)
        as Hpermitted.
      { intros L. apply list_fmap_ext. intros i e0 _. symmetry.
        by apply sameDescriptors_permittedAt. }
      assert (permittedAt h e = permittedDomains eo) as Hpe.
      { unfold permittedAt. by rewrite Heo. }
      rewrite (IH h1 o1).
      * rewrite Hfilter, Hpermitted, fmap_cons, union_list_cons, Hpe.
        unfold h1. rewrite insert_insert_eq.
        rewrite <-(assoc_L (++)). simpl.
        replace (setRestrictedDomains o1
                   (restrictedDomains o1 ∪
                    ⋃ (permittedAt h <$>
                       filter (λ e0, filterAt h e0 = Some (elementsFilter o)) l)))
          with (setRestrictedDomains o
                  (restrictedDomains o ∪
                   (permittedDomains eo ∪
                    ⋃ (permittedAt h <$>
                       filter (λ e0, filterAt h e0 = Some (elementsFilter o)) l))));
          [done|].
        unfold o1, setRestrictedDomains. simpl. f_equal.
        by rewrite (assoc_L (∪)).
      * unfold h1. by rewrite lookup_insert_eq.
      * intros e0 He0. unfold h1. rewrite lookup_insert.
        case_decide; [eauto|]. apply Hl. by right.
    + rewrite decide_False by (unfold filterAt; rewrite Heo; simpl; congruence).
      rewrite (IH h o) by (try done; intros e0 He0; apply Hl; by right).
      done.
Qed.

Lemma applyExceptionRules_spec rule s o :
  (∀ key values e, MultiMap.map (exceptionRulesMap s) !! key = Some values →
     e ∈ values → is_Some (heap s !! e)) →
  heap s !! rule = Some o →
  applyExceptionRules rule s =
  Some (mkState
          (<[rule := setRestrictedDomains o
                       (restrictedDomains o ∪
                        exceptedDomains (heap s) (exceptionRulesMap s)
                          (elementsFilter o))]> (heap s))
          (contentRules s) (exceptionRulesMap s) (dirty s)
          (calls s ++ (Applied rule <$>
             exceptionsFor (heap s) (exceptionRulesMap s) (elementsFilter o)))).
Proof.
  intros Hm Ho. unfold applyExceptionRules. rewrite Ho. simpl.
  unfold exceptedDomains, exceptionsFor, MultiMap.get.
  destruct (MultiMap.map (exceptionRulesMap s) !! keyOf (elementsFilter o))
    as [values|] eqn:Hkey; simpl.
  - rewrite <-(State_eta s) at 1.
    rewrite (applyExceptionRule_loop rule _ _ _ values (heap s) o); [done..|].
    intros e He. by eapply Hm.
  - rewrite union_empty_r_L, setRestrictedDomains_id, insert_id, app_nil_r by done.
    by rewrite State_eta.
Qed.

(** *** [rebuild] *)

Lemma rebuild_spec s :
  closed s →
  ∃ s', rebuild s = Some s' ∧
    contentRules s' = contentRules s ∧
    exceptionRulesMap s' = exceptionRulesMap s ∧
    dirty s' = false ∧
    sameDescriptors (heap s) (heap s') ∧
    (∀ r, heap s' !! r = rebuilt s r <$> heap s !! r) ∧
    calls s' = calls s ++
      (if rebuildActive s
       then concat (applications (heap s) (exceptionRulesMap s) <$> contentRules s)
       else []).
Proof.
  intros [Hcr Hm]. unfold rebuild, rebuilt, rebuildActive.
  destruct (dirty s) eqn:Hdirty; simpl.
  - destruct (MultiMap.isEmpty (exceptionRulesMap s)) eqn:Hempty; simpl.
    + exists (withDirty false s). split_and!; try done.
      * intros r. simpl. by destruct (heap s !! r).
      * simpl. by rewrite app_nil_r.
    + destruct (forEach_rewritten (heap s) (contentRules s) (exceptionRulesMap s)
                  true
                  (λ f S, S ∪ exceptedDomains (heap s) (exceptionRulesMap s) f)
                  (applications (heap s) (exceptionRulesMap s))
                  applyExceptionRules) with (l := contentRules s) (s := s)
        as (s' & Hrun & (Hd & Hcr' & Hm' & Hdirty') & Hheap & Hcalls).
      * intros f S. apply set_eq. intros d. rewrite !elem_of_union. tauto.
      * intros x s1 o (Hd1 & Hcr1 & Hm1 & Hdirty1) Ho.
        rewrite (applyExceptionRules_spec x s1 o); [|rewrite Hm1|done].
        -- rewrite Hcr1, Hm1, Hdirty1. unfold rewritten.
           rewrite <-(sameDescriptors_exceptedDomains (heap s) (heap s1)) by done.
           rewrite <-(sameDescriptors_exceptionsFor (heap s) (heap s1)) by done.
           unfold applications.
           rewrite (sameDescriptors_filterAt (heap s) (heap s1)) by done.
           unfold filterAt. by rewrite Ho.
        -- intros key values e Hkey He.
           eapply sameDescriptors_is_Some; [done|]. by eapply Hm.
      * by split_and!.
      * done.
      * rewrite Hrun. simpl. exists (withDirty false s').
        by split_and!.
  - exists s. split_and!; try done.
    + intros r. simpl. by destruct (heap s !! r).
    + by rewrite app_nil_r.
Qed.

(** *** [rollbackExceptionRule] *)

Lemma rollbackExceptionRule_spec e s eo :
  (∀ r, r ∈ contentRules s → is_Some (heap s !! r)) →
  heap s !! e = Some eo →
  ∃ s', rollbackExceptionRule e s = Some s' ∧
    contentRules s' = contentRules s ∧
    exceptionRulesMap s' = exceptionRulesMap s ∧
    dirty s' = dirty s ∧
    sameDescriptors (heap s) (heap s') ∧
    (∀ r, heap s' !! r = rolledBack (contentRules s) eo r <$> heap s !! r) ∧
    calls s' = calls s ++
      (if whiteListRule eo
       then concat (rollbacks (heap s) e eo <$> contentRules s)
       else []).
Proof.
  intros Hcr He. unfold rollbackExceptionRule, rolledBack. rewrite He. simpl.
  destruct (whiteListRule eo) eqn:Hwl; simpl.
  - match goal with |- context [forEach ?b _ _] => set (body := b) end.
    destruct (forEach_rewritten (heap s) (contentRules s) (exceptionRulesMap s)
                (dirty s)
                (λ f S, if decide (f = elementsFilter eo)
                        then S ∖ permittedDomains eo else S)
                (rollbacks (heap s) e eo) body) with (l := contentRules s) (s := s)
      as (s' & Hrun & (Hd & Hcr' & Hm' & Hdirty') & Hheap & Hcalls).
    + intros f S. case_decide; [|done].
      apply set_eq. intros d. rewrite !elem_of_difference. tauto.
    + intros x s1 o (Hd1 & Hcr1 & Hm1 & Hdirty1) Ho. unfold body.
      destruct (sameDescriptors_lookup (heap s) (heap s1) e eo)
        as (eo' & Heo' & Hdeo); [done..|].
      rewrite Ho. simpl. rewrite Heo'. simpl.
      rewrite (descriptor_elementsFilter _ _ Hdeo).
      unfold rewritten, rollbacks.
      rewrite (sameDescriptors_filterAt (heap s) (heap s1)) by done.
      unfold getPermittedDomains. rewrite (descriptor_permittedDomains _ _ Hdeo).
      destruct (decide (elementsFilter o = elementsFilter eo)) as [Heq|Hne].
      * rewrite decide_True by (unfold filterAt; rewrite Ho; simpl; by rewrite Heq).
        unfold removeRestrictedDomains. rewrite Ho. simpl.
        unfold withHeap. by rewrite Hcr1, Hm1, Hdirty1.
      * rewrite decide_False by (unfold filterAt; rewrite Ho; simpl; congruence).
        rewrite setRestrictedDomains_id, insert_id, app_nil_r by done.
        rewrite <-Hcr1, <-Hm1, <-Hdirty1. by rewrite State_eta.
    + by split_and!.
    + done.
    + rewrite Hrun. exists s'. split_and!; try done.
      intros r. rewrite Hheap.
      destruct (heap s !! r) as [o|]; [|done]. simpl. f_equal.
      unfold rewritten.
      destruct (bool_decide (r ∈ contentRules s)); simpl; [|done].
      destruct (decide (elementsFilter o = elementsFilter eo)) as [Heq|Hne].
      * by rewrite bool_decide_eq_true_2.
      * rewrite bool_decide_eq_false_2 by done.
        by rewrite setRestrictedDomains_id.
  - exists s. split_and!; try done.
    + intros r. simpl. by destruct (heap s !! r).
    + by rewrite app_nil_r.
Qed.

(** *** [addRule] and [removeRule] *)

Lemma addRule_spec rule s o :
  heap s !! rule = Some o →
  addRule rule s =
  Some (if truthy (tagName o)
        then if whiteListRule o
             then mkState (heap s) (contentRules s)
                    (MultiMap.put (keyOf (elementsFilter o)) rule
                       (exceptionRulesMap s))
                    true (calls s)
             else mkState (heap s) (contentRules s ++ [rule])
                    (exceptionRulesMap s) true (calls s)
        else s).
Proof.
  intros Ho. unfold addRule. rewrite Ho. simpl.
  destruct (truthy (tagName o)); simpl; [|done].
  by destruct (whiteListRule o).
Qed.

Lemma removeRule_spec rule s o :
  (∀ r, r ∈ contentRules s → is_Some (heap s !! r)) →
  heap s !! rule = Some o →
  let rules := collections.removeRule (contentRules s) rule in
  ∃ s', removeRule rule s = Some s' ∧
    contentRules s' = rules ∧
    exceptionRulesMap s' =
      MultiMap.remove (keyOf (elementsFilter o)) rule (exceptionRulesMap s) ∧
    dirty s' = true ∧
    sameDescriptors (heap s) (heap s') ∧
    (∀ r, heap s' !! r = rolledBack rules o r <$> heap s !! r) ∧
    calls s' = calls s ++
      (if whiteListRule o then concat (rollbacks (heap s) rule o <$> rules)
       else []).
Proof.
  intros Hcr Ho rules. unfold removeRule. rewrite Ho. simpl.
  match goal with |- context [rollbackExceptionRule rule ?s0] => set (s2 := s0) end.
  destruct (rollbackExceptionRule_spec rule s2 o)
    as (s3 & Hrun & Hcr3 & Hm3 & Hd3 & Hsame & Hheap & Hcalls); [|done|].
  { intros r Hr. apply Hcr. simpl in Hr. by eapply collections_removeRule_elem_of. }
  rewrite Hrun. simpl. exists (withDirty true s3). by split_and!.
Qed.

Section index_membership.
Context {V : Type} {Veq : EqDecision V}.
Implicit Types (m : MultiMap.t V).

Lemma MultiMap_put_elem_of key value k values x m :
  MultiMap.map (MultiMap.put key value m) !! k = Some values → x ∈ values →
  (k = key ∧ x = value) ∨
  ∃ values', MultiMap.map m !! k = Some values' ∧ x ∈ values'.
Proof.
  unfold MultiMap.put.
  destruct (MultiMap.map m !! key) as [old|] eqn:Hkey; simpl;
    rewrite lookup_insert; destruct (decide (key = k)) as [<-|Hne]; simpl.
  - intros [= <-]. rewrite elem_of_app, list_elem_of_singleton.
    intros [Hx| ->]; [right|left]; eauto.
  - eauto.
  - intros [= <-]. rewrite list_elem_of_singleton. intros ->. by left.
  - eauto.
Qed.

Lemma MultiMap_remove_elem_of key value k values x m :
  MultiMap.map (MultiMap.remove key value m) !! k = Some values → x ∈ values →
  ∃ values', MultiMap.map m !! k = Some values' ∧ x ∈ values'.
Proof.
  unfold MultiMap.remove.
  destruct (MultiMap.map m !! key) as [old|] eqn:Hkey; simpl; [|eauto].
  destruct (decide (length (collections.removeRule old value) = 0%nat)); simpl.
  - rewrite lookup_delete. destruct (decide (key = k)); [done|eauto].
  - rewrite lookup_insert. destruct (decide (key = k)) as [<-|]; simpl; [|eauto].
    intros [= <-] Hx. exists old. split; [done|]. by eapply collections_removeRule_elem_of.
Qed.
End index_membership.

(** *** No operation makes a reference dangle *)

Lemma closed_sameDescriptors s s' :
  closed s → sameDescriptors (heap s) (heap s') →
  (∀ r, r ∈ contentRules s' → r ∈ contentRules s) →
  (∀ key values e, MultiMap.map (exceptionRulesMap s') !! key = Some values →
     e ∈ values → is_Some (heap s !! e)) →
  closed s'.
Proof.
  intros [Hcr Hm] Hd Hcr' Hm'. split.
  - intros r Hr. eapply sameDescriptors_is_Some; [done|]. by apply Hcr, Hcr'.
  - intros key values e Hkey He.
    eapply sameDescriptors_is_Some; [done|]. by eapply Hm'.
Qed.

Lemma closed_addRule rule s s' :
  closed s → addRule rule s = Some s' → closed s'.
Proof.
  intros Hs Hadd. destruct (heap s !! rule) as [o|] eqn:Ho;
    [|by unfold addRule in Hadd; rewrite Ho in Hadd].
  rewrite (addRule_spec rule s o Ho) in Hadd. injection Hadd as <-.
  destruct Hs as [Hcr Hm].
  destruct (truthy (tagName o)); [|done].
  destruct (whiteListRule o); split; simpl; try done.
  - intros key values e Hkey He.
    destruct (MultiMap_put_elem_of _ _ _ _ _ _ Hkey He) as [[_ ->]|(values' & Hv & He')];
      [eauto|by eapply Hm].
  - intros r. rewrite elem_of_app, list_elem_of_singleton.
    intros [Hr| ->]; [by apply Hcr|eauto].
Qed.

Lemma closed_removeRule rule s s' :
  closed s → removeRule rule s = Some s' → closed s'.
Proof.
  intros Hs Hrem. destruct (heap s !! rule) as [o|] eqn:Ho;
    [|by unfold removeRule in Hrem; rewrite Ho in Hrem].
  destruct (removeRule_spec rule s o) as (s1 & Hrun & Hcr & Hm & _ & Hd & _);
    [by apply Hs|done|].
  rewrite Hrun in Hrem. injection Hrem as <-.
  apply (closed_sameDescriptors s); [done|done| |].
  - rewrite Hcr. intros r. apply collections_removeRule_elem_of.
  - rewrite Hm. intros key values e Hkey He.
    destruct (MultiMap_remove_elem_of _ _ _ _ _ _ Hkey He) as (values' & Hv & He').
    destruct Hs as [_ Hmap]. by eapply Hmap.
Qed.

Lemma closed_rebuild s s' : closed s → rebuild s = Some s' → closed s'.
Proof.
  intros Hs Hrun. destruct (rebuild_spec s Hs) as (s1 & Hrun1 & Hcr & Hm & _ & Hd & _).
  rewrite Hrun1 in Hrun. injection Hrun as <-.
  apply (closed_sameDescriptors s); [done|done|by rewrite Hcr|rewrite Hm].
  destruct Hs as [_ Hmap]. intros key values e Hkey He. by eapply Hmap.
Qed.

(** ** The queries *)

Section query_facts.
Context {Doc Element : Type}.
Variable isPermitted : Rule → string → bool.
Variable ruleMatchedElements : Rule → Doc → option (list Element).

Lemma collectPermitted_spec domainName h rules : ∀ result,
  (∀ r, r ∈ rules → is_Some (h !! r)) →
  collectPermitted isPermitted domainName h rules result =
  Some (match filter (λ r, permits isPermitted h domainName r) rules with
        | [] => result
        | found => Some (default [] result ++ found)
        end).
Proof.
  induction rules as [|r rules IH]; intros result Hrules; simpl; [done|].
  destruct (Hrules r) as [o Ho]; [by left|]. rewrite Ho. simpl.
  rewrite IH by (intros r' Hr'; apply Hrules; by right).
  assert (permits isPermitted h domainName r = isPermitted o domainName) as Hp.
  { unfold permits. by rewrite Ho. }
  rewrite filter_cons.
  destruct (isPermitted o domainName); simpl.
  - rewrite decide_True by by rewrite Hp.
    destruct (filter _ rules) as [|r' found]; [done|].
    by rewrite <-app_assoc.
  - by rewrite decide_False by (rewrite Hp; intros []).
Qed.

Lemma collectElements_spec doc h rules : ∀ result,
  (∀ r, r ∈ rules → is_Some (h !! r)) →
  collectElements ruleMatchedElements doc h rules result =
  Some (match concat (matchedAt ruleMatchedElements h doc <$> rules) with
        | [] => result
        | found => Some (default [] result ++ found)
        end).
Proof.
  induction rules as [|r rules IH]; intros result Hrules; simpl; [done|].
  destruct (Hrules r) as [o Ho]; [by left|]. rewrite Ho. simpl.
  rewrite IH by (intros r' Hr'; apply Hrules; by right).
  unfold matchedAt at 2. rewrite Ho.
  destruct (ruleMatchedElements o doc) as [[|x elements]|]; simpl; try done.
  destruct (concat _) as [|y found]; simpl.
  - by rewrite app_nil_r.
  - by rewrite <-app_assoc.
Qed.

(** Both queries leave the state that [rebuild] leaves. *)
Lemma rebuild_when_dirty s s' :
  rebuild s = Some s' → (if dirty s then rebuild s else Some s) = Some s'.
Proof.
  destruct (dirty s) eqn:Hdirty; [done|].
  unfold rebuild. by rewrite Hdirty.
Qed.

Lemma getRulesForDomain_spec domainName s :
  closed s →
  ∃ s', rebuild s = Some s' ∧
    getRulesForDomain isPermitted domainName s =
    Some (s', match filter (λ r, permits isPermitted (heap s') domainName r) (contentRules s) with
              | [] => None
              | found => Some found
              end).
Proof.
  intros Hs. destruct (rebuild_spec s Hs) as (s' & Hrun & Hcr & _).
  exists s'. split; [done|]. unfold getRulesForDomain.
  rewrite (rebuild_when_dirty s s' Hrun). simpl.
  rewrite collectPermitted_spec.
  - simpl. rewrite Hcr. by destruct (filter _ _).
  - by apply (closed_rebuild s s').
Qed.

Lemma getMatchedElementsForRules_spec doc rules s :
  (∀ r, r ∈ rules → is_Some (heap s !! r)) →
  getMatchedElementsForRules ruleMatchedElements doc (Some rules) s =
  Some (match concat (matchedAt ruleMatchedElements (heap s) doc <$> rules) with
        | [] => None
        | elements => Some elements
        end).
Proof.
  intros Hrules. destruct rules as [|r rules]; [done|].
  unfold getMatchedElementsForRules. rewrite collectElements_spec by done.
  by destruct (concat _).
Qed.

Lemma getMatchedElements_spec doc domainName s :
  closed s →
  ∃ s', rebuild s = Some s' ∧
    getMatchedElements isPermitted ruleMatchedElements doc domainName s =
    Some (s', match filter (λ r, permits isPermitted (heap s') domainName r) (contentRules s) with
              | [] => None
              | found =>
                  match concat (matchedAt ruleMatchedElements (heap s') doc <$> found) with
                  | [] => None
                  | elements => Some elements
                  end
              end).
Proof.
  intros Hs. destruct (rebuild_spec s Hs) as (s' & Hrun & Hcr & Hm & Hdirty & _).
  pose proof (closed_rebuild s s' Hs Hrun) as Hs'.
  exists s'. split; [done|]. unfold getMatchedElements.
  rewrite (rebuild_when_dirty s s' Hrun). simpl.
  destruct (getRulesForDomain_spec domainName s' Hs') as (s2 & Hrun2 & Hget).
  assert (s2 = s') as ->.
  { unfold rebuild in Hrun2. rewrite Hdirty in Hrun2. simpl in Hrun2. congruence. }
  rewrite Hget, Hcr.
  destruct (filter _ (contentRules s)) as [|r found] eqn:Hfound; [done|].
  cbn [mbind option_bind]. rewrite getMatchedElementsForRules_spec; [done|].
  intros r' Hr'. apply Hs'. rewrite Hcr.
  eapply (list_elem_of_filter (λ r, permits isPermitted (heap s') domainName r)).
  by rewrite Hfound.
Qed.
End query_facts.

(** ** What a pass of [rebuild] establishes *)

Lemma exceptionsFor_isEmpty h m f :
  MultiMap.counted m → MultiMap.isEmpty m = true → exceptionsFor h m f = [].
Proof.
  intros Hc He. unfold exceptionsFor, MultiMap.get.
  by rewrite (proj1 (MultiMap_isEmpty_counted m Hc) He).
Qed.

Lemma applications_isEmpty h m (rules : list RuleRef) :
  MultiMap.counted m → MultiMap.isEmpty m = true →
  concat (applications h m <$> rules) = [].
Proof.
  intros Hc He. induction rules as [|r rules IH]; [done|].
  rewrite fmap_cons. simpl. rewrite IH, app_nil_r. unfold applications.
  destruct (filterAt h r); [|done]. by rewrite exceptionsFor_isEmpty.
Qed.

Lemma exceptedDomains_contains h m e eo :
  e ∈ default [] (MultiMap.get (keyOf (elementsFilter eo)) m) →
  h !! e = Some eo →
  permittedDomains eo ⊆ exceptedDomains h m (elementsFilter eo).
Proof.
  intros He Heo d Hd. unfold exceptedDomains.
  apply elem_of_union_list. exists (permittedAt h e). split.
  - apply list_elem_of_fmap. exists e. split; [done|].
    unfold exceptionsFor. apply list_elem_of_filter. split; [|done].
    unfold filterAt. by rewrite Heo.
  - unfold permittedAt. by rewrite Heo.
Qed.

Lemma rebuild_merges s :
  closed s → MultiMap.counted (exceptionRulesMap s) → dirty s = true →
  ∃ s', rebuild s = Some s' ∧
    contentRules s' = contentRules s ∧
    exceptionRulesMap s' = exceptionRulesMap s ∧
    dirty s' = false ∧
    sameDescriptors (heap s) (heap s') ∧
    (∀ r ro, r ∈ contentRules s → heap s !! r = Some ro →
       heap s' !! r =
       Some (setRestrictedDomains ro
               (restrictedDomains ro ∪
                exceptedDomains (heap s) (exceptionRulesMap s) (elementsFilter ro)))) ∧
    calls s' = calls s ++
      concat (applications (heap s) (exceptionRulesMap s) <$> contentRules s).
Proof.
  intros Hs Hc Hdirty.
  destruct (rebuild_spec s Hs) as (s' & Hrun & Hcr & Hm & Hd & Hsame & Hheap & Hcalls).
  exists s'. split_and!; try done.
  - intros r ro Hr Hro. rewrite Hheap, Hro. simpl. f_equal.
    unfold rebuilt, rebuildActive. rewrite Hdirty, bool_decide_eq_true_2 by done.
    destruct (MultiMap.isEmpty (exceptionRulesMap s)) eqn:He; simpl; [|done].
    unfold exceptedDomains. rewrite exceptionsFor_isEmpty by done. simpl.
    by rewrite union_empty_r_L, setRestrictedDomains_id.
  - rewrite Hcalls. unfold rebuildActive. rewrite Hdirty.
    destruct (MultiMap.isEmpty (exceptionRulesMap s)) eqn:He; simpl; [|done].
    by rewrite applications_isEmpty.
Qed.

Lemma rebuild_exceptionsApplied s s' :
  closed s → MultiMap.counted (exceptionRulesMap s) → dirty s = true →
  rebuild s = Some s' → exceptionsApplied s'.
Proof.
  intros Hs Hc Hdirty Hrun.
  destruct (rebuild_merges s Hs Hc Hdirty)
    as (s1 & Hrun1 & Hcr & Hm & _ & Hsame & Hheap & _).
  assert (s1 = s') as -> by congruence.
  intros r ro' e eo' Hr Hro' He Heo' Hkey.
  rewrite Hcr in Hr. rewrite Hm in He.
  destruct (proj1 Hs r Hr) as [ro Hro].
  rewrite (Hheap r ro Hr Hro) in Hro'. injection Hro' as <-. simpl in *.
  destruct (sameDescriptors_lookup (heap s') (heap s) e eo')
    as (eo & Heo & Hdeo); [by apply sameDescriptors_sym|done|].
  rewrite <-(descriptor_permittedDomains _ _ Hdeo).
  rewrite Hkey, <-(descriptor_elementsFilter _ _ Hdeo).
  etrans; [apply (exceptedDomains_contains (heap s) (exceptionRulesMap s) e eo)|].
  - by rewrite (descriptor_elementsFilter _ _ Hdeo).
  - done.
  - apply union_subseteq_r.
Qed.

(** ** Reading the index after [put] and [remove] *)

Section index_lookup.
Context {V : Type} {Veq : EqDecision V}.
Implicit Types (m : MultiMap.t V) (l : list V).

Lemma MultiMap_get_put key value m :
  MultiMap.get key (MultiMap.put key value m) =
  Some (default [] (MultiMap.get key m) ++ [value]).
Proof.
  unfold MultiMap.get, MultiMap.put.
  destruct (MultiMap.map m !! key) as [values|] eqn:Hkey; simpl;
    by rewrite lookup_insert_eq.
Qed.

Lemma MultiMap_get_remove key value values m :
  MultiMap.get key m = Some values →
  collections.removeRule values value ≠ [] →
  MultiMap.get key (MultiMap.remove key value m) =
  Some (collections.removeRule values value).
Proof.
  unfold MultiMap.get, MultiMap.remove. intros -> Hne. simpl.
  rewrite decide_False by by rewrite length_zero_iff_nil.
  simpl. by rewrite lookup_insert_eq.
Qed.

Lemma collections_removeRule_twice_appended l x :
  x ∈ collections.removeRule (l ++ [x; x]) x.
Proof.
  induction l as [|y l IH]; simpl.
  - rewrite decide_True by done. by left.
  - destruct (decide (y = x)) as [->|Hne].
    + rewrite elem_of_app. right. by left.
    + by right.
Qed.
End index_lookup.

(** ** Histories of calls *)

Lemma sameDescriptors_keyAt h h' r :
  sameDescriptors h h' → keyAt h r = keyAt h' r.
Proof. intros Hd. unfold keyAt. by rewrite (sameDescriptors_filterAt h h'). Qed.

Lemma sameDescriptors_acceptedAt h h' r :
  sameDescriptors h h' → acceptedAt h r = acceptedAt h' r.
Proof.
  intros Hd. unfold acceptedAt. specialize (Hd r).
  destruct (h !! r) as [o|], (h' !! r) as [o'|]; simpl in *; try done.
  apply (inj Some) in Hd. by rewrite (descriptor_tagName _ _ Hd).
Qed.

Lemma occurs_elem_of {V : Type} {Veq : EqDecision V} (l : list V) (x : V) :
  length (filter (λ y, y = x) l) ≠ 0%nat → x ∈ l.
Proof.
  intros Hlen. destruct (filter (λ y, y = x) l) as [|y found] eqn:Hfound; [done|].
  assert (y ∈ filter (λ y, y = x) l) as Hy by (rewrite Hfound; by left).
  apply list_elem_of_filter in Hy as [-> Hy]. done.
Qed.

(** A state never holds a rule on both sides. *)
Lemma partitioned_one_side h0 s r :
  partitioned h0 s →
  length (filter (λ x, x = r) (contentRules s)) = 0%nat ∨
  MultiMap.occurrences (keyAt (heap s) r) r (exceptionRulesMap s) = 0%nat.
Proof.
  intros (_ & _ & _ & Hreg & Hexc & _).
  destruct (decide (length (filter (λ x, x = r) (contentRules s)) = 0%nat))
    as [|Hcr]; [by left|right].
  destruct (decide (MultiMap.occurrences (keyAt (heap s) r) r
                      (exceptionRulesMap s) = 0%nat)) as [|Hidx]; [done|].
  apply occurs_elem_of in Hcr. apply occurs_elem_of in Hidx.
  specialize (Hreg r Hcr). unfold MultiMap.get in Hidx.
  destruct (MultiMap.map (exceptionRulesMap s) !! keyAt (heap s) r)
    as [values|] eqn:Hkey; simpl in Hidx; [|by apply elem_of_nil in Hidx].
  destruct (Hexc _ _ _ Hkey Hidx) as [Htrue _]. congruence.
Qed.

Lemma partitioned_addRule h0 s rule :
  partitioned h0 s → is_Some (h0 !! rule) →
  ∃ s', addRule rule s = Some s' ∧ partitioned h0 s' ∧
    ∀ r, copies s' r =
         if decide (rule = r)
         then (if acceptedAt h0 rule then S (copies s r) else copies s r)
         else copies s r.
Proof.
  intros (Hd & Hs & Hc & Hreg & Hexc & Happ) [o0 Ho0].
  destruct (sameDescriptors_lookup h0 (heap s) rule o0) as (o & Ho & Hdo); [done..|].
  assert (acceptedAt h0 rule = truthy (tagName o)) as ->.
  { unfold acceptedAt. by rewrite Ho0, (descriptor_tagName _ _ Hdo). }
  pose proof (addRule_spec rule s o Ho) as Hadd.
  destruct (truthy (tagName o)) eqn:Htag.
  - destruct (whiteListRule o) eqn:Hwl.
    + eexists. split; [exact Hadd|].
      pose proof (closed_addRule rule s _ Hs Hadd) as Hs'. split.
      * split_and!; try done; simpl.
        -- by apply MultiMap_counted_put.
        -- intros key values e Hkey He.
           destruct (MultiMap_put_elem_of _ _ _ _ _ _ Hkey He) as [[-> ->]|(values' & Hv & He')];
             [|by eapply Hexc].
           unfold isExceptionAt, keyAt, filterAt. rewrite Ho. simpl.
           by rewrite Hwl.
      * intros r. unfold copies. simpl. rewrite MultiMap_occurrences_put.
        destruct (decide (rule = r)) as [->|Hne].
        -- rewrite decide_True; [lia|]. split; [|done].
           unfold keyAt, filterAt. by rewrite Ho.
        -- rewrite decide_False; [lia|]. by intros [_ ?].
    + eexists. split; [exact Hadd|].
      pose proof (closed_addRule rule s _ Hs Hadd) as Hs'. split.
      * split_and!; try done; simpl.
        intros r. rewrite elem_of_app, list_elem_of_singleton.
        intros [Hr| ->]; [by apply Hreg|].
        unfold isExceptionAt. rewrite Ho. simpl. by rewrite Hwl.
      * intros r. unfold copies. simpl.
        rewrite filter_app, length_app, filter_cons, filter_nil.
        destruct (decide (rule = r)) as [->|Hne]; simpl; lia.
  - exists s. split; [done|]. split; [by split_and!|].
    intros r. by destruct (decide (rule = r)).
Qed.

Lemma partitioned_removeRule h0 s rule :
  partitioned h0 s → is_Some (h0 !! rule) →
  ∃ s', removeRule rule s = Some s' ∧ partitioned h0 s' ∧
    ∀ r, copies s' r =
         if decide (rule = r) then Nat.pred (copies s r) else copies s r.
Proof.
  intros Hp [o0 Ho0]. pose proof Hp as (Hd & Hs & Hc & Hreg & Hexc & Happ).
  destruct (sameDescriptors_lookup h0 (heap s) rule o0) as (o & Ho & Hdo); [done..|].
  destruct (removeRule_spec rule s o)
    as (s' & Hrun & Hcr & Hm & Hdirty & Hsame & Hheap & _); [by apply Hs|done|].
  exists s'. split; [done|]. split.
  - split_and!.
    + by eapply sameDescriptors_trans.
    + by eapply closed_removeRule.
    + rewrite Hm. by apply MultiMap_counted_remove.
    + intros r Hr. rewrite Hcr in Hr. apply collections_removeRule_elem_of in Hr.
      rewrite <-(sameDescriptors_isExceptionAt (heap s) (heap s')) by done.
      by apply Hreg.
    + intros key values e Hkey He. rewrite Hm in Hkey.
      destruct (MultiMap_remove_elem_of _ _ _ _ _ _ Hkey He) as (values' & Hv & He').
      rewrite <-(sameDescriptors_isExceptionAt (heap s) (heap s')) by done.
      rewrite <-(sameDescriptors_keyAt (heap s) (heap s')) by done.
      by eapply Hexc.
    + intros Hfalse. congruence.
  - intros r. unfold copies.
    rewrite Hcr, Hm, <-(sameDescriptors_keyAt (heap s) (heap s')) by done.
    rewrite collections_removeRule_count, MultiMap_occurrences_remove.
    destruct (decide (rule = r)) as [->|Hne].
    + rewrite decide_True.
      * destruct (partitioned_one_side h0 s r Hp) as [Hz|Hz]; rewrite Hz; simpl; lia.
      * split; [|done]. unfold keyAt, filterAt. by rewrite Ho.
    + rewrite decide_False; [done|]. by intros [_ ?].
Qed.

Lemma partitioned_rebuild h0 s s' :
  partitioned h0 s → rebuild s = Some s' →
  partitioned h0 s' ∧ ∀ r, copies s' r = copies s r.
Proof.
  intros (Hd & Hs & Hc & Hreg & Hexc & Happ) Hrun.
  destruct (rebuild_spec s Hs) as (s1 & Hrun1 & Hcr & Hm & Hdirty & Hsame & _).
  assert (s1 = s') as -> by congruence.
  split.
  - split_and!.
    + by eapply sameDescriptors_trans.
    + by eapply closed_rebuild.
    + by rewrite Hm.
    + intros r Hr. rewrite Hcr in Hr.
      rewrite <-(sameDescriptors_isExceptionAt (heap s) (heap s')) by done.
      by apply Hreg.
    + intros key values e Hkey He. rewrite Hm in Hkey.
      rewrite <-(sameDescriptors_isExceptionAt (heap s) (heap s')) by done.
      rewrite <-(sameDescriptors_keyAt (heap s) (heap s')) by done.
      by eapply Hexc.
    + intros _. destruct (dirty s) eqn:Hstale.
      * by apply (rebuild_exceptionsApplied s s').
      * unfold rebuild in Hrun. rewrite Hstale in Hrun. simpl in Hrun.
        injection Hrun as <-. by apply Happ.
  - intros r. unfold copies.
    by rewrite Hcr, Hm, <-(sameDescriptors_keyAt (heap s) (heap s')).
Qed.

Section histories.
Context {Doc Element : Type}.
Variable isPermitted : Rule → string → bool.
Variable ruleMatchedElements : Rule → Doc → option (list Element).
Variable h0 : gmap RuleRef Rule.

Lemma step_partitioned (op : Op Doc) s :
  partitioned h0 s → definedOp h0 op = true →
  ∃ s', step isPermitted ruleMatchedElements op s = Some s' ∧
    partitioned h0 s' ∧
    ∀ r, copies s' r = heldStep h0 r op (copies s r).
Proof.
  intros Hp Hop. destruct op as [rule|rule|domainName|doc domainName]; simpl in *.
  - apply bool_decide_eq_true in Hop. by apply partitioned_addRule.
  - apply bool_decide_eq_true in Hop. by apply partitioned_removeRule.
  - destruct (getRulesForDomain_spec isPermitted domainName s) as (s' & Hrun & ->);
      [by apply Hp|].
    exists s'. split; [done|]. by apply (partitioned_rebuild h0 s s').
  - destruct (getMatchedElements_spec isPermitted ruleMatchedElements doc domainName s)
      as (s' & Hrun & ->); [by apply Hp|].
    exists s'. split; [done|]. by apply (partitioned_rebuild h0 s s').
Qed.

Lemma run_partitioned (ops : list (Op Doc)) : ∀ s,
  partitioned h0 s → forallb (definedOp h0) ops = true →
  ∃ s', run isPermitted ruleMatchedElements ops s = Some s' ∧
    partitioned h0 s' ∧
    ∀ r, copies s' r = held h0 r ops (copies s r).
Proof.
  induction ops as [|op ops IH]; intros s Hp Hops; simpl in *.
  - by exists s.
  - apply andb_prop in Hops as [Hop Hops].
    destruct (step_partitioned op s Hp Hop) as (s1 & Hstep & Hp1 & Hcopies1).
    destruct (IH s1 Hp1 Hops) as (s' & Hrun & Hp' & Hcopies).
    exists s'. rewrite Hstep. simpl. split_and!; [done..|].
    intros r. by rewrite Hcopies, Hcopies1.
Qed.

Lemma new_as_run (rules : list RuleRef) s :
  forEach addRule rules s =
  run isPermitted ruleMatchedElements (OpAddRule <$> rules) s.
Proof.
  revert s. induction rules as [|rule rules IH]; intros s; simpl; [done|].
  destruct (addRule rule s); simpl; [apply IH|done].
Qed.

Lemma run_app (ops1 ops2 : list (Op Doc)) s :
  run isPermitted ruleMatchedElements (ops1 ++ ops2) s =
  run isPermitted ruleMatchedElements ops1 s
    ≫= run isPermitted ruleMatchedElements ops2.
Proof.
  revert s. induction ops1 as [|op ops1 IH]; intros s; simpl; [done|].
  destruct (step _ _ op s); simpl; [apply IH|done].
Qed.
(** The constructor followed by a history. *)
Lemma new_run_partitioned (rules : option (list RuleRef)) (ops : list (Op Doc)) :
  let history := (OpAddRule <$> default [] rules) ++ ops in
  forallb (definedOp h0) history = true →
  ∃ s,
    new h0 rules ≫= run isPermitted ruleMatchedElements ops = Some s ∧
    partitioned h0 s ∧
    ∀ r, copies s r = held h0 r history 0%nat.
Proof.
  intros history Hdefined.
  set (s0 := mkState h0 [] MultiMap.new false []).
  assert (partitioned h0 s0) as Hp0.
  { split_and!.
    - apply sameDescriptors_refl.
    - split; [by intros r Hr; apply elem_of_nil in Hr|].
      intros key values e Hkey. simpl in Hkey. by rewrite lookup_empty in Hkey.
    - apply MultiMap_counted_new.
    - by intros r Hr; apply elem_of_nil in Hr.
    - intros key values e Hkey. simpl in Hkey. by rewrite lookup_empty in Hkey.
    - by intros _ r ro e eo Hr; apply elem_of_nil in Hr. }
  destruct (run_partitioned history s0 Hp0 Hdefined) as (s & Hrun & Hp & Hcopies).
  exists s. split_and!; [|done..].
  unfold new. fold s0. by rewrite new_as_run, <-run_app.
Qed.

(** Invariant I2 of the specification, on sets: in a state reached from
    the constructor whose stale flag is false, every rule of
    [contentRules] is restricted on the permitted domains of every
    exception rule filed under its key. *)
Lemma reached_exceptionsApplied (rules : option (list RuleRef)) (ops : list (Op Doc)) :
  forallb (definedOp h0) ((OpAddRule <$> default [] rules) ++ ops) = true →
  ∃ s,
    new h0 rules ≫= run isPermitted ruleMatchedElements ops = Some s ∧
    (dirty s = false → exceptionsApplied s).
Proof.
  intros Hdefined.
  destruct (new_run_partitioned rules ops Hdefined)
    as (s & Hrun & (_ & _ & _ & _ & _ & Happlied) & _).
  by exists s.
Qed.
End histories.

(** ** What the query of a stale filter does *)

Lemma merge_unchanged_iff (ro : Rule) (excepted : gset string) :
  setRestrictedDomains ro (restrictedDomains ro ∪ excepted) = ro ↔
  excepted ⊆ restrictedDomains ro.
Proof.
  split.
  - intros Heq. apply (f_equal restrictedDomains) in Heq.
    destruct ro; simpl in *. rewrite <-Heq. apply union_subseteq_r.
  - intros Hsub. rewrite (comm_L (∪)), (subseteq_union_1_L _ _ Hsub).
    apply setRestrictedDomains_id.
Qed.

Lemma stale_query_merges (isPermitted : Rule → string → bool) domainName s :
  closed s → MultiMap.counted (exceptionRulesMap s) → dirty s = true →
  ∃ s' rules,
    getRulesForDomain isPermitted domainName s = Some (s', rules) ∧
    rebuild s = Some s' ∧
    dirty s' = false ∧
    calls s' = calls s ++
      concat (applications (heap s) (exceptionRulesMap s) <$> contentRules s) ∧
    ∀ r ro, r ∈ contentRules s → heap s !! r = Some ro →
      heap s' !! r =
        Some (setRestrictedDomains ro
                (restrictedDomains ro ∪
                 exceptedDomains (heap s) (exceptionRulesMap s) (elementsFilter ro))) ∧
      (heap s' !! r = Some ro ↔
       exceptedDomains (heap s) (exceptionRulesMap s) (elementsFilter ro) ⊆
         restrictedDomains ro).
Proof.
  intros Hs Hc Hdirty.
  destruct (getRulesForDomain_spec isPermitted domainName s Hs) as (s' & Hrun & Hget).
  destruct (rebuild_merges s Hs Hc Hdirty)
    as (s3 & Hrun3 & _ & _ & Hd & _ & Hheap & Hcalls).
  assert (s3 = s') as -> by congruence.
  eexists s', _. split_and!; [exact Hget|done|done|done|].
  intros r ro Hr Hro. split; [by apply Hheap|].
  rewrite (Hheap r ro Hr Hro), <-merge_unchanged_iff.
  split; [by intros [= ->]|by intros ->].
Qed.

(** * The claims *)

(** ** C1 — removing an exception rule

    Amended claim: for every exception rule E and every regular rule R of
    [contentRules] with the matching key of E, [removeRule(E)] subtracts
    the permitted-domain set of E from the restricted-domain set of R, at
    removal time and whatever the stale flag.  Hence [addRule(E)]
    followed by [removeRule(E)] leaves R with the restricted-domain set
    it had before minus the permitted domains of E: this is the set it
    had before exactly when that set shared no domain with the
    permitted-domain set of E. *)
Theorem removeRule_reverses e r s eo ro :
  closed s →
  heap s !! e = Some eo → whiteListRule eo = true →
  heap s !! r = Some ro → whiteListRule ro = false →
  r ∈ contentRules s →
  elementsFilter ro = elementsFilter eo →
  let reversed :=
    setRestrictedDomains ro (restrictedDomains ro ∖ permittedDomains eo) in
  (∃ s', removeRule e s = Some s' ∧ heap s' !! r = Some reversed) ∧
  (∃ s1 s2, addRule e s = Some s1 ∧ removeRule e s1 = Some s2 ∧
     heap s2 !! r = Some reversed) ∧
  (reversed = ro ↔ restrictedDomains ro ## permittedDomains eo).
Proof.
  intros Hs He Hwl Hr Hreg Hin Hkey reversed.
  assert (r ≠ e) as Hne by (intros ->; congruence).
  assert (∀ s0, closed s0 → heap s0 = heap s → contentRules s0 = contentRules s →
            ∃ s', removeRule e s0 = Some s' ∧ heap s' !! r = Some reversed)
    as Hremove.
  { intros s0 Hs0 Hheap0 Hcr0.
    destruct (removeRule_spec e s0 eo) as (s' & Hrun & _ & _ & _ & _ & Hheap & _);
      [by apply Hs0|by rewrite Hheap0|].
    exists s'. split; [done|].
    rewrite Hheap, Hheap0, Hr, Hcr0. simpl. f_equal. unfold rolledBack.
    rewrite Hwl, (bool_decide_eq_true_2 (elementsFilter ro = elementsFilter eo)) by done.
    rewrite bool_decide_eq_true_2; [done|]. by apply collections_removeRule_other. }
  split_and!.
  - by apply Hremove.
  - pose proof (addRule_spec e s eo He) as Hadd.
    destruct (addRule e s) as [s1|] eqn:Hs1; [|done].
    assert (closed s1) as Hclosed1 by by eapply closed_addRule.
    destruct (Hremove s1 Hclosed1) as (s2 & Hrun2 & Hheap2).
    + injection Hadd as ->. rewrite Hwl. by destruct (truthy (tagName eo)).
    + injection Hadd as ->. rewrite Hwl. by destruct (truthy (tagName eo)).
    + by exists s1, s2.
  - unfold reversed. split.
    + intros Heq. apply (f_equal restrictedDomains) in Heq. simpl in Heq.
      apply elem_of_disjoint. intros d Hd Hpermitted.
      rewrite <-Heq in Hd. apply elem_of_difference in Hd. tauto.
    + intros Hdisj.
      replace (restrictedDomains ro ∖ permittedDomains eo) with (restrictedDomains ro).
      * apply setRestrictedDomains_id.
      * apply set_eq. intros d. rewrite elem_of_difference.
        split; [|tauto]. intros Hd. split; [done|].
        intros Hpermitted. by apply (proj1 (elem_of_disjoint _ _) Hdisj d).
Qed.

Lemma removeRule_reverses_witness :
  closed sampleStale ∧
  heap sampleStale !! 2%nat = Some sampleException ∧
  heap sampleStale !! 1%nat = Some sampleRegular ∧
  1%nat ∈ contentRules sampleStale ∧
  let reversed :=
    setRestrictedDomains sampleRegular
      (restrictedDomains sampleRegular ∖ permittedDomains sampleException) in
  (∃ s', removeRule 2%nat sampleStale = Some s' ∧ heap s' !! 1%nat = Some reversed) ∧
  (∃ s1 s2, addRule 2%nat sampleStale = Some s1 ∧ removeRule 2%nat s1 = Some s2 ∧
     heap s2 !! 1%nat = Some reversed) ∧
  (reversed = sampleRegular ↔
   restrictedDomains sampleRegular ## permittedDomains sampleException).
Proof.
  assert (closed sampleStale) as Hs by by_evaluation (closed sampleStale).
  assert (heap sampleStale !! 2%nat = Some sampleException) as He
    by (vm_compute; reflexivity).
  assert (heap sampleStale !! 1%nat = Some sampleRegular) as Hr
    by (vm_compute; reflexivity).
  assert (1%nat ∈ contentRules sampleStale) as Hin
    by by_evaluation (1%nat ∈ contentRules sampleStale).
  split_and!; [exact Hs|exact He|exact Hr|exact Hin|].
  exact (removeRule_reverses 2%nat 1%nat sampleStale sampleException sampleRegular
           Hs He eq_refl Hr eq_refl Hin eq_refl).
Defined.

(** The claim as the specification words it fails when the regular rule
    was already restricted on a domain that the exception rule permits:
    the first sample rule is restricted on a.com before the exception
    rule is added and on no domain after it is removed. *)
Lemma addRule_removeRule_loses_restriction :
  1%nat ∈ contentRules sampleClean ∧
  elementsFilter sampleRegular = elementsFilter sampleException ∧
  ∃ s1 s2,
    addRule 2%nat sampleClean = Some s1 ∧ removeRule 2%nat s1 = Some s2 ∧
    restrictedAt (heap sampleClean) 1%nat = {[ "a.com"%string ]} ∧
    restrictedAt (heap s2) 1%nat = ∅ ∧
    restrictedAt (heap s2) 1%nat ≠ restrictedAt (heap sampleClean) 1%nat.
Proof.
  split; [by_evaluation (1%nat ∈ contentRules sampleClean)|].
  split; [reflexivity|].
  eexists _, _. split; [vm_compute; reflexivity|].
  split; [vm_compute; reflexivity|].
  split_and!; [vm_compute; reflexivity..|vm_compute; discriminate].
Qed.

(** ** C2 — [getRulesForDomain] filters [contentRules] in order

    For every state without dangling reference and every domain,
    [getRulesForDomain] returns; its answer is the sequence of the
    references of [contentRules], in their order, whose rule object
    permits the domain once [rebuild] has run, or [null] when there is
    none; it is never an empty array. *)
Theorem getRulesForDomain_applicable
    (isPermitted : Rule → string → bool) domainName s :
  closed s →
  ∃ s' result,
    getRulesForDomain isPermitted domainName s = Some (s', result) ∧
    rebuild s = Some s' ∧
    let applicable :=
      filter (λ r, permits isPermitted (heap s') domainName r) (contentRules s) in
    (applicable = [] → result = None) ∧
    (applicable ≠ [] → result = Some applicable) ∧
    result ≠ Some [].
Proof.
  intros Hs.
  destruct (getRulesForDomain_spec isPermitted domainName s Hs) as (s' & Hrun & Hget).
  eexists s', _. split; [exact Hget|]. split; [done|]. simpl.
  destruct (filter _ (contentRules s)) as [|r found]; by split_and!.
Qed.

Lemma getRulesForDomain_applicable_witness :
  closed sampleStale ∧
  ∃ s' result,
    getRulesForDomain unlessRestricted "b.com" sampleStale = Some (s', result) ∧
    rebuild sampleStale = Some s' ∧
    let applicable :=
      filter (λ r, permits unlessRestricted (heap s') "b.com" r)
        (contentRules sampleStale) in
    (applicable = [] → result = None) ∧
    (applicable ≠ [] → result = Some applicable) ∧
    result ≠ Some [].
Proof.
  assert (closed sampleStale) as Hs by by_evaluation (closed sampleStale).
  split; [exact Hs|].
  exact (getRulesForDomain_applicable unlessRestricted "b.com" sampleStale Hs).
Defined.

(** Three regular rules added in the order 1, 3, 5, all permitted on the
    domain and no exception rule: the answer lists them in that order. *)
Example getRulesForDomain_insertion_order :
  let h : gmap RuleRef Rule :=
    {[ 1%nat := sampleOther; 3%nat := sampleOther; 5%nat := sampleOther ]} in
  (s ← new h (Some [1%nat; 3%nat; 5%nat]);
   snd <$> getRulesForDomain unlessRestricted "x.com" s) =
  Some (Some [1%nat; 3%nat; 5%nat]).
Proof. vm_compute. reflexivity. Qed.

(** A freshly made empty filter answers [null]. *)
Example getRulesForDomain_empty domainName :
  (s ← new sampleHeap None; snd <$> getRulesForDomain unlessRestricted domainName s) =
  Some None.
Proof. reflexivity. Qed.

(** ** C3 — the first query after a change applies the exception rules

    Amended claim: on a stale state, the first query, whichever of the
    two, runs one pass of [rebuild]; the pass merges, into the
    restricted-domain set of every rule of [contentRules], the
    permitted-domain set of every exception rule filed under its matching
    key, and clears the stale flag.  The pass calls
    [addRestrictedDomains] once for each position of [contentRules] and
    each exception rule filed under the key of the rule at that position.
    A later pass, after another accepted addition or a removal, makes
    these calls again for all the pairs then present, whether an earlier
    pass made them or not.  A pass, the first or a later one, leaves a
    rule of [contentRules] as it was exactly when its restricted-domain
    set already held the permitted domains of the exception rules filed
    under its key.  Further queries without addition or removal in
    between make no call and leave the whole state unchanged. *)
Theorem first_query_applies_exceptions {Doc Element : Type}
    (isPermitted : Rule → string → bool)
    (ruleMatchedElements : Rule → Doc → option (list Element))
    doc domainName s :
  closed s → MultiMap.counted (exceptionRulesMap s) → dirty s = true →
  ∃ s' rules elements,
    getRulesForDomain isPermitted domainName s = Some (s', rules) ∧
    getMatchedElements isPermitted ruleMatchedElements doc domainName s =
      Some (s', elements) ∧
    dirty s' = false ∧
    (∀ r ro, r ∈ contentRules s → heap s !! r = Some ro →
       heap s' !! r =
       Some (setRestrictedDomains ro
               (restrictedDomains ro ∪
                exceptedDomains (heap s) (exceptionRulesMap s) (elementsFilter ro)))) ∧
    exceptionsApplied s' ∧
    calls s' = calls s ++
      concat (applications (heap s) (exceptionRulesMap s) <$> contentRules s) ∧
    (∀ doc' domainName',
       fst <$> getRulesForDomain isPermitted domainName' s' = Some s' ∧
       fst <$> getMatchedElements isPermitted ruleMatchedElements doc' domainName' s' =
         Some s') ∧
    (∀ r ro, r ∈ contentRules s → heap s !! r = Some ro →
       (heap s' !! r = Some ro ↔
        exceptedDomains (heap s) (exceptionRulesMap s) (elementsFilter ro) ⊆
          restrictedDomains ro)) ∧
    (∀ a ao s1 domainName',
       heap s' !! a = Some ao →
       addRule a s' = Some s1 ∨ removeRule a s' = Some s1 →
       dirty s1 = true →
       ∃ s2 rules2,
         getRulesForDomain isPermitted domainName' s1 = Some (s2, rules2) ∧
         dirty s2 = false ∧
         calls s2 = calls s1 ++
           concat (applications (heap s1) (exceptionRulesMap s1) <$> contentRules s1) ∧
         ∀ r ro, r ∈ contentRules s1 → heap s1 !! r = Some ro →
           heap s2 !! r =
             Some (setRestrictedDomains ro
                     (restrictedDomains ro ∪
                      exceptedDomains (heap s1) (exceptionRulesMap s1)
                        (elementsFilter ro))) ∧
           (heap s2 !! r = Some ro ↔
            exceptedDomains (heap s1) (exceptionRulesMap s1) (elementsFilter ro) ⊆
              restrictedDomains ro)).
Proof.
  intros Hs Hc Hdirty.
  destruct (stale_query_merges isPermitted domainName s Hs Hc Hdirty)
    as (s' & rules & Hget & Hrun & Hd & Hcalls & Hheap).
  destruct (getMatchedElements_spec isPermitted ruleMatchedElements doc domainName s Hs)
    as (s2 & Hrun2 & Hget2).
  assert (s2 = s') as -> by congruence.
  destruct (rebuild_merges s Hs Hc Hdirty) as (s3 & Hrun3 & _ & Hm & _).
  assert (s3 = s') as -> by congruence.
  pose proof (closed_rebuild s s' Hs Hrun) as Hs'.
  assert (MultiMap.counted (exceptionRulesMap s')) as Hc' by by rewrite Hm.
  assert (rebuild s' = Some s') as Hagain.
  { unfold rebuild. by rewrite Hd. }
  eexists s', _, _.
  split_and!; [exact Hget|exact Hget2|done| | |done| | |].
  - intros r ro Hr Hro. exact (proj1 (Hheap r ro Hr Hro)).
  - by apply (rebuild_exceptionsApplied s s').
  - intros doc' domainName'.
    destruct (getRulesForDomain_spec isPermitted domainName' s' Hs') as (s4 & Hrun4 & ->).
    destruct (getMatchedElements_spec isPermitted ruleMatchedElements doc' domainName'
                s' Hs') as (s5 & Hrun5 & ->).
    simpl. split; congruence.
  - intros r ro Hr Hro. exact (proj2 (Hheap r ro Hr Hro)).
  - intros a ao s1 domainName' Ha Hstep Hdirty1.
    assert (closed s1 ∧ MultiMap.counted (exceptionRulesMap s1)) as [Hs1 Hc1].
    { destruct Hstep as [Hadd|Hrem].
      - split; [by eapply closed_addRule|].
        rewrite (addRule_spec a s' ao Ha) in Hadd. injection Hadd as <-.
        destruct (truthy (tagName ao)); [|done].
        destruct (whiteListRule ao); simpl; [|done].
        by apply MultiMap_counted_put.
      - split; [by eapply closed_removeRule|].
        destruct (removeRule_spec a s' ao) as (s1' & Hrem' & _ & Hm1 & _);
          [by apply Hs'|done|].
        assert (s1' = s1) as -> by congruence.
        rewrite Hm1. by apply MultiMap_counted_remove. }
    destruct (stale_query_merges isPermitted domainName' s1 Hs1 Hc1 Hdirty1)
      as (s2 & rules2 & Hget1 & _ & Hd2 & Hcalls2 & Hheap2).
    by exists s2, rules2.
Qed.

Lemma first_query_applies_exceptions_witness :
  closed sampleStale ∧ MultiMap.counted (exceptionRulesMap sampleStale) ∧
  dirty sampleStale = true ∧
  ∃ s' rules elements,
    getRulesForDomain unlessRestricted "a.com" sampleStale = Some (s', rules) ∧
    getMatchedElements unlessRestricted positionsOfTag ["div"]%string "a.com"
      sampleStale = Some (s', elements) ∧
    dirty s' = false ∧
    (∀ r ro, r ∈ contentRules sampleStale → heap sampleStale !! r = Some ro →
       heap s' !! r =
       Some (setRestrictedDomains ro
               (restrictedDomains ro ∪
                exceptedDomains (heap sampleStale) (exceptionRulesMap sampleStale)
                  (elementsFilter ro)))) ∧
    exceptionsApplied s' ∧
    calls s' = calls sampleStale ++
      concat (applications (heap sampleStale) (exceptionRulesMap sampleStale) <$>
              contentRules sampleStale) ∧
    (∀ doc' domainName',
       fst <$> getRulesForDomain unlessRestricted domainName' s' = Some s' ∧
       fst <$> getMatchedElements unlessRestricted positionsOfTag doc' domainName' s' =
         Some s') ∧
    (∀ r ro, r ∈ contentRules sampleStale → heap sampleStale !! r = Some ro →
       (heap s' !! r = Some ro ↔
        exceptedDomains (heap sampleStale) (exceptionRulesMap sampleStale)
          (elementsFilter ro) ⊆ restrictedDomains ro)) ∧
    (∀ a ao s1 domainName',
       heap s' !! a = Some ao →
       addRule a s' = Some s1 ∨ removeRule a s' = Some s1 →
       dirty s1 = true →
       ∃ s2 rules2,
         getRulesForDomain unlessRestricted domainName' s1 = Some (s2, rules2) ∧
         dirty s2 = false ∧
         calls s2 = calls s1 ++
           concat (applications (heap s1) (exceptionRulesMap s1) <$> contentRules s1) ∧
         ∀ r ro, r ∈ contentRules s1 → heap s1 !! r = Some ro →
           heap s2 !! r =
             Some (setRestrictedDomains ro
                     (restrictedDomains ro ∪
                      exceptedDomains (heap s1) (exceptionRulesMap s1)
                        (elementsFilter ro))) ∧
           (heap s2 !! r = Some ro ↔
            exceptedDomains (heap s1) (exceptionRulesMap s1) (elementsFilter ro) ⊆
              restrictedDomains ro)).
Proof.
  assert (closed sampleStale) as Hs by by_evaluation (closed sampleStale).
  assert (MultiMap.counted (exceptionRulesMap sampleStale)) as Hc
    by by_evaluation (MultiMap.counted (exceptionRulesMap sampleStale)).
  split_and!; [exact Hs|exact Hc|reflexivity|].
  exact (first_query_applies_exceptions unlessRestricted positionsOfTag
           ["div"]%string "a.com" sampleStale Hs Hc eq_refl).
Defined.

(** A later pass that changes a rule: the filter is made with a regular
    rule and two exception rules of its key, of which the first permits
    a.com and the second a.com and b.com.  The first query restricts the
    regular rule on both domains; removing the first exception rule takes
    a.com out; the next query applies the second exception rule again
    and puts a.com back. *)
Example later_pass_restores_domain :
  let regular := mkRule (Some "div"%string) (Some "div[ad]"%string) false ∅ ∅ in
  let first :=
    mkRule (Some "div"%string) (Some "div[ad]"%string) true {[ "a.com"%string ]} ∅ in
  let second :=
    mkRule (Some "div"%string) (Some "div[ad]"%string) true
      {[ "a.com"%string; "b.com"%string ]} ∅ in
  let h : gmap RuleRef Rule :=
    {[ 1%nat := regular; 2%nat := first; 3%nat := second ]} in
  ∃ s1 s2 s3,
    (s0 ← new h (Some [1%nat; 2%nat; 3%nat]);
     fst <$> getRulesForDomain unlessRestricted "a.com" s0) = Some s1 ∧
    removeRule 2%nat s1 = Some s2 ∧
    fst <$> getRulesForDomain unlessRestricted "a.com" s2 = Some s3 ∧
    restrictedAt (heap s1) 1%nat = {[ "a.com"%string; "b.com"%string ]} ∧
    restrictedAt (heap s2) 1%nat = {[ "b.com"%string ]} ∧
    restrictedAt (heap s3) 1%nat = {[ "a.com"%string; "b.com"%string ]} ∧
    calls s3 =
      [Applied 1%nat 2%nat; Applied 1%nat 3%nat; RolledBack 1%nat 2%nat;
       Applied 1%nat 3%nat].
Proof.
  eexists _, _, _.
  split_and!; [vm_compute; reflexivity..].
Qed.

(** The specification example for the lazy pass: two regular rules with
    one key, then an exception rule with that key permitting ex.com; the
    next query no longer lists the rules on ex.com and still lists them
    elsewhere. *)
Example lazy_rebuild_sample :
  let regular := mkRule (Some "script"%string) (Some "script"%string) false ∅ ∅ in
  let exception :=
    mkRule (Some "script"%string) (Some "script"%string) true {[ "ex.com"%string ]} ∅ in
  let h : gmap RuleRef Rule :=
    {[ 1%nat := regular; 2%nat := regular; 3%nat := exception ]} in
  (s ← new h (Some [1%nat; 2%nat]); s ← addRule 3%nat s;
   snd <$> getRulesForDomain unlessRestricted "ex.com" s) = Some None ∧
  (s ← new h (Some [1%nat; 2%nat]); s ← addRule 3%nat s;
   snd <$> getRulesForDomain unlessRestricted "other.com" s) =
  Some (Some [1%nat; 2%nat]).
Proof. vm_compute. done. Qed.

(** The claim as the specification words it counts one application for
    each pair of a regular rule and an exception rule once the stale flag
    is false.  First history: the filter is made with the first regular
    rule and the exception rule, queried, given the second regular rule
    and queried again; the stale flag is false and the exception rule has
    been applied to the first regular rule twice, once by each pass.
    Second history: the filter is made with the first regular rule twice
    and the exception rule, and queried once; the one pass has applied
    the exception rule to the regular rule twice. *)
Lemma exception_applied_more_than_once :
  (∃ s,
     (s0 ← new sampleHeap (Some [1%nat; 2%nat]);
      s1 ← fst <$> getRulesForDomain unlessRestricted "a.com" s0;
      s2 ← addRule 3%nat s1;
      fst <$> getRulesForDomain unlessRestricted "a.com" s2) = Some s ∧
     dirty s = false ∧
     contentRules s = [1%nat; 3%nat] ∧
     MultiMap.get "div[ad]" (exceptionRulesMap s) = Some [2%nat] ∧
     calls s = [Applied 1%nat 2%nat; Applied 1%nat 2%nat] ∧
     length (filter (λ c, c = Applied 1%nat 2%nat) (calls s)) ≠ 1%nat) ∧
  (∃ s,
     (s0 ← new sampleHeap (Some [1%nat; 1%nat; 2%nat]);
      fst <$> getRulesForDomain unlessRestricted "a.com" s0) = Some s ∧
     dirty s = false ∧
     contentRules s = [1%nat; 1%nat] ∧
     MultiMap.get "div[ad]" (exceptionRulesMap s) = Some [2%nat] ∧
     calls s = [Applied 1%nat 2%nat; Applied 1%nat 2%nat] ∧
     length (filter (λ c, c = Applied 1%nat 2%nat) (calls s)) ≠ 1%nat).
Proof.
  split.
  - eexists. split; [vm_compute; reflexivity|].
    split_and!; [vm_compute; reflexivity..|vm_compute; discriminate].
  - eexists. split; [vm_compute; reflexivity|].
    split_and!; [vm_compute; reflexivity..|vm_compute; discriminate].
Qed.

(** ** C4 — removing a rule that the filter does not hold

    Amended claim: for every rule that is neither in [contentRules] nor
    in the exception index under its matching key, [removeRule] leaves
    [contentRules] and the exception index unchanged and sets the stale
    flag.  When the rule is not an exception rule, no rule object
    changes.  When it is an exception rule, the reversal still runs: its
    permitted-domain set is subtracted from the restricted-domain set of
    every rule of [contentRules] with its matching key, and no other rule
    object changes. *)
Theorem removeRule_not_held rule s o :
  closed s → MultiMap.counted (exceptionRulesMap s) →
  heap s !! rule = Some o →
  rule ∉ contentRules s →
  rule ∉ default [] (MultiMap.get (keyOf (elementsFilter o)) (exceptionRulesMap s)) →
  ∃ s', removeRule rule s = Some s' ∧
    contentRules s' = contentRules s ∧
    exceptionRulesMap s' = exceptionRulesMap s ∧
    dirty s' = true ∧
    (whiteListRule o = false → heap s' = heap s) ∧
    (whiteListRule o = true →
     ∀ r ro, heap s !! r = Some ro →
       heap s' !! r =
       Some (if bool_decide (r ∈ contentRules s) &&
                bool_decide (elementsFilter ro = elementsFilter o)
             then setRestrictedDomains ro
                    (restrictedDomains ro ∖ permittedDomains o)
             else ro)).
Proof.
  intros Hs Hcounted Ho Hcr Hidx.
  destruct (removeRule_spec rule s o) as (s' & Hrun & Hcr' & Hm' & Hd' & _ & Hheap & _);
    [by apply Hs|done|].
  rewrite collections_removeRule_absent in Hcr', Hheap by done.
  rewrite MultiMap_remove_absent in Hm' by done.
  exists s'. split_and!; try done.
  - intros Hwl. apply map_eq. intros r. rewrite Hheap. unfold rolledBack.
    rewrite Hwl. simpl. by destruct (heap s !! r).
  - intros Hwl r ro Hr. rewrite Hheap, Hr. unfold rolledBack.
    by rewrite Hwl.
Qed.

Lemma removeRule_not_held_witness :
  closed sampleClean ∧ MultiMap.counted (exceptionRulesMap sampleClean) ∧
  heap sampleClean !! 3%nat = Some sampleOther ∧
  (3%nat ∉ contentRules sampleClean) ∧
  (3%nat ∉ default [] (MultiMap.get (keyOf (elementsFilter sampleOther))
                         (exceptionRulesMap sampleClean))) ∧
  ∃ s', removeRule 3%nat sampleClean = Some s' ∧
    contentRules s' = contentRules sampleClean ∧
    exceptionRulesMap s' = exceptionRulesMap sampleClean ∧
    dirty s' = true ∧
    heap s' = heap sampleClean.
Proof.
  assert (closed sampleClean) as Hs by by_evaluation (closed sampleClean).
  assert (MultiMap.counted (exceptionRulesMap sampleClean)) as Hc
    by by_evaluation (MultiMap.counted (exceptionRulesMap sampleClean)).
  assert (heap sampleClean !! 3%nat = Some sampleOther) as Ho
    by (vm_compute; reflexivity).
  assert (3%nat ∉ contentRules sampleClean) as Hcr
    by by_evaluation (3%nat ∉ contentRules sampleClean).
  assert (3%nat ∉ default [] (MultiMap.get (keyOf (elementsFilter sampleOther))
                                (exceptionRulesMap sampleClean))) as Hidx
    by by_evaluation
         (3%nat ∉ default [] (MultiMap.get (keyOf (elementsFilter sampleOther))
                                (exceptionRulesMap sampleClean))).
  split_and!; [exact Hs|exact Hc|exact Ho|exact Hcr|exact Hidx|].
  destruct (removeRule_not_held 3%nat sampleClean sampleOther Hs Hc Ho Hcr Hidx)
    as (s' & Hrun & Hcr' & Hm' & Hd' & Hregular & _).
  exists s'. split_and!; [exact Hrun|exact Hcr'|exact Hm'|exact Hd'|].
  exact (Hregular eq_refl).
Defined.

(** The claim as the specification words it fails for an exception rule:
    the sample exception rule was never added to the sample filter, and
    removing it takes a.com out of the restricted-domain set of the
    regular rule that shares its key. *)
Lemma removeRule_of_absent_exception_changes_rule :
  (2%nat ∉ contentRules sampleClean) ∧
  MultiMap.map (exceptionRulesMap sampleClean) = ∅ ∧
  ∃ s', removeRule 2%nat sampleClean = Some s' ∧
    restrictedAt (heap sampleClean) 1%nat = {[ "a.com"%string ]} ∧
    restrictedAt (heap s') 1%nat = ∅ ∧
    heap s' ≠ heap sampleClean.
Proof.
  split; [by_evaluation (2%nat ∉ contentRules sampleClean)|].
  split; [reflexivity|].
  eexists. split; [vm_compute; reflexivity|].
  split_and!; [vm_compute; reflexivity..|].
  intros Heq. apply (f_equal (λ h, restrictedAt h 1%nat)) in Heq.
  vm_compute in Heq. discriminate.
Qed.

(** ** C5 — which rules [addRule] takes

    Amended claim: [addRule] tests the tag name of the rule, not its
    matching key.  A rule whose [tagName] is absent or empty is ignored:
    the state, stale flag included, is unchanged.  Every other rule is
    accepted, whatever its matching key: an exception rule is filed in
    the index under its key, any other rule is appended to
    [contentRules], and the stale flag is set. *)
Theorem addRule_by_tagName rule s o :
  heap s !! rule = Some o →
  (truthy (tagName o) = false → addRule rule s = Some s) ∧
  (truthy (tagName o) = true →
   ∃ s', addRule rule s = Some s' ∧ dirty s' = true ∧
     heap s' = heap s ∧ calls s' = calls s ∧
     if whiteListRule o
     then contentRules s' = contentRules s ∧
          exceptionRulesMap s' =
            MultiMap.put (keyOf (elementsFilter o)) rule (exceptionRulesMap s)
     else contentRules s' = contentRules s ++ [rule] ∧
          exceptionRulesMap s' = exceptionRulesMap s).
Proof.
  intros Ho. rewrite (addRule_spec rule s o Ho). split; intros ->; [done|].
  eexists. split; [done|]. by destruct (whiteListRule o).
Qed.

Lemma addRule_by_tagName_witness :
  heap sampleClean !! 2%nat = Some sampleException ∧
  truthy (tagName sampleException) = true ∧
  ∃ s', addRule 2%nat sampleClean = Some s' ∧ dirty s' = true ∧
    heap s' = heap sampleClean ∧ calls s' = calls sampleClean ∧
    contentRules s' = contentRules sampleClean ∧
    exceptionRulesMap s' =
      MultiMap.put (keyOf (elementsFilter sampleException)) 2%nat
        (exceptionRulesMap sampleClean).
Proof.
  assert (heap sampleClean !! 2%nat = Some sampleException) as Ho
    by (vm_compute; reflexivity).
  split; [exact Ho|]. split; [reflexivity|].
  exact (proj2 (addRule_by_tagName 2%nat sampleClean sampleException Ho) eq_refl).
Defined.

(** The claim as the specification words it fails both ways: the fourth
    sample has a matching key and no tag name and is ignored; a rule
    with a tag name and no matching key is accepted and filed under the
    property name that [undefined] turns into. *)
Lemma addRule_ignores_matching_key :
  heap sampleClean !! 4%nat = Some sampleNoTag ∧
  truthy (elementsFilter sampleNoTag) = true ∧
  addRule 4%nat sampleClean = Some sampleClean ∧
  let keyless := mkRule (Some "div"%string) None true ∅ ∅ in
  let s := mkState {[ 5%nat := keyless ]} [] MultiMap.new false [] in
  truthy (elementsFilter keyless) = false ∧
  (exceptionRulesMap <$> addRule 5%nat s) =
  Some (MultiMap.Build {[ "undefined"%string := [5%nat] ]} 1).
Proof. vm_compute. done. Qed.

(** ** C6 — [clear] and [isEmpty]

    The specification says that after [clear()] the index holds no key,
    its count of keys is zero and [isEmpty()] answers true.  [clear]
    replaces [this.map] and leaves [this.size] as it was, unlike the
    constructor, which sets both: after one [put] and a [clear] the index
    holds no key, yet its count is still 1 and [isEmpty()] answers
    false. *)
Theorem clear_keeps_size (key : string) (value : RuleRef) :
  let m := MultiMap.clear (MultiMap.put key value MultiMap.new) in
  MultiMap.map m = ∅ ∧ MultiMap.size m = 1 ∧ MultiMap.isEmpty m = false.
Proof. done. Qed.

(** ** C7 — an exception rule added twice and removed once

    Amended claim: for every state without dangling reference whose
    index was built by [put] and [remove], and every exception rule with
    a tag name, which are the rules that [addRule] takes: after
    [addRule] twice and [removeRule] once, the array under the key of the
    rule is what it was after the two additions less the first occurrence
    of the rule, so the rule occurs once more than before the additions;
    and after the next query, every rule of [contentRules] with that key
    is restricted on the permitted domains of the rule. *)
Theorem duplicate_exception_survives_one_removal
    (isPermitted : Rule → string → bool) e s eo domainName :
  closed s → MultiMap.counted (exceptionRulesMap s) →
  heap s !! e = Some eo → whiteListRule eo = true → truthy (tagName eo) = true →
  let key := keyOf (elementsFilter eo) in
  let before := default [] (MultiMap.get key (exceptionRulesMap s)) in
  ∃ s1 s2 s3,
    addRule e s = Some s1 ∧ addRule e s1 = Some s2 ∧ removeRule e s2 = Some s3 ∧
    MultiMap.get key (exceptionRulesMap s2) = Some (before ++ [e; e]) ∧
    MultiMap.get key (exceptionRulesMap s3) =
      Some (collections.removeRule (before ++ [e; e]) e) ∧
    (e ∉ before → MultiMap.get key (exceptionRulesMap s3) = Some (before ++ [e])) ∧
    MultiMap.occurrences key e (exceptionRulesMap s3) =
      S (MultiMap.occurrences key e (exceptionRulesMap s)) ∧
    ∃ s4 rules,
      getRulesForDomain isPermitted domainName s3 = Some (s4, rules) ∧
      ∀ r ro, r ∈ contentRules s4 → heap s4 !! r = Some ro →
        elementsFilter ro = elementsFilter eo →
        permittedDomains eo ⊆ restrictedDomains ro.
Proof.
  intros Hs Hc He Hwl Htag key before.
  pose proof (addRule_spec e s eo He) as Hadd1. rewrite Htag, Hwl in Hadd1.
  set (s1 := mkState _ _ _ _ _) in Hadd1.
  assert (closed s1) as Hs1 by by eapply closed_addRule.
  pose proof (addRule_spec e s1 eo He) as Hadd2. rewrite Htag, Hwl in Hadd2.
  set (s2 := mkState _ _ _ _ _) in Hadd2.
  assert (closed s2) as Hs2 by by eapply closed_addRule.
  destruct (removeRule_spec e s2 eo) as (s3 & Hrem & Hcr3 & Hm3 & Hd3 & Hsame3 & _);
    [by apply Hs2|done|].
  assert (closed s3) as Hs3 by by eapply closed_removeRule.
  assert (MultiMap.get key (exceptionRulesMap s2) = Some (before ++ [e; e])) as Hget2.
  { simpl. rewrite !MultiMap_get_put. simpl. by rewrite <-app_assoc. }
  assert (MultiMap.get key (exceptionRulesMap s3) =
          Some (collections.removeRule (before ++ [e; e]) e)) as Hget3.
  { rewrite Hm3. apply MultiMap_get_remove; [done|].
    intros Hnil. pose proof (collections_removeRule_twice_appended before e) as Hin.
    rewrite Hnil in Hin. by apply elem_of_nil in Hin. }
  assert (MultiMap.counted (exceptionRulesMap s3)) as Hc3.
  { rewrite Hm3. by apply MultiMap_counted_remove, MultiMap_counted_put, MultiMap_counted_put. }
  exists s1, s2, s3. split_and!; try done.
  - intros Hbefore. rewrite Hget3. f_equal.
    by rewrite (collections_removeRule_first before [e] e).
  - rewrite Hm3, MultiMap_occurrences_remove, decide_True by done. simpl.
    rewrite !MultiMap_occurrences_put, !decide_True by done. lia.
  - destruct (getRulesForDomain_spec isPermitted domainName s3 Hs3)
      as (s4 & Hrun & Hget).
    eexists s4, _. split; [exact Hget|].
    pose proof (rebuild_exceptionsApplied s3 s4 Hs3 Hc3 Hd3 Hrun) as Happlied.
    destruct (rebuild_spec s3 Hs3) as (s5 & Hrun5 & _ & Hm4 & _ & Hsame4 & _).
    assert (s5 = s4) as -> by congruence.
    destruct (sameDescriptors_lookup (heap s) (heap s4) e eo)
      as (eo4 & Heo4 & Hdeo); [|done|].
    { eapply sameDescriptors_trans; [exact Hsame3|done]. }
    intros r ro Hr Hro Hkey.
    rewrite <-(descriptor_permittedDomains _ _ Hdeo).
    apply (Happlied r ro e eo4); try done.
    + rewrite (descriptor_elementsFilter _ _ Hdeo), Hm4. fold key.
      rewrite Hget3. simpl. apply collections_removeRule_twice_appended.
    + by rewrite (descriptor_elementsFilter _ _ Hdeo).
Qed.

Lemma duplicate_exception_survives_one_removal_witness :
  closed sampleClean ∧ MultiMap.counted (exceptionRulesMap sampleClean) ∧
  heap sampleClean !! 2%nat = Some sampleException ∧
  ∃ s1 s2 s3,
    addRule 2%nat sampleClean = Some s1 ∧ addRule 2%nat s1 = Some s2 ∧
    removeRule 2%nat s2 = Some s3 ∧
    MultiMap.get "div[ad]" (exceptionRulesMap s3) = Some [2%nat] ∧
    MultiMap.occurrences "div[ad]" 2%nat (exceptionRulesMap s3) = 1%nat ∧
    ∃ s4 rules,
      getRulesForDomain unlessRestricted "a.com" s3 = Some (s4, rules) ∧
      ∀ r ro, r ∈ contentRules s4 → heap s4 !! r = Some ro →
        elementsFilter ro = elementsFilter sampleException →
        permittedDomains sampleException ⊆ restrictedDomains ro.
Proof.
  assert (closed sampleClean) as Hs by by_evaluation (closed sampleClean).
  assert (MultiMap.counted (exceptionRulesMap sampleClean)) as Hc
    by by_evaluation (MultiMap.counted (exceptionRulesMap sampleClean)).
  assert (heap sampleClean !! 2%nat = Some sampleException) as He
    by (vm_compute; reflexivity).
  split_and!; [exact Hs|exact Hc|exact He|].
  destruct (duplicate_exception_survives_one_removal unlessRestricted 2%nat
              sampleClean sampleException "a.com" Hs Hc He eq_refl eq_refl)
    as (s1 & s2 & s3 & H1 & H2 & H3 & _ & _ & Hfirst & Hocc & Hquery).
  exists s1, s2, s3. split_and!; [exact H1|exact H2|exact H3| | |exact Hquery].
  - apply Hfirst. vm_compute. apply not_elem_of_nil.
  - exact Hocc.
Defined.

(** The claim as the specification words it speaks of every exception
    rule.  An exception rule with a matching key and an empty tag name
    is ignored by both additions; the removal finds nothing to take out
    of the index and still rolls the rule back; no occurrence is left,
    and the next query lists the regular rule of that key on the domain
    that the exception rule permits. *)
Lemma untagged_exception_leaves_no_occurrence :
  let regular := mkRule (Some "div"%string) (Some "div[ad]"%string) false ∅ ∅ in
  let untagged :=
    mkRule (Some EmptyString) (Some "div[ad]"%string) true {[ "a.com"%string ]} ∅ in
  let h : gmap RuleRef Rule := {[ 1%nat := regular; 2%nat := untagged ]} in
  whiteListRule untagged = true ∧
  keyOf (elementsFilter untagged) = keyOf (elementsFilter regular) ∧
  ∃ s s1 s2 s3 s4,
    new h (Some [1%nat]) = Some s ∧
    addRule 2%nat s = Some s1 ∧ addRule 2%nat s1 = Some s2 ∧
    removeRule 2%nat s2 = Some s3 ∧
    s2 = s ∧
    MultiMap.get "div[ad]" (exceptionRulesMap s3) = None ∧
    MultiMap.occurrences "div[ad]" 2%nat (exceptionRulesMap s3) = 0%nat ∧
    calls s3 = [RolledBack 1%nat 2%nat] ∧
    getRulesForDomain unlessRestricted "a.com" s3 = Some (s4, Some [1%nat]) ∧
    contentRules s4 = [1%nat] ∧
    restrictedAt (heap s4) 1%nat = ∅ ∧
    ¬ permittedDomains untagged ⊆ restrictedAt (heap s4) 1%nat.
Proof.
  split; [reflexivity|]. split; [reflexivity|].
  eexists _, _, _, _, _.
  split_and!; [vm_compute; reflexivity..|].
  intros Hsub. specialize (Hsub "a.com"%string).
  revert Hsub. vm_compute. intros Hsub.
  by specialize (Hsub eq_refl).
Qed.

(** ** C8 — a rule is on exactly one side

    After the constructor and every history of calls whose rule
    arguments are rule objects, the filter returns a state in which:
    the rules of [contentRules] are not exception rules; the rules of the
    index are exception rules, each filed under its own matching key; no
    rule is on both sides; and a rule is held, on its side, as many times
    as it was added with success and not removed since, so that a rule
    that is currently in the rule set is on one side and not on
    neither. *)
Theorem rules_partitioned {Doc Element : Type}
    (isPermitted : Rule → string → bool)
    (ruleMatchedElements : Rule → Doc → option (list Element))
    (h : gmap RuleRef Rule) (rules : option (list RuleRef)) (ops : list (Op Doc)) :
  let history := (OpAddRule <$> default [] rules) ++ ops in
  forallb (definedOp h) history = true →
  ∃ s,
    new h rules ≫= run isPermitted ruleMatchedElements ops = Some s ∧
    ∀ r,
      (r ∈ contentRules s → isExceptionAt (heap s) r = Some false) ∧
      (∀ key values,
         MultiMap.map (exceptionRulesMap s) !! key = Some values → r ∈ values →
         isExceptionAt (heap s) r = Some true ∧ key = keyAt (heap s) r) ∧
      ¬ (r ∈ contentRules s ∧
         ∃ key values,
           MultiMap.map (exceptionRulesMap s) !! key = Some values ∧ r ∈ values) ∧
      copies s r = held h r history 0%nat ∧
      (held h r history 0%nat ≠ 0%nat →
       r ∈ contentRules s ∨
       r ∈ default [] (MultiMap.get (keyAt (heap s) r) (exceptionRulesMap s))).
Proof.
  intros history Hdefined.
  destruct (new_run_partitioned isPermitted ruleMatchedElements h rules ops Hdefined)
    as (s & Hrun & (Hd & Hs & Hc & Hreg & Hexc & _) & Hcopies).
  exists s. split; [done|].
  - intros r. split_and!.
    + apply Hreg.
    + intros key values. apply Hexc.
    + intros (Hr & key & values & Hkey & Hin).
      specialize (Hreg r Hr). destruct (Hexc key values r Hkey Hin) as [Htrue _].
      congruence.
    + by rewrite Hcopies.
    + rewrite <-Hcopies. unfold copies. simpl. intros Hheld.
      destruct (decide (length (filter (λ x, x = r) (contentRules s)) = 0%nat))
        as [Hz|Hnz].
      * right. apply occurs_elem_of. unfold MultiMap.occurrences in Hheld.
        unfold MultiMap.get. lia.
      * left. by apply occurs_elem_of.
Qed.

Lemma rules_partitioned_witness :
  let ops : list (Op (list string)) :=
    [OpAddRule 2%nat; OpGetRulesForDomain "a.com"%string; OpAddRule 3%nat;
     OpRemoveRule 1%nat; OpAddRule 4%nat;
     OpGetMatchedElements ["div"]%string "b.com"%string; OpRemoveRule 4%nat] in
  let history := (OpAddRule <$> [1%nat]) ++ ops in
  forallb (definedOp sampleHeap) history = true ∧
  ∃ s,
    new sampleHeap (Some [1%nat]) ≫= run unlessRestricted positionsOfTag ops = Some s ∧
    ∀ r,
      (r ∈ contentRules s → isExceptionAt (heap s) r = Some false) ∧
      (∀ key values,
         MultiMap.map (exceptionRulesMap s) !! key = Some values → r ∈ values →
         isExceptionAt (heap s) r = Some true ∧ key = keyAt (heap s) r) ∧
      ¬ (r ∈ contentRules s ∧
         ∃ key values,
           MultiMap.map (exceptionRulesMap s) !! key = Some values ∧ r ∈ values) ∧
      copies s r = held sampleHeap r history 0%nat ∧
      (held sampleHeap r history 0%nat ≠ 0%nat →
       r ∈ contentRules s ∨
       r ∈ default [] (MultiMap.get (keyAt (heap s) r) (exceptionRulesMap s))).
Proof.
  intros ops history. split; [vm_compute; reflexivity|].
  exact (rules_partitioned unlessRestricted positionsOfTag sampleHeap
           (Some [1%nat]) ops eq_refl).
Defined.

Example rules_partitioned_sample :
  (s ← new sampleHeap (Some [1%nat]);
   s ← run unlessRestricted positionsOfTag
         [OpAddRule 2%nat; OpGetRulesForDomain "a.com"%string; OpAddRule 3%nat;
          OpRemoveRule 1%nat; OpAddRule 4%nat;
          OpGetMatchedElements ["div"]%string "b.com"%string; OpRemoveRule 4%nat] s;
   Some (contentRules s, MultiMap.get "div[ad]" (exceptionRulesMap s))) =
  Some ([3%nat], Some [2%nat]).
Proof. vm_compute. reflexivity. Qed.

(** ** C9 — [getMatchedElements] concatenates the elements of the
    applicable rules

    For every state without dangling reference, every document and every
    domain, [getMatchedElements] returns and leaves the state that
    [getRulesForDomain] leaves.  Its answer is [null] when the answer of
    [getRulesForDomain] is [null] or when no applicable rule yields an
    element; otherwise it is the concatenation, in the order of the
    applicable rules, of the element sequences that are not empty. *)
Theorem getMatchedElements_concatenates {Doc Element : Type}
    (isPermitted : Rule → string → bool)
    (ruleMatchedElements : Rule → Doc → option (list Element))
    doc domainName s :
  closed s →
  ∃ s' rules result,
    getRulesForDomain isPermitted domainName s = Some (s', rules) ∧
    getMatchedElements isPermitted ruleMatchedElements doc domainName s =
      Some (s', result) ∧
    match rules with
    | None => result = None
    | Some found =>
        let elements :=
          concat (filter (λ found, found ≠ [])
                    (matchedAt ruleMatchedElements (heap s') doc <$> found)) in
        (elements = [] → result = None) ∧
        (elements ≠ [] → result = Some elements)
    end.
Proof.
  intros Hs.
  destruct (getRulesForDomain_spec isPermitted domainName s Hs) as (s' & Hrun & Hget).
  destruct (getMatchedElements_spec isPermitted ruleMatchedElements doc domainName s Hs)
    as (s2 & Hrun2 & Hget2).
  assert (s2 = s') as -> by congruence.
  eexists s', _, _. split; [exact Hget|]. split; [exact Hget2|].
  destruct (filter _ (contentRules s)) as [|r found]; [done|].
  assert (∀ ls : list (list Element),
            concat (filter (λ l, l ≠ []) ls) = concat ls) as ->.
  { induction ls as [|[|x l] ls IH]; [done|..].
    - by rewrite filter_cons_False by naive_solver.
    - rewrite filter_cons_True by done. simpl. by rewrite IH. }
  cbv zeta. destruct (concat _) as [|x elements]; by split.
Qed.

Lemma getMatchedElements_concatenates_witness :
  closed sampleStale ∧
  ∃ s' rules result,
    getRulesForDomain unlessRestricted "b.com" sampleStale = Some (s', rules) ∧
    getMatchedElements unlessRestricted positionsOfTag
      ["div"; "p"; "span"; "div"]%string "b.com" sampleStale = Some (s', result) ∧
    match rules with
    | None => result = None
    | Some found =>
        let elements :=
          concat (filter (λ found, found ≠ [])
                    (matchedAt positionsOfTag (heap s')
                       ["div"; "p"; "span"; "div"]%string <$> found)) in
        (elements = [] → result = None) ∧
        (elements ≠ [] → result = Some elements)
    end.
Proof.
  assert (closed sampleStale) as Hs by by_evaluation (closed sampleStale).
  split; [exact Hs|].
  exact (getMatchedElements_concatenates unlessRestricted positionsOfTag
           ["div"; "p"; "span"; "div"]%string "b.com" sampleStale Hs).
Defined.

Example getMatchedElements_sample :
  snd <$> getMatchedElements unlessRestricted positionsOfTag
            ["div"; "p"; "span"; "div"]%string "b.com" sampleStale =
  Some (Some [0; 3; 2]%nat).
Proof. vm_compute. reflexivity. Qed.

(** ** C10 — what a query may change

    For every state without dangling reference, both queries return and
    leave the same state; [contentRules] and the exception index are as
    before, members and order; every rule object keeps everything but its
    restricted-domain set; and the rule objects that are not in
    [contentRules] are not touched at all. *)
Theorem queries_frame {Doc Element : Type}
    (isPermitted : Rule → string → bool)
    (ruleMatchedElements : Rule → Doc → option (list Element))
    doc domainName s :
  closed s →
  ∃ s' rules elements,
    getRulesForDomain isPermitted domainName s = Some (s', rules) ∧
    getMatchedElements isPermitted ruleMatchedElements doc domainName s =
      Some (s', elements) ∧
    contentRules s' = contentRules s ∧
    exceptionRulesMap s' = exceptionRulesMap s ∧
    (∀ r, descriptor <$> heap s' !! r = descriptor <$> heap s !! r) ∧
    (∀ r, r ∉ contentRules s → heap s' !! r = heap s !! r).
Proof.
  intros Hs.
  destruct (getRulesForDomain_spec isPermitted domainName s Hs) as (s' & Hrun & Hget).
  destruct (getMatchedElements_spec isPermitted ruleMatchedElements doc domainName s Hs)
    as (s2 & Hrun2 & Hget2).
  assert (s2 = s') as -> by congruence.
  destruct (rebuild_spec s Hs) as (s3 & Hrun3 & Hcr & Hm & _ & Hd & Hheap & _).
  assert (s3 = s') as -> by congruence.
  eexists s', _, _. split_and!; [exact Hget|exact Hget2|done|done| |].
  - intros r. by rewrite Hd.
  - intros r Hr. rewrite Hheap. unfold rebuilt.
    rewrite (bool_decide_eq_false_2 _ Hr), andb_false_r.
    by destruct (heap s !! r).
Qed.

Lemma queries_frame_witness :
  closed sampleStale ∧
  ∃ s' rules elements,
    getRulesForDomain unlessRestricted "a.com" sampleStale = Some (s', rules) ∧
    getMatchedElements unlessRestricted positionsOfTag ["div"]%string "a.com"
      sampleStale = Some (s', elements) ∧
    contentRules s' = contentRules sampleStale ∧
    exceptionRulesMap s' = exceptionRulesMap sampleStale ∧
    (∀ r, descriptor <$> heap s' !! r = descriptor <$> heap sampleStale !! r) ∧
    (∀ r, r ∉ contentRules sampleStale → heap s' !! r = heap sampleStale !! r).
Proof.
  assert (closed sampleStale) as Hs by by_evaluation (closed sampleStale).
  split; [exact Hs|].
  exact (queries_frame unlessRestricted positionsOfTag ["div"]%string "a.com"
           sampleStale Hs).
Defined.

(** * Further properties of the code *)

(** ** The grouping index on its own *)

Section index_facts.
Context {V : Type} {Veq : EqDecision V}.
Implicit Types (m : MultiMap.t V) (key k : string) (value : V).

Lemma MultiMap_get_put_ne key value k m :
  k ≠ key → MultiMap.get k (MultiMap.put key value m) = MultiMap.get k m.
Proof.
  intros Hne. unfold MultiMap.get, MultiMap.put.
  destruct (MultiMap.map m !! key); simpl; by rewrite lookup_insert_ne.
Qed.

Lemma MultiMap_get_remove_ne key value k m :
  k ≠ key → MultiMap.get k (MultiMap.remove key value m) = MultiMap.get k m.
Proof.
  intros Hne. unfold MultiMap.get, MultiMap.remove.
  destruct (MultiMap.map m !! key); simpl; [|done].
  case_decide; simpl; [by rewrite lookup_delete_ne|by rewrite lookup_insert_ne].
Qed.

Lemma collections_removeRule_length (l : list V) value :
  value ∈ l → S (length (collections.removeRule l value)) = length l.
Proof.
  induction l as [|x l IH]; simpl; [by intros ?%elem_of_nil|].
  destruct (decide (x = value)) as [->|Hne]; [done|].
  rewrite elem_of_cons. intros [->|Hin]; [done|]. simpl. by rewrite IH.
Qed.

Lemma occurs_of_elem_of (l : list V) value :
  value ∈ l → length (filter (λ x, x = value) l) ≠ 0%nat.
Proof.
  intros Hin Hlen. apply length_zero_iff_nil in Hlen.
  assert (value ∈ filter (λ x, x = value) l) as Hf
    by by apply list_elem_of_filter.
  rewrite Hlen in Hf. by apply elem_of_nil in Hf.
Qed.

Lemma indexRun_counted (ops : list (IndexOp V)) : ∀ m,
  MultiMap.counted m → MultiMap.counted (indexRun ops m).
Proof.
  induction ops as [|[key value|key value] ops IH]; intros m Hm; simpl; [done|..];
    apply IH.
  - by apply MultiMap_counted_put.
  - by apply MultiMap_counted_remove.
Qed.

(** X1 — [put] then [get].  After [put(key, value)], [get(key)] is the
    array that was there, or an empty one, with the value appended at the
    end; [get] of every other key is as before; and the count of keys
    grows by one exactly when the key was new. *)
Theorem put_then_get key value k m :
  MultiMap.get k (MultiMap.put key value m) =
    (if decide (k = key)
     then Some (default [] (MultiMap.get key m) ++ [value])
     else MultiMap.get k m) ∧
  MultiMap.size (MultiMap.put key value m) =
    MultiMap.size m + (if MultiMap.get key m is Some _ then 0 else 1).
Proof.
  split.
  - destruct (decide (k = key)) as [->|Hne].
    + apply MultiMap_get_put.
    + by apply MultiMap_get_put_ne.
  - unfold MultiMap.put, MultiMap.get.
    destruct (MultiMap.map m !! key); simpl; lia.
Qed.

Lemma MultiMap_remove_put key value m :
  MultiMap.counted m →
  value ∉ default [] (MultiMap.get key m) →
  MultiMap.remove key value (MultiMap.put key value m) = m.
Proof.
  intros [_ Hne] Hnew. unfold MultiMap.get in Hnew.
  unfold MultiMap.put.
  destruct (MultiMap.map m !! key) as [values|] eqn:Hkey; simpl in *.
  - unfold MultiMap.remove. simpl. rewrite lookup_insert_eq.
    rewrite (collections_removeRule_first values [] value), app_nil_r by done.
    rewrite decide_False.
    + simpl. rewrite insert_insert_eq, insert_id by done. by destruct m.
    + specialize (Hne key values Hkey). by destruct values.
  - unfold MultiMap.remove. simpl. rewrite lookup_insert_eq. simpl.
    destruct (decide (value = value)); [|done]. simpl.
    rewrite delete_insert_id by done.
    destruct m as [mp sz]. simpl. f_equal. lia.
Qed.

(** X2 — [put] then [remove].  On an index that holds no empty array
    and counts its keys, filing a value that is not yet under the key
    and removing it again gives back the index as it was: same arrays,
    same keys, same count. *)
Theorem put_then_remove key value m :
  MultiMap.counted m →
  value ∉ default [] (MultiMap.get key m) →
  MultiMap.remove key value (MultiMap.put key value m) = m.
Proof. apply MultiMap_remove_put. Qed.

(** X3 — the count of keys.  After the constructor and any sequence of
    [put] and [remove], no key holds an empty array, [size] is the number
    of keys, and [isEmpty()] answers true exactly when [get] finds
    nothing under any key. *)
Theorem index_history_counted (ops : list (IndexOp V)) :
  let m := indexRun ops MultiMap.new in
  (∀ key, MultiMap.get key m ≠ Some []) ∧
  MultiMap.size m = Z.of_nat (base.size (MultiMap.map m)) ∧
  (MultiMap.isEmpty m = true ↔ ∀ key, MultiMap.get key m = None).
Proof.
  intros m.
  assert (MultiMap.counted m) as Hm
    by apply indexRun_counted, MultiMap_counted_new.
  split_and!.
  - intros key Hkey. by apply (proj2 Hm key []).
  - apply Hm.
  - by apply MultiMap_isEmpty_counted.
Qed.

(** X4 — when [remove] does nothing.  On an index that holds no empty
    array and counts its keys, [remove(key, value)] leaves the index as
    it was exactly when the value is not under the key, the key being
    absent included. *)
Theorem remove_unchanged_iff key value m :
  MultiMap.counted m →
  MultiMap.remove key value m = m ↔ value ∉ default [] (MultiMap.get key m).
Proof.
  intros Hm. split.
  - intros Heq Hin.
    pose proof (MultiMap_occurrences_remove key value key value m) as Hocc.
    rewrite Heq, decide_True in Hocc by done.
    apply occurs_of_elem_of in Hin. unfold MultiMap.occurrences in *.
    unfold MultiMap.get in Hin. lia.
  - by apply MultiMap_remove_absent.
Qed.

(** X5 — removing the last value of a key.  When the value is under the
    key, [remove] deletes the key and takes one off the count exactly
    when the value was alone there; otherwise the key keeps a shorter
    array and the count stays. *)
Theorem remove_last_deletes_key key value values m :
  MultiMap.get key m = Some values → value ∈ values →
  let m' := MultiMap.remove key value m in
  (MultiMap.get key m' = None ↔ values = [value]) ∧
  (values = [value] →
   MultiMap.map m' = delete key (MultiMap.map m) ∧
   MultiMap.size m' = MultiMap.size m - 1) ∧
  (values ≠ [value] →
   (∃ rest, MultiMap.get key m' = Some rest ∧ S (length rest) = length values) ∧
   MultiMap.size m' = MultiMap.size m).
Proof.
  intros Hkey Hin m'. unfold MultiMap.get in *.
  pose proof (collections_removeRule_length values value Hin) as Hlen.
  assert (collections.removeRule values value = [] ↔ values = [value]) as Hnil.
  { split.
    - intros Hrem. rewrite Hrem in Hlen. destruct values as [|x [|y l]]; try done.
      apply list_elem_of_singleton in Hin. by subst.
    - intros ->. simpl. by rewrite decide_True. }
  unfold m', MultiMap.remove. rewrite Hkey. simpl.
  destruct (decide (length (collections.removeRule values value) = 0%nat))
    as [Hz|Hnz]; simpl.
  - apply length_zero_iff_nil in Hz. pose proof (proj1 Hnil Hz) as Hone.
    rewrite lookup_delete_eq. split_and!; [done|done|]. by intros ?.
  - rewrite lookup_insert_eq.
    assert (values ≠ [value]) as Hmore.
    { intros Hone. apply Hnz. by rewrite (proj2 Hnil Hone). }
    split_and!.
    + split; [done|]. by intros ?.
    + by intros ?.
    + intros _. split; [|done]. by eexists.
Qed.
End index_facts.

Lemma put_then_remove_witness :
  MultiMap.counted sampleIndex ∧
  (7%nat ∉ default [] (MultiMap.get "a" sampleIndex)) ∧
  MultiMap.remove "a" 7%nat (MultiMap.put "a" 7%nat sampleIndex) = sampleIndex.
Proof.
  assert (MultiMap.counted sampleIndex) as Hm
    by by_evaluation (MultiMap.counted sampleIndex).
  assert (7%nat ∉ default [] (MultiMap.get "a" sampleIndex)) as Hnew
    by by_evaluation (7%nat ∉ default [] (MultiMap.get "a" sampleIndex)).
  split_and!; [exact Hm|exact Hnew|].
  exact (put_then_remove "a" 7%nat sampleIndex Hm Hnew).
Defined.

Lemma remove_unchanged_iff_witness :
  MultiMap.counted sampleIndex ∧
  (MultiMap.remove "c" 1%nat sampleIndex = sampleIndex ↔
   1%nat ∉ default [] (MultiMap.get "c" sampleIndex)).
Proof.
  assert (MultiMap.counted sampleIndex) as Hm
    by by_evaluation (MultiMap.counted sampleIndex).
  split; [exact Hm|].
  exact (remove_unchanged_iff "c" 1%nat sampleIndex Hm).
Defined.

Lemma remove_last_deletes_key_witness :
  MultiMap.get "b" sampleIndex = Some [3%nat] ∧ 3%nat ∈ [3%nat] ∧
  let m' := MultiMap.remove "b" 3%nat sampleIndex in
  MultiMap.get "b" m' = None ∧
  MultiMap.map m' = delete "b" (MultiMap.map sampleIndex) ∧
  MultiMap.size m' = MultiMap.size sampleIndex - 1.
Proof.
  assert (MultiMap.get "b" sampleIndex = Some [3%nat]) as Hkey
    by (vm_compute; reflexivity).
  assert (3%nat ∈ [3%nat]) as Hin by by_evaluation (3%nat ∈ [3%nat]).
  split_and!; [exact Hkey|exact Hin|].
  destruct (remove_last_deletes_key "b" 3%nat [3%nat] sampleIndex Hkey Hin)
    as (Hnone & Hone & _).
  split; [exact (proj2 Hnone eq_refl)|exact (Hone eq_refl)].
Defined.

(** ** The constructor *)

Lemma forEach_addRule_spec h rules : ∀ s0,
  heap s0 = h → (∀ r, r ∈ rules → is_Some (h !! r)) →
  ∃ s, forEach addRule rules s0 = Some s ∧
    heap s = h ∧ calls s = calls s0 ∧
    contentRules s = contentRules s0 ++ filter (addedRegular h) rules ∧
    (∀ key, default [] (MultiMap.get key (exceptionRulesMap s)) =
            default [] (MultiMap.get key (exceptionRulesMap s0)) ++
            filter (addedException h key) rules) ∧
    dirty s = dirty s0 || existsb (acceptedAt h) rules.
Proof.
  induction rules as [|rule rules IH]; intros s0 Hheap Hrules; simpl.
  - exists s0. split_and!; try done.
    + by rewrite app_nil_r.
    + intros key. by rewrite app_nil_r.
    + by rewrite orb_false_r.
  - destruct (Hrules rule) as [o Ho]; [by left|].
    assert (heap s0 !! rule = Some o) as Ho0 by by rewrite Hheap.
    rewrite (addRule_spec rule s0 o Ho0). simpl.
    assert (acceptedAt h rule = truthy (tagName o)) as Hacc
      by (unfold acceptedAt; by rewrite Ho).
    assert (isExceptionAt h rule = Some (whiteListRule o)) as Hexc
      by (unfold isExceptionAt; by rewrite Ho).
    assert (keyAt h rule = keyOf (elementsFilter o)) as Hkey
      by (unfold keyAt, filterAt; by rewrite Ho).
    assert (∀ key, addedException h key rule =
                   truthy (tagName o) && whiteListRule o &&
                   bool_decide (keyOf (elementsFilter o) = key)) as Hfiled.
    { intros key. unfold addedException. rewrite Hacc, Hexc, Hkey.
      by destruct (whiteListRule o). }
    assert (addedRegular h rule = truthy (tagName o) && negb (whiteListRule o))
      as Hregular.
    { unfold addedRegular. rewrite Hacc, Hexc. by destruct (whiteListRule o). }
    assert (∀ s1 : State,
              heap s1 = h → calls s1 = calls s0 →
              ∃ s, forEach addRule rules s1 = Some s ∧
                heap s = h ∧ calls s = calls s0 ∧
                contentRules s = contentRules s1 ++ filter (addedRegular h) rules ∧
                (∀ key, default [] (MultiMap.get key (exceptionRulesMap s)) =
                        default [] (MultiMap.get key (exceptionRulesMap s1)) ++
                        filter (addedException h key) rules) ∧
                dirty s = dirty s1 || existsb (acceptedAt h) rules) as Hrest.
    { intros s1 Hh1 Hc1.
      destruct (IH s1) as (s & Hrun & Hh & Hcalls & Hcr & Hidx & Hdirty);
        [done|by intros r Hr; apply Hrules; right|].
      exists s. split_and!; try done. by rewrite Hcalls. }
    rewrite filter_cons, Hacc.
    destruct (truthy (tagName o)) eqn:Htag; simpl in *.
    + destruct (whiteListRule o) eqn:Hwl; simpl in *.
      * destruct (Hrest (mkState (heap s0) (contentRules s0)
                           (MultiMap.put (keyOf (elementsFilter o)) rule
                              (exceptionRulesMap s0)) true (calls s0)))
          as (s & Hrun & Hh & Hcalls & Hcr & Hidx & Hdirty); [done..|].
        exists s. rewrite decide_False by (rewrite Hregular; by intros []).
        split_and!; [done|done|done|done| |].
        -- intros key. rewrite Hidx, filter_cons. simpl.
           destruct (decide (keyOf (elementsFilter o) = key)) as [<-|Hne].
           ++ rewrite MultiMap_get_put. simpl.
              rewrite decide_True by (rewrite Hfiled, bool_decide_eq_true_2; done).
              by rewrite <-app_assoc.
           ++ rewrite MultiMap_get_put_ne by done.
              by rewrite decide_False
                by (rewrite Hfiled, bool_decide_eq_false_2 by done; by intros []).
        -- rewrite Hdirty. simpl. by rewrite orb_true_r.
      * destruct (Hrest (mkState (heap s0) (contentRules s0 ++ [rule])
                           (exceptionRulesMap s0) true (calls s0)))
          as (s & Hrun & Hh & Hcalls & Hcr & Hidx & Hdirty); [done..|].
        exists s. rewrite decide_True by (by rewrite Hregular).
        split_and!; [done|done|done| | |].
        -- rewrite Hcr. simpl. by rewrite <-app_assoc.
        -- intros key. rewrite Hidx, filter_cons. simpl.
           by rewrite decide_False by (rewrite Hfiled; by intros []).
        -- rewrite Hdirty. simpl. by rewrite orb_true_r.
    + destruct (Hrest s0) as (s & Hrun & Hh & Hcalls & Hcr & Hidx & Hdirty);
        [done..|].
      exists s. rewrite decide_False by (rewrite Hregular; by intros []).
      split_and!; [done|done|done|done| |done].
      intros key. rewrite Hidx, filter_cons.
      by rewrite decide_False by (rewrite Hfiled; by intros []).
Qed.

(** X6 — what the constructor builds.  Over rule objects of the store,
    the constructor returns; [contentRules] is the sequence of the
    accepted rules that are not exception rules, in the order given;
    under every property name the index holds the accepted exception
    rules with that key, in the order given; the stale flag is set
    exactly when some rule was accepted; and no rule object was touched
    or called. *)
Theorem new_groups_rules h rules :
  (∀ r, r ∈ rules → is_Some (h !! r)) →
  ∃ s, new h (Some rules) = Some s ∧
    heap s = h ∧ calls s = [] ∧
    contentRules s = filter (addedRegular h) rules ∧
    (∀ key, default [] (MultiMap.get key (exceptionRulesMap s)) =
            filter (addedException h key) rules) ∧
    dirty s = existsb (acceptedAt h) rules.
Proof.
  intros Hrules. unfold new. simpl.
  destruct (forEach_addRule_spec h rules (mkState h [] MultiMap.new false []))
    as (s & Hrun & Hh & Hcalls & Hcr & Hidx & Hdirty); [done..|].
  exists s. by split_and!.
Qed.

Lemma new_groups_rules_witness :
  (∀ r, r ∈ [2%nat; 4%nat; 3%nat; 1%nat; 2%nat] → is_Some (sampleHeap !! r)) ∧
  ∃ s, new sampleHeap (Some [2%nat; 4%nat; 3%nat; 1%nat; 2%nat]) = Some s ∧
    heap s = sampleHeap ∧ calls s = [] ∧
    contentRules s = [3%nat; 1%nat] ∧
    default [] (MultiMap.get "div[ad]" (exceptionRulesMap s)) = [2%nat; 2%nat] ∧
    dirty s = true.
Proof.
  assert (∀ r, r ∈ [2%nat; 4%nat; 3%nat; 1%nat; 2%nat] → is_Some (sampleHeap !! r))
    as Hrules.
  { apply Forall_forall.
    by_evaluation (Forall (λ r, is_Some (sampleHeap !! r))
                     [2%nat; 4%nat; 3%nat; 1%nat; 2%nat]). }
  split; [exact Hrules|].
  destruct (new_groups_rules sampleHeap [2%nat; 4%nat; 3%nat; 1%nat; 2%nat] Hrules)
    as (s & Hrun & Hh & Hcalls & Hcr & Hidx & Hdirty).
  exists s. split_and!; [exact Hrun|exact Hh|exact Hcalls| | |].
  - rewrite Hcr. vm_compute. reflexivity.
  - rewrite Hidx. vm_compute. reflexivity.
  - rewrite Hdirty. vm_compute. reflexivity.
Defined.

(** ** Elements of several rules *)

(** X7 — [getMatchedElementsForRules] over two arrays of rules.  Over
    rule objects of the store, the answer for the concatenation of two
    arrays is the answer for the first followed by the answer for the
    second, [null] counting as no element; none of the answers is an
    empty array, so that the answer is [null] exactly when no rule
    yields an element; and the answer for [null] is [null]. *)
Theorem getMatchedElementsForRules_append {Doc Element : Type}
    (ruleMatchedElements : Rule → Doc → option (list Element))
    doc (rules1 rules2 : list RuleRef) s :
  (∀ r, r ∈ rules1 ++ rules2 → is_Some (heap s !! r)) →
  ∃ found1 found2 found,
    getMatchedElementsForRules ruleMatchedElements doc (Some rules1) s = Some found1 ∧
    getMatchedElementsForRules ruleMatchedElements doc (Some rules2) s = Some found2 ∧
    getMatchedElementsForRules ruleMatchedElements doc (Some (rules1 ++ rules2)) s =
      Some found ∧
    default [] found = default [] found1 ++ default [] found2 ∧
    found ≠ Some [] ∧
    (found = None ↔
     ∀ r, r ∈ rules1 ++ rules2 →
       matchedAt ruleMatchedElements (heap s) doc r = []) ∧
    getMatchedElementsForRules ruleMatchedElements doc None s = Some None.
Proof.
  intros Hrules.
  assert (∀ rules : list RuleRef,
            (∀ r, r ∈ rules → is_Some (heap s !! r)) →
            ∃ found,
              getMatchedElementsForRules ruleMatchedElements doc (Some rules) s =
                Some found ∧
              default [] found =
                concat (matchedAt ruleMatchedElements (heap s) doc <$> rules) ∧
              found ≠ Some []) as Hone.
  { intros rules Hin.
    rewrite (getMatchedElementsForRules_spec ruleMatchedElements doc rules s Hin).
    eexists. split; [done|]. by destruct (concat _). }
  destruct (Hone rules1) as (found1 & Hget1 & Hall1 & _).
  { intros r Hr. apply Hrules, elem_of_app. by left. }
  destruct (Hone rules2) as (found2 & Hget2 & Hall2 & _).
  { intros r Hr. apply Hrules, elem_of_app. by right. }
  destruct (Hone (rules1 ++ rules2) Hrules) as (found & Hget & Hall & Hne).
  exists found1, found2, found. split_and!; try done.
  - by rewrite Hall, Hall1, Hall2, fmap_app, concat_app.
  - split.
    + intros -> r Hr. simpl in Hall. symmetry in Hall.
      assert (∀ ls : list (list Element), concat ls = [] → ∀ l, l ∈ ls → l = [])
        as Hconcat.
      { induction ls as [|l0 ls IH]; simpl; [by intros _ l ?%elem_of_nil|].
        intros [-> Hrest]%app_eq_nil l [->|Hl]%elem_of_cons; [done|by apply IH]. }
      apply (Hconcat _ Hall). apply list_elem_of_fmap. by exists r.
    + intros Hnone. destruct found as [[|x l]|]; [done| |done].
      simpl in Hall.
      assert (concat (matchedAt ruleMatchedElements (heap s) doc <$> rules1 ++ rules2)
              = []) as Hempty; [|by rewrite Hempty in Hall].
      clear Hall Hget Hne Hrules. induction (rules1 ++ rules2) as [|r rs IH]; [done|].
      rewrite fmap_cons. simpl. rewrite (Hnone r) by by left.
      simpl. apply IH. intros r' Hr'. apply Hnone. by right.
Qed.

Lemma getMatchedElementsForRules_append_witness :
  (∀ r, r ∈ [1%nat] ++ [4%nat; 3%nat] → is_Some (heap sampleClean !! r)) ∧
  ∃ found1 found2 found,
    getMatchedElementsForRules positionsOfTag ["div"; "span"; "div"]%string
      (Some [1%nat]) sampleClean = Some found1 ∧
    getMatchedElementsForRules positionsOfTag ["div"; "span"; "div"]%string
      (Some [4%nat; 3%nat]) sampleClean = Some found2 ∧
    getMatchedElementsForRules positionsOfTag ["div"; "span"; "div"]%string
      (Some ([1%nat] ++ [4%nat; 3%nat])) sampleClean = Some found ∧
    default [] found = default [] found1 ++ default [] found2 ∧
    found ≠ Some [].
Proof.
  assert (∀ r, r ∈ [1%nat] ++ [4%nat; 3%nat] → is_Some (heap sampleClean !! r))
    as Hrules.
  { apply Forall_forall.
    by_evaluation (Forall (λ r, is_Some (heap sampleClean !! r))
                     ([1%nat] ++ [4%nat; 3%nat])). }
  split; [exact Hrules|].
  destruct (getMatchedElementsForRules_append positionsOfTag
              ["div"; "span"; "div"]%string [1%nat] [4%nat; 3%nat] sampleClean Hrules)
    as (found1 & found2 & found & H1 & H2 & H12 & Happ & Hne & _).
  exists found1, found2, found.
  split_and!; [exact H1|exact H2|exact H12|exact Happ|exact Hne].
Defined.

(** ** One exception rule applied to one rule *)

(** X8 — [applyExceptionRule].  For two rule objects of the store, the
    call returns and changes no field of the filter and no rule object
    but the first; when the matching keys differ the first rule is left
    as it is, otherwise its restricted-domain set gains the permitted
    domains of the exception rule; and making the same call again leaves
    the store as the first call left it. *)
Theorem applyExceptionRule_effect rule e s ro eo :
  heap s !! rule = Some ro → heap s !! e = Some eo →
  ∃ s1,
    applyExceptionRule rule e s = Some s1 ∧
    contentRules s1 = contentRules s ∧
    exceptionRulesMap s1 = exceptionRulesMap s ∧
    dirty s1 = dirty s ∧
    (∀ r, r ≠ rule → heap s1 !! r = heap s !! r) ∧
    heap s1 !! rule =
      Some (if decide (elementsFilter ro = elementsFilter eo)
            then setRestrictedDomains ro
                   (restrictedDomains ro ∪ permittedDomains eo)
            else ro) ∧
    ∃ s2, applyExceptionRule rule e s1 = Some s2 ∧ heap s2 = heap s1.
Proof.
  intros Hro Heo.
  pose proof (applyExceptionRule_spec rule e (heap s) (contentRules s)
                (exceptionRulesMap s) (dirty s) (calls s) ro eo Hro Heo) as Hfirst.
  rewrite State_eta in Hfirst.
  destruct (decide (elementsFilter ro = elementsFilter eo)) as [Hkey|Hkey].
  - eexists. split; [exact Hfirst|]. simpl.
    set (ro1 := setRestrictedDomains ro (restrictedDomains ro ∪ permittedDomains eo)).
    split_and!; try done.
    + intros r Hne. by rewrite lookup_insert_ne.
    + by rewrite lookup_insert_eq.
    + assert (∃ eo1, <[rule := ro1]> (heap s) !! e = Some eo1 ∧
                     elementsFilter eo1 = elementsFilter eo ∧
                     permittedDomains eo1 = permittedDomains eo)
        as (eo1 & Heo1 & Hkey1 & Hp1).
      { rewrite lookup_insert. destruct (decide (rule = e)) as [->|Hne].
        - exists ro1. split; [done|]. rewrite Hro in Heo. by injection Heo as ->.
        - by exists eo. }
      rewrite (applyExceptionRule_spec rule e _ _ _ _ _ ro1 eo1)
        by (done || by rewrite lookup_insert_eq).
      rewrite decide_True by (by rewrite Hkey1).
      eexists. split; [done|]. simpl. rewrite insert_insert_eq. f_equal.
      unfold ro1, setRestrictedDomains. simpl. f_equal. rewrite Hp1.
      apply set_eq. intros d. rewrite !elem_of_union. tauto.
  - eexists. split; [exact Hfirst|]. split_and!; try done.
    eexists. split; [exact Hfirst|done].
Qed.

Lemma applyExceptionRule_effect_witness :
  heap sampleStale !! 3%nat = Some sampleOther ∧
  heap sampleStale !! 2%nat = Some sampleException ∧
  ∃ s1,
    applyExceptionRule 3%nat 2%nat sampleStale = Some s1 ∧
    contentRules s1 = contentRules sampleStale ∧
    exceptionRulesMap s1 = exceptionRulesMap sampleStale ∧
    dirty s1 = dirty sampleStale ∧
    (∀ r, r ≠ 3%nat → heap s1 !! r = heap sampleStale !! r) ∧
    heap s1 !! 3%nat =
      Some (if decide (elementsFilter sampleOther = elementsFilter sampleException)
            then setRestrictedDomains sampleOther
                   (restrictedDomains sampleOther ∪ permittedDomains sampleException)
            else sampleOther) ∧
    ∃ s2, applyExceptionRule 3%nat 2%nat s1 = Some s2 ∧ heap s2 = heap s1.
Proof.
  assert (heap sampleStale !! 3%nat = Some sampleOther) as Hro
    by (vm_compute; reflexivity).
  assert (heap sampleStale !! 2%nat = Some sampleException) as Heo
    by (vm_compute; reflexivity).
  split_and!; [exact Hro|exact Heo|].
  exact (applyExceptionRule_effect 3%nat 2%nat sampleStale sampleOther
           sampleException Hro Heo).
Defined.

(** ** What a query adds and what a removal takes away *)

(** X9 — a query only adds restrictions that an exception rule
    permits.  Over a state without dangling reference, a query never
    takes a domain out of the restricted-domain set of any rule; and a
    domain that it adds to the set of a rule is added by the pass of a
    stale filter, to a rule of [contentRules], and is a permitted domain
    of an exception rule filed under the key of that rule and having its
    matching key. *)
Theorem query_restricts_soundly (isPermitted : Rule → string → bool)
    domainName s :
  closed s →
  ∃ s' rules,
    getRulesForDomain isPermitted domainName s = Some (s', rules) ∧
    ∀ r,
      restrictedAt (heap s) r ⊆ restrictedAt (heap s') r ∧
      ∀ d, d ∈ restrictedAt (heap s') r → d ∉ restrictedAt (heap s) r →
        dirty s = true ∧ r ∈ contentRules s ∧
        ∃ e eo,
          e ∈ default [] (MultiMap.get (keyAt (heap s) r) (exceptionRulesMap s)) ∧
          heap s !! e = Some eo ∧
          filterAt (heap s) r = Some (elementsFilter eo) ∧
          d ∈ permittedDomains eo.
Proof.
  intros Hs.
  destruct (getRulesForDomain_spec isPermitted domainName s Hs) as (s' & Hrun & Hget).
  destruct (rebuild_spec s Hs) as (s1 & Hrun1 & _ & _ & _ & _ & Hheap & _).
  assert (s1 = s') as -> by congruence.
  eexists s', _. split; [exact Hget|]. intros r.
  unfold restrictedAt. rewrite Hheap.
  destruct (heap s !! r) as [o|] eqn:Ho; simpl; [|by split].
  unfold rebuilt, rebuildActive.
  destruct (dirty s); simpl; [|by split].
  destruct (MultiMap.isEmpty (exceptionRulesMap s)); simpl; [by split|].
  destruct (bool_decide (r ∈ contentRules s)) eqn:Hin; simpl; [|by split].
  apply bool_decide_eq_true in Hin. split; [apply union_subseteq_l|].
  intros d [Hd|Hd]%elem_of_union Hnew; [done|].
  split_and!; [done..|].
  unfold exceptedDomains in Hd. apply elem_of_union_list in Hd as (X & HX & Hd).
  apply list_elem_of_fmap in HX as (e & -> & He).
  unfold exceptionsFor in He. apply list_elem_of_filter in He as [Hkey He].
  unfold filterAt in Hkey. unfold permittedAt in Hd.
  destruct (heap s !! e) as [eo|] eqn:Heo; simpl in *; [|done].
  injection Hkey as Hkey.
  exists e, eo. split_and!; [|done| |done].
  - unfold keyAt, filterAt. by rewrite Ho.
  - unfold filterAt. rewrite Ho. simpl. by rewrite Hkey.
Qed.

Lemma query_restricts_soundly_witness :
  closed sampleStale ∧
  ∃ s' rules,
    getRulesForDomain unlessRestricted "a.com" sampleStale = Some (s', rules) ∧
    ∀ r,
      restrictedAt (heap sampleStale) r ⊆ restrictedAt (heap s') r ∧
      ∀ d, d ∈ restrictedAt (heap s') r → d ∉ restrictedAt (heap sampleStale) r →
        dirty sampleStale = true ∧ r ∈ contentRules sampleStale ∧
        ∃ e eo,
          e ∈ default [] (MultiMap.get (keyAt (heap sampleStale) r)
                            (exceptionRulesMap sampleStale)) ∧
          heap sampleStale !! e = Some eo ∧
          filterAt (heap sampleStale) r = Some (elementsFilter eo) ∧
          d ∈ permittedDomains eo.
Proof.
  assert (closed sampleStale) as Hs by by_evaluation (closed sampleStale).
  split; [exact Hs|].
  exact (query_restricts_soundly unlessRestricted "a.com" sampleStale Hs).
Defined.

(** X10 — what [removeRule] leaves alone.  Over a state without
    dangling reference, [removeRule] returns; it never adds a domain to
    the restricted-domain set of any rule; it changes no rule object
    that is outside [contentRules] or has another matching key than the
    removed rule, and none at all when the removed rule is not an
    exception rule; it leaves the arrays under the other property names
    of the index as they were; and every rule of [contentRules] other
    than the removed one stays there. *)
Theorem removeRule_frame rule s o :
  closed s → heap s !! rule = Some o →
  ∃ s', removeRule rule s = Some s' ∧
    (∀ r, restrictedAt (heap s') r ⊆ restrictedAt (heap s) r) ∧
    (∀ r, r ∉ contentRules s ∨ filterAt (heap s) r ≠ Some (elementsFilter o) →
          heap s' !! r = heap s !! r) ∧
    (whiteListRule o = false → heap s' = heap s) ∧
    (∀ key, key ≠ keyOf (elementsFilter o) →
            MultiMap.get key (exceptionRulesMap s') =
            MultiMap.get key (exceptionRulesMap s)) ∧
    (∀ r, r ≠ rule → r ∈ contentRules s → r ∈ contentRules s').
Proof.
  intros Hs Ho.
  destruct (removeRule_spec rule s o)
    as (s' & Hrun & Hcr & Hm & _ & _ & Hheap & _); [by apply Hs|done|].
  exists s'. split; [done|]. split_and!.
  - intros r. unfold restrictedAt. rewrite Hheap.
    destruct (heap s !! r) as [ro|]; simpl; [|done].
    unfold rolledBack. destruct (_ && _ && _); simpl; [|done].
    apply subseteq_difference_l. done.
  - intros r Hr. rewrite Hheap.
    destruct (heap s !! r) as [ro|] eqn:Hro; simpl; [|done]. f_equal.
    unfold rolledBack. destruct Hr as [Hr|Hr].
    + rewrite (bool_decide_eq_false_2 (r ∈ _)), andb_false_r; [done|].
      intros Hin. apply Hr. by eapply collections_removeRule_elem_of.
    + rewrite (bool_decide_eq_false_2 (elementsFilter ro = _)), andb_false_r; [done|].
      intros Heq. apply Hr. unfold filterAt. rewrite Hro. simpl. by rewrite Heq.
  - intros Hwl. apply map_eq. intros r. rewrite Hheap. unfold rolledBack.
    rewrite Hwl. simpl. by destruct (heap s !! r).
  - intros key Hne. rewrite Hm. by apply MultiMap_get_remove_ne.
  - intros r Hne Hr. rewrite Hcr. by apply collections_removeRule_other.
Qed.

Lemma removeRule_frame_witness :
  closed sampleStale ∧ heap sampleStale !! 2%nat = Some sampleException ∧
  ∃ s', removeRule 2%nat sampleStale = Some s' ∧
    (∀ r, restrictedAt (heap s') r ⊆ restrictedAt (heap sampleStale) r) ∧
    (∀ r, r ∉ contentRules sampleStale ∨
          filterAt (heap sampleStale) r ≠ Some (elementsFilter sampleException) →
          heap s' !! r = heap sampleStale !! r) ∧
    (∀ key, key ≠ keyOf (elementsFilter sampleException) →
            MultiMap.get key (exceptionRulesMap s') =
            MultiMap.get key (exceptionRulesMap sampleStale)) ∧
    (∀ r, r ≠ 2%nat → r ∈ contentRules sampleStale → r ∈ contentRules s').
Proof.
  assert (closed sampleStale) as Hs by by_evaluation (closed sampleStale).
  assert (heap sampleStale !! 2%nat = Some sampleException) as Ho
    by (vm_compute; reflexivity).
  split_and!; [exact Hs|exact Ho|].
  destruct (removeRule_frame 2%nat sampleStale sampleException Hs Ho)
    as (s' & Hrun & Hmono & Hother & _ & Hkeys & Hstay).
  exists s'. split_and!; [exact Hrun|exact Hmono|exact Hother|exact Hkeys|exact Hstay].
Defined.

(** X11 — [addRule] then [removeRule].  Over a state without dangling
    reference whose index holds no empty array and counts its keys,
    adding a rule that the filter does not hold and removing it again
    gives back [contentRules] and the index as they were; when the rule
    is not an exception rule the whole state is as it was but for the
    stale flag, which is set. *)
Theorem addRule_then_removeRule rule s o :
  closed s → MultiMap.counted (exceptionRulesMap s) →
  heap s !! rule = Some o →
  rule ∉ contentRules s →
  rule ∉ default [] (MultiMap.get (keyOf (elementsFilter o)) (exceptionRulesMap s)) →
  ∃ s1 s2,
    addRule rule s = Some s1 ∧ removeRule rule s1 = Some s2 ∧
    contentRules s2 = contentRules s ∧
    exceptionRulesMap s2 = exceptionRulesMap s ∧
    dirty s2 = true ∧
    (whiteListRule o = false → s2 = withDirty true s).
Proof.
  intros Hs Hc Ho Hcr Hidx.
  pose proof (addRule_spec rule s o Ho) as Hadd.
  destruct (addRule rule s) as [s1|] eqn:Hs1; [|done].
  assert (closed s1) as Hclosed1 by by eapply closed_addRule.
  assert (heap s1 = heap s ∧ calls s1 = calls s) as [Hheap1 Hcalls1].
  { injection Hadd as ->.
    destruct (truthy (tagName o)); [|done]. by destruct (whiteListRule o). }
  destruct (removeRule_spec rule s1 o)
    as (s2 & Hrun & Hcr2 & Hm2 & Hd2 & _ & Hheap2 & Hcalls2);
    [by apply Hclosed1|by rewrite Hheap1|].
  assert (collections.removeRule (contentRules s1) rule = contentRules s) as Hback.
  { injection Hadd as ->. destruct (truthy (tagName o)).
    - destruct (whiteListRule o); simpl.
      + by apply collections_removeRule_absent.
      + rewrite (collections_removeRule_first (contentRules s) [] rule) by done.
        by rewrite app_nil_r.
    - by apply collections_removeRule_absent. }
  assert (MultiMap.remove (keyOf (elementsFilter o)) rule (exceptionRulesMap s1) =
          exceptionRulesMap s) as Hindex.
  { injection Hadd as ->. destruct (truthy (tagName o)).
    - destruct (whiteListRule o); simpl.
      + by apply MultiMap_remove_put.
      + by apply MultiMap_remove_absent.
    - by apply MultiMap_remove_absent. }
  exists s1, s2. split_and!; [done|done|congruence|congruence|done|].
  intros Hwl. rewrite Hwl in Hcalls2.
  assert (heap s2 = heap s) as Hheap.
  { apply map_eq. intros r. rewrite Hheap2, Hheap1. unfold rolledBack.
    rewrite Hwl. simpl. by destruct (heap s !! r). }
  destruct s2, s. simpl in *. unfold withDirty. simpl.
  rewrite app_nil_r in Hcalls2. by f_equal; congruence.
Qed.

Lemma addRule_then_removeRule_witness :
  closed sampleClean ∧ MultiMap.counted (exceptionRulesMap sampleClean) ∧
  heap sampleClean !! 3%nat = Some sampleOther ∧
  (3%nat ∉ contentRules sampleClean) ∧
  (3%nat ∉ default [] (MultiMap.get (keyOf (elementsFilter sampleOther))
                         (exceptionRulesMap sampleClean))) ∧
  ∃ s1 s2,
    addRule 3%nat sampleClean = Some s1 ∧ removeRule 3%nat s1 = Some s2 ∧
    s2 = withDirty true sampleClean.
Proof.
  assert (closed sampleClean) as Hs by by_evaluation (closed sampleClean).
  assert (MultiMap.counted (exceptionRulesMap sampleClean)) as Hc
    by by_evaluation (MultiMap.counted (exceptionRulesMap sampleClean)).
  assert (heap sampleClean !! 3%nat = Some sampleOther) as Ho
    by (vm_compute; reflexivity).
  assert (3%nat ∉ contentRules sampleClean) as Hcr
    by by_evaluation (3%nat ∉ contentRules sampleClean).
  assert (3%nat ∉ default [] (MultiMap.get (keyOf (elementsFilter sampleOther))
                                (exceptionRulesMap sampleClean))) as Hidx
    by by_evaluation
         (3%nat ∉ default [] (MultiMap.get (keyOf (elementsFilter sampleOther))
                                (exceptionRulesMap sampleClean))).
  split_and!; [exact Hs|exact Hc|exact Ho|exact Hcr|exact Hidx|].
  destruct (addRule_then_removeRule 3%nat sampleClean sampleOther Hs Hc Ho Hcr Hidx)
    as (s1 & s2 & Hadd & Hrem & _ & _ & _ & Hwhole).
  exists s1, s2. split_and!; [exact Hadd|exact Hrem|exact (Hwhole eq_refl)].
Defined.

(** ** Exception rules seen through the queries *)

(** X12 — an exception rule turns the rules of its key off on its
    domains.  Take a permission decision that refuses the restricted
    domains of a rule.  Over a state without dangling reference whose
    index holds no empty array and counts its keys, once an exception
    rule with a tag name is added, the next [getRulesForDomain] for one of its
    permitted domains lists no rule with its matching key. *)
Theorem exception_disables_rules (isPermitted : Rule → string → bool)
    e s eo domainName :
  (∀ o d, d ∈ restrictedDomains o → isPermitted o d = false) →
  closed s → MultiMap.counted (exceptionRulesMap s) →
  heap s !! e = Some eo → whiteListRule eo = true → truthy (tagName eo) = true →
  domainName ∈ permittedDomains eo →
  ∃ s1 s2 rules,
    addRule e s = Some s1 ∧
    getRulesForDomain isPermitted domainName s1 = Some (s2, rules) ∧
    ∀ r ro, r ∈ default [] rules → heap s2 !! r = Some ro →
      elementsFilter ro ≠ elementsFilter eo.
Proof.
  intros Hrefuses Hs Hc He Hwl Htag Hd.
  pose proof (addRule_spec e s eo He) as Hadd. rewrite Htag, Hwl in Hadd.
  set (s1 := mkState _ _ _ _ _) in Hadd.
  assert (closed s1) as Hs1 by by eapply closed_addRule.
  assert (MultiMap.counted (exceptionRulesMap s1)) as Hc1
    by by apply MultiMap_counted_put.
  destruct (getRulesForDomain_spec isPermitted domainName s1 Hs1)
    as (s2 & Hrun & Hget).
  pose proof (rebuild_exceptionsApplied s1 s2 Hs1 Hc1 eq_refl Hrun) as Happlied.
  destruct (rebuild_spec s1 Hs1) as (s3 & Hrun3 & Hcr & Hm & _ & Hsame & _).
  assert (s3 = s2) as -> by congruence.
  eexists s1, s2, _. split; [done|]. split; [exact Hget|].
  intros r ro Hr Hro Hkey.
  assert (r ∈ filter (λ r, permits isPermitted (heap s2) domainName r)
                (contentRules s1)) as Hfound.
  { destruct (filter _ (contentRules s1)); [by apply elem_of_nil in Hr|done]. }
  apply list_elem_of_filter in Hfound as [Hpermits Hin].
  unfold permits in Hpermits. rewrite Hro in Hpermits.
  destruct (sameDescriptors_lookup (heap s1) (heap s2) e eo)
    as (eo2 & Heo2 & Hdeo); [done..|].
  assert (permittedDomains eo2 ⊆ restrictedDomains ro) as Hsub.
  { apply (Happlied r ro e eo2); try done.
    - by rewrite Hcr.
    - rewrite (descriptor_elementsFilter _ _ Hdeo), Hm. simpl.
      rewrite MultiMap_get_put. simpl. apply elem_of_app. right. by left.
    - by rewrite (descriptor_elementsFilter _ _ Hdeo). }
  rewrite (Hrefuses ro domainName) in Hpermits; [done|].
  apply Hsub. by rewrite (descriptor_permittedDomains _ _ Hdeo).
Qed.

Lemma exception_disables_rules_witness :
  (∀ o d, d ∈ restrictedDomains o → unlessRestricted o d = false) ∧
  closed sampleClean ∧ MultiMap.counted (exceptionRulesMap sampleClean) ∧
  heap sampleClean !! 2%nat = Some sampleException ∧
  "a.com"%string ∈ permittedDomains sampleException ∧
  ∃ s1 s2 rules,
    addRule 2%nat sampleClean = Some s1 ∧
    getRulesForDomain unlessRestricted "a.com" s1 = Some (s2, rules) ∧
    ∀ r ro, r ∈ default [] rules → heap s2 !! r = Some ro →
      elementsFilter ro ≠ elementsFilter sampleException.
Proof.
  assert (∀ o d, d ∈ restrictedDomains o → unlessRestricted o d = false) as Hrefuses.
  { intros o d Hd. unfold unlessRestricted. apply bool_decide_eq_false. tauto. }
  assert (closed sampleClean) as Hs by by_evaluation (closed sampleClean).
  assert (MultiMap.counted (exceptionRulesMap sampleClean)) as Hc
    by by_evaluation (MultiMap.counted (exceptionRulesMap sampleClean)).
  assert (heap sampleClean !! 2%nat = Some sampleException) as He
    by (vm_compute; reflexivity).
  assert ("a.com"%string ∈ permittedDomains sampleException) as Hd
    by by_evaluation ("a.com"%string ∈ permittedDomains sampleException).
  split_and!; [exact Hrefuses|exact Hs|exact Hc|exact He|exact Hd|].
  exact (exception_disables_rules unlessRestricted 2%nat sampleClean sampleException
           "a.com" Hrefuses Hs Hc He eq_refl eq_refl Hd).
Defined.

(** X13 — removing an exception rule and querying.  Over a state
    without dangling reference whose index holds no empty array and
    counts its keys, after [removeRule] of an exception rule and the next
    query, the restricted-domain set of a regular rule of [contentRules]
    with its matching key is the set it had, less the permitted domains
    of the removed rule, plus the permitted domains of the exception
    rules of that key that the index still holds. *)
Theorem removeRule_then_query (isPermitted : Rule → string → bool)
    e r s eo ro domainName :
  closed s → MultiMap.counted (exceptionRulesMap s) →
  heap s !! e = Some eo → whiteListRule eo = true →
  heap s !! r = Some ro → whiteListRule ro = false →
  r ∈ contentRules s →
  elementsFilter ro = elementsFilter eo →
  ∃ s1 s2 rules,
    removeRule e s = Some s1 ∧
    getRulesForDomain isPermitted domainName s1 = Some (s2, rules) ∧
    restrictedAt (heap s2) r =
      (restrictedDomains ro ∖ permittedDomains eo) ∪
      exceptedDomains (heap s)
        (MultiMap.remove (keyOf (elementsFilter eo)) e (exceptionRulesMap s))
        (elementsFilter ro).
Proof.
  intros Hs Hc He Hwl Hr Hreg Hin Hkey.
  assert (r ≠ e) as Hne by (intros ->; congruence).
  destruct (removeRule_spec e s eo)
    as (s1 & Hrem & Hcr1 & Hm1 & Hd1 & Hsame1 & Hheap1 & _); [by apply Hs|done|].
  assert (closed s1) as Hs1 by by eapply closed_removeRule.
  assert (MultiMap.counted (exceptionRulesMap s1)) as Hc1
    by (rewrite Hm1; by apply MultiMap_counted_remove).
  assert (r ∈ contentRules s1) as Hin1
    by (rewrite Hcr1; by apply collections_removeRule_other).
  assert (heap s1 !! r =
          Some (setRestrictedDomains ro (restrictedDomains ro ∖ permittedDomains eo)))
    as Hr1.
  { rewrite Hheap1, Hr. simpl. f_equal. unfold rolledBack.
    rewrite Hwl, (bool_decide_eq_true_2 (elementsFilter ro = elementsFilter eo)) by done.
    rewrite bool_decide_eq_true_2; [done|]. by rewrite <-Hcr1. }
  destruct (getRulesForDomain_spec isPermitted domainName s1 Hs1)
    as (s2 & Hrun & Hget).
  destruct (rebuild_merges s1 Hs1 Hc1 Hd1) as (s3 & Hrun3 & _ & _ & _ & _ & Hheap2 & _).
  assert (s3 = s2) as -> by congruence.
  eexists s1, s2, _. split; [done|]. split; [exact Hget|].
  unfold restrictedAt. rewrite (Hheap2 r _ Hin1 Hr1). simpl.
  by rewrite Hm1, <-(sameDescriptors_exceptedDomains (heap s) (heap s1)).
Qed.

Lemma removeRule_then_query_witness :
  closed sampleStale ∧ MultiMap.counted (exceptionRulesMap sampleStale) ∧
  heap sampleStale !! 2%nat = Some sampleException ∧
  heap sampleStale !! 1%nat = Some sampleRegular ∧
  1%nat ∈ contentRules sampleStale ∧
  ∃ s1 s2 rules,
    removeRule 2%nat sampleStale = Some s1 ∧
    getRulesForDomain unlessRestricted "a.com" s1 = Some (s2, rules) ∧
    restrictedAt (heap s2) 1%nat =
      (restrictedDomains sampleRegular ∖ permittedDomains sampleException) ∪
      exceptedDomains (heap sampleStale)
        (MultiMap.remove (keyOf (elementsFilter sampleException)) 2%nat
           (exceptionRulesMap sampleStale))
        (elementsFilter sampleRegular).
Proof.
  assert (closed sampleStale) as Hs by by_evaluation (closed sampleStale).
  assert (MultiMap.counted (exceptionRulesMap sampleStale)) as Hc
    by by_evaluation (MultiMap.counted (exceptionRulesMap sampleStale)).
  assert (heap sampleStale !! 2%nat = Some sampleException) as He
    by (vm_compute; reflexivity).
  assert (heap sampleStale !! 1%nat = Some sampleRegular) as Hr
    by (vm_compute; reflexivity).
  assert (1%nat ∈ contentRules sampleStale) as Hin
    by by_evaluation (1%nat ∈ contentRules sampleStale).
  split_and!; [exact Hs|exact Hc|exact He|exact Hr|exact Hin|].
  exact (removeRule_then_query unlessRestricted 2%nat 1%nat sampleStale
           sampleException sampleRegular "a.com" Hs Hc He eq_refl Hr eq_refl Hin
           eq_refl).
Defined.

(** X14 — what no history changes.  After the constructor and every
    history of calls whose rule arguments are rule objects, the store
    holds the same rule objects with the same tag name, matching key,
    exception flag and permitted domains as at the start; the filter
    holds references to rule objects only; and its index has no empty
    array and counts its keys, so that [isEmpty()] is true exactly when
    the index holds no exception rule. *)
Theorem history_keeps_store {Doc Element : Type}
    (isPermitted : Rule → string → bool)
    (ruleMatchedElements : Rule → Doc → option (list Element))
    (h : gmap RuleRef Rule) (rules : option (list RuleRef)) (ops : list (Op Doc)) :
  forallb (definedOp h) ((OpAddRule <$> default [] rules) ++ ops) = true →
  ∃ s,
    new h rules ≫= run isPermitted ruleMatchedElements ops = Some s ∧
    (∀ r, descriptor <$> heap s !! r = descriptor <$> h !! r) ∧
    closed s ∧
    (∀ key, MultiMap.get key (exceptionRulesMap s) ≠ Some []) ∧
    (MultiMap.isEmpty (exceptionRulesMap s) = true ↔
     ∀ key, MultiMap.get key (exceptionRulesMap s) = None).
Proof.
  intros Hdefined.
  destruct (new_run_partitioned isPermitted ruleMatchedElements h rules ops Hdefined)
    as (s & Hrun & (Hd & Hs & Hc & _) & _).
  exists s. split_and!; try done.
  - intros key Hkey. by apply (proj2 Hc key []).
  - by apply MultiMap_isEmpty_counted.
Qed.

Lemma history_keeps_store_witness :
  let ops : list (Op (list string)) :=
    [OpAddRule 2%nat; OpGetRulesForDomain "a.com"%string; OpRemoveRule 2%nat;
     OpGetMatchedElements ["div"]%string "a.com"%string] in
  forallb (definedOp sampleHeap) ((OpAddRule <$> [1%nat; 3%nat]) ++ ops) = true ∧
  ∃ s,
    new sampleHeap (Some [1%nat; 3%nat]) ≫= run unlessRestricted positionsOfTag ops =
      Some s ∧
    (∀ r, descriptor <$> heap s !! r = descriptor <$> sampleHeap !! r) ∧
    closed s ∧
    (∀ key, MultiMap.get key (exceptionRulesMap s) ≠ Some []) ∧
    (MultiMap.isEmpty (exceptionRulesMap s) = true ↔
     ∀ key, MultiMap.get key (exceptionRulesMap s) = None).
Proof.
  intros ops. split; [vm_compute; reflexivity|].
  exact (history_keeps_store unlessRestricted positionsOfTag sampleHeap
           (Some [1%nat; 3%nat]) ops eq_refl).
Defined.

(** ** Scripts injected into a page *)

Section escaping.
Import webrequest.

Lemma reJsEscape_true c :
  reJsEscape c = true →
  c = 34%N ∨ c = 39%N ∨ c = 92%N ∨ c = 10%N ∨ c = 13%N ∨ c = 8232%N ∨ c = 8233%N.
Proof.
  unfold reJsEscape. destruct c as [|p]; [done|].
  repeat (destruct p as [p|p|]; try discriminate; auto 10).
Qed.

Lemma reJsEscape_false c :
  reJsEscape c = false →
  (c =? 34)%N = false ∧ (c =? 92)%N = false ∧ isLineTerminator c = false.
Proof.
  intros Hc. unfold isLineTerminator.
  split_and!; repeat apply orb_false_intro;
    apply N.eqb_neq; intros ->; discriminate.
Qed.

(** Every match of [reJsEscape] has a case in [escapeJs]. *)
Lemma escapeJs_covers c : reJsEscape c = true → is_Some (escapeJs c).
Proof.
  intros Hc. destruct (reJsEscape_true c Hc) as [->|[->|[->|[->|[->|[->| ->]]]]]];
    by eexists.
Qed.

Lemma replace_cons c s re fn :
  replace (c :: s) re fn =
  (if re c then default (text "undefined") (fn c) else [c]) ++ replace s re fn.
Proof. done. Qed.

Lemma readDoubleQuoted_escaped scripts rest :
  readDoubleQuoted (replace scripts reJsEscape escapeJs ++ dq :: rest) =
  Some (withoutCarriageReturns scripts, rest).
Proof.
  induction scripts as [|c scripts IH]; [done|].
  rewrite replace_cons. unfold withoutCarriageReturns. rewrite filter_cons.
  destruct (reJsEscape c) eqn:Hc.
  - destruct (reJsEscape_true c Hc) as [->|[->|[->|[->|[->|[->| ->]]]]]];
      cbn -[readDoubleQuoted replace]; cbn [readDoubleQuoted]; cbn -[readDoubleQuoted replace];
      rewrite ?IH; done.
  - destruct (reJsEscape_false c Hc) as (Hq & Hb & Hl).
    cbn -[replace]. rewrite Hq, Hb, Hl. cbn -[replace]. rewrite IH.
    cbn. rewrite decide_True; [done|].
    intros ->. discriminate.
Qed.
End escaping.

(** X15 — the script that [tryInjectScripts] passes to [executeScript]
    is the template with a string literal in it, and JavaScript reads
    that literal as the scripts of the rules without their carriage
    returns, up to the quote that the template closes it with: nothing
    in the scripts ends the literal early. *)
Theorem injected_scripts_read_back tabId frameId frame scripts s :
  ∃ literal,
    webrequest.tabCalls (webrequest.tryInjectScripts tabId frameId frame scripts s) =
      webrequest.tabCalls s ++
      [webrequest.ExecuteScript tabId (webrequest.injectedScriptBefore ++ literal)
         frameId "document_start"] ∧
    readDoubleQuoted literal =
      Some (withoutCarriageReturns scripts, tail webrequest.injectedScriptAfter).
Proof.
  eexists. split; [reflexivity|].
  change webrequest.injectedScriptAfter
    with (webrequest.dq :: tail webrequest.injectedScriptAfter).
  apply readDoubleQuoted_escaped.
Qed.

(** ** Navigations *)

Section once_facts.
Context {A : Type}.
Variable marked : A → Prop.
Variable count : A → nat.

Lemma once_refl s : once marked count s s.
Proof. unfold once. split_and!; [done|lia|done]. Qed.

Lemma once_trans s1 s2 s3 :
  once marked count s1 s2 → once marked count s2 s3 → once marked count s1 s3.
Proof.
  intros (Hm12 & Hle12 & Hne12) (Hm23 & Hle23 & Hne23). split_and!.
  - intros Hm. destruct (Hm12 Hm) as [Hm2 Heq12].
    destruct (Hm23 Hm2) as [Hm3 Heq23]. split; [done|lia].
  - destruct (decide (count s2 = count s1)) as [Heq|Hne]; [lia|].
    destruct (Hm23 (Hne12 Hne)) as [_ Heq23]. lia.
  - intros Hne. destruct (decide (count s2 = count s1)) as [Heq|Hne'].
    + apply Hne23. lia.
    + by apply Hm23, Hne12.
Qed.

Lemma navigate_once (listener : webrequest.details.t → A → A) history s :
  (∀ details s, once marked count s (listener details s)) →
  once marked count s (navigate listener history s).
Proof.
  intros Hstep. revert s.
  induction history as [|details history IH]; intros s; [apply once_refl|].
  eapply once_trans; [apply Hstep|apply IH].
Qed.
End once_facts.

Section navigation_facts.
Import webrequest.
Context {Bits : Type}.
Variable getTabFrame : Z → Z → option FrameRef.
Variables RETRIEVE_SCRIPTS RETRIEVE_TRADITIONAL_CSS : Bits.
Variable processGetSelectorsAndScripts : Z → string → Bits → SelectorsAndScripts.
Variable userCSSSupport : bool.
Variable isEdgeBrowser : bool.

Lemma onCommittedScripts_cases details s :
  onCommittedScripts getTabFrame RETRIEVE_SCRIPTS processGetSelectorsAndScripts
    details s = s ∨
  ∃ frame resultScripts,
    getTabFrame (details.tabId details) (details.frameId details) = Some frame ∧
    executedJS (frameOf frame s) = false ∧
    onCommittedScripts getTabFrame RETRIEVE_SCRIPTS processGetSelectorsAndScripts
      details s =
    tryInjectScripts (details.tabId details) (details.frameId details) frame
      resultScripts s.
Proof.
  unfold onCommittedScripts. cbv zeta.
  destruct (getTabFrame _ _) as [frame|]; [|by left].
  destruct (executedJS (frameOf frame s)) eqn:Hflag; [by left|].
  destruct (scripts _) as [[|c resultScripts]|]; [by left| |by left].
  right. by exists frame, (c :: resultScripts).
Qed.

Lemma onCommittedCss_cases details s :
  onCommittedCss getTabFrame RETRIEVE_TRADITIONAL_CSS processGetSelectorsAndScripts
    userCSSSupport details s = s ∨
  ∃ frame css,
    details.frameId details = 0 ∧
    getTabFrame (details.tabId details) 0 = Some frame ∧
    insertedCSS (frameOf frame s) = false ∧
    onCommittedCss getTabFrame RETRIEVE_TRADITIONAL_CSS processGetSelectorsAndScripts
      userCSSSupport details s =
    tryInsertCss userCSSSupport (details.tabId details) 0 frame css s.
Proof.
  unfold onCommittedCss. cbv zeta.
  destruct (Z.eqb_spec (details.frameId details) 0) as [->|]; [|by left].
  cbn [negb].
  destruct (getTabFrame _ _) as [frame|] eqn:Hframe; [|by left].
  destruct (insertedCSS (frameOf frame s)) eqn:Hflag; [by left|].
  destruct (selectors _) as [sel|]; [|by left].
  destruct (css sel) as [styles|]; [|by left].
  right. by exists frame, styles.
Qed.

Lemma frameOf_setExecutedJS frame frame' s :
  frameOf frame' (setExecutedJS frame s) =
  if decide (frame' = frame) then mkFrame true (insertedCSS (frameOf frame s))
  else frameOf frame' s.
Proof.
  unfold frameOf, setExecutedJS. cbn [frames].
  destruct (decide (frame' = frame)) as [->|Hne].
  - by rewrite lookup_insert_eq.
  - by rewrite lookup_insert_ne.
Qed.

Lemma frameOf_setInsertedCSS frame frame' s :
  frameOf frame' (setInsertedCSS frame s) =
  if decide (frame' = frame) then mkFrame (executedJS (frameOf frame s)) true
  else frameOf frame' s.
Proof.
  unfold frameOf, setInsertedCSS. cbn [frames].
  destruct (decide (frame' = frame)) as [->|Hne].
  - by rewrite lookup_insert_eq.
  - by rewrite lookup_insert_ne.
Qed.

Lemma frameOf_call c frame s : frameOf frame (call c s) = frameOf frame s.
Proof. done. Qed.

Lemma executions_snoc tabId frameId made c :
  executions tabId frameId (made ++ [c]) =
  (executions tabId frameId made + if isExecution tabId frameId c then 1 else 0)%nat.
Proof.
  unfold executions. rewrite filter_app, length_app. f_equal.
  rewrite filter_cons, filter_nil. by destruct (isExecution tabId frameId c).
Qed.

Lemma insertions_snoc tabId made c :
  insertions tabId (made ++ [c]) =
  (insertions tabId made + if isInsertion tabId c then 1 else 0)%nat.
Proof.
  unfold insertions. rewrite filter_app, length_app. f_equal.
  rewrite filter_cons, filter_nil. by destruct (isInsertion tabId c).
Qed.

Lemma tryInjectScripts_once tabId frameId t f frame resultScripts s :
  getTabFrame t f = Some frame →
  executedJS (frameOf frame s) = false →
  once (executedIn getTabFrame tabId frameId)
    (λ s, executions tabId frameId (tabCalls s))
    s (tryInjectScripts t f frame resultScripts s).
Proof.
  intros Hframe Hflag. unfold tryInjectScripts. cbv zeta.
  set (c := ExecuteScript _ _ _ _).
  assert (Hmark : ∀ frame', executedJS (frameOf frame' s) = true →
    executedJS (frameOf frame' (setExecutedJS frame (call c s))) = true).
  { intros frame' Hset. rewrite frameOf_setExecutedJS. by case_decide. }
  assert (Hcount : executions tabId frameId (tabCalls (setExecutedJS frame (call c s))) =
    (executions tabId frameId (tabCalls s) + if isExecution tabId frameId c then 1 else 0)%nat).
  { cbn [setExecutedJS call tabCalls]. apply executions_snoc. }
  assert (Hhere : isExecution tabId frameId c = true →
    executedIn getTabFrame tabId frameId (setExecutedJS frame (call c s))).
  { unfold c. cbn [isExecution]. intros [Ht Hf]%andb_prop.
    apply Z.eqb_eq in Ht, Hf. subst t f.
    exists frame. split; [done|]. rewrite frameOf_setExecutedJS.
    by rewrite decide_True. }
  unfold once. rewrite Hcount. split_and!.
  - intros (frame' & Hframe' & Hset).
    destruct (isExecution tabId frameId c) eqn:Hc.
    + exfalso. revert Hc. unfold c. cbn [isExecution]. intros [Ht Hf]%andb_prop.
      apply Z.eqb_eq in Ht, Hf. subst t f. congruence.
    + split; [|lia]. exists frame'. split; [done|]. by apply Hmark.
  - destruct (isExecution tabId frameId c); lia.
  - destruct (isExecution tabId frameId c); [|lia]. intros _. by apply Hhere.
Qed.

Lemma tryInsertCss_keeps_executions tabId frameId t f frame css s :
  once (executedIn getTabFrame tabId frameId)
    (λ s, executions tabId frameId (tabCalls s))
    s (tryInsertCss userCSSSupport t f frame css s).
Proof.
  unfold tryInsertCss. cbv zeta. set (c := InsertCSS _ _ _ _).
  assert (Hcount : executions tabId frameId (tabCalls (setInsertedCSS frame (call c s))) =
    executions tabId frameId (tabCalls s)).
  { cbn [setInsertedCSS call tabCalls]. rewrite executions_snoc. cbn. lia. }
  unfold once. rewrite Hcount. split_and!; [|lia|done].
  intros (frame' & Hframe' & Hset). split; [|done].
  exists frame'. split; [done|]. rewrite frameOf_setInsertedCSS.
  case_decide; by subst.
Qed.

Lemma tryInsertCss_once tabId t frame css s :
  getTabFrame t 0 = Some frame →
  insertedCSS (frameOf frame s) = false →
  once (insertedIn getTabFrame tabId) (λ s, insertions tabId (tabCalls s))
    s (tryInsertCss userCSSSupport t 0 frame css s).
Proof.
  intros Hframe Hflag. unfold tryInsertCss. cbv zeta.
  set (c := InsertCSS _ _ _ _).
  assert (Hcount : insertions tabId (tabCalls (setInsertedCSS frame (call c s))) =
    (insertions tabId (tabCalls s) + if isInsertion tabId c then 1 else 0)%nat).
  { cbn [setInsertedCSS call tabCalls]. apply insertions_snoc. }
  unfold once. rewrite Hcount. split_and!.
  - intros (frame' & Hframe' & Hset).
    destruct (isInsertion tabId c) eqn:Hc.
    + exfalso. revert Hc. unfold c. cbn [isInsertion]. intros Ht%Z.eqb_eq.
      subst t. congruence.
    + split; [|lia]. exists frame'. split; [done|].
      rewrite frameOf_setInsertedCSS. by case_decide.
  - destruct (isInsertion tabId c); lia.
  - destruct (isInsertion tabId c) eqn:Hc; [|lia]. intros _.
    revert Hc. unfold c. cbn [isInsertion]. intros Ht%Z.eqb_eq. subst t.
    exists frame. split; [done|]. rewrite frameOf_setInsertedCSS.
    by rewrite decide_True.
Qed.

Lemma tryInjectScripts_keeps_insertions tabId t f frame resultScripts s :
  once (insertedIn getTabFrame tabId) (λ s, insertions tabId (tabCalls s))
    s (tryInjectScripts t f frame resultScripts s).
Proof.
  unfold tryInjectScripts. cbv zeta. set (c := ExecuteScript _ _ _ _).
  assert (Hcount : insertions tabId (tabCalls (setExecutedJS frame (call c s))) =
    insertions tabId (tabCalls s)).
  { cbn [setExecutedJS call tabCalls]. rewrite insertions_snoc. cbn. lia. }
  unfold once. rewrite Hcount. split_and!; [|lia|done].
  intros (frame' & Hframe' & Hset). split; [|done].
  exists frame'. split; [done|]. rewrite frameOf_setExecutedJS.
  case_decide; by subst.
Qed.

Lemma onCommitted_executes_once tabId frameId details s :
  once (executedIn getTabFrame tabId frameId)
    (λ s, executions tabId frameId (tabCalls s))
    s (onCommitted getTabFrame RETRIEVE_SCRIPTS RETRIEVE_TRADITIONAL_CSS
         processGetSelectorsAndScripts userCSSSupport isEdgeBrowser details s).
Proof.
  unfold onCommitted. cbv zeta.
  destruct isEdgeBrowser; cbn [negb]; [apply once_refl|].
  set (s1 := onCommittedScripts _ _ _ details s).
  apply (once_trans _ _ s s1).
  - unfold s1. destruct (onCommittedScripts_cases details s)
      as [->|(frame & resultScripts & Hframe & Hflag & ->)]; [apply once_refl|].
    by apply tryInjectScripts_once.
  - destruct (onCommittedCss_cases details s1)
      as [->|(frame & css & _ & _ & _ & ->)]; [apply once_refl|].
    apply tryInsertCss_keeps_executions.
Qed.

Lemma onCommitted_inserts_once tabId details s :
  once (insertedIn getTabFrame tabId) (λ s, insertions tabId (tabCalls s))
    s (onCommitted getTabFrame RETRIEVE_SCRIPTS RETRIEVE_TRADITIONAL_CSS
         processGetSelectorsAndScripts userCSSSupport isEdgeBrowser details s).
Proof.
  unfold onCommitted. cbv zeta.
  destruct isEdgeBrowser; cbn [negb]; [apply once_refl|].
  set (s1 := onCommittedScripts _ _ _ details s).
  apply (once_trans _ _ s s1).
  - unfold s1. destruct (onCommittedScripts_cases details s)
      as [->|(frame & resultScripts & _ & _ & ->)]; [apply once_refl|].
    apply tryInjectScripts_keeps_insertions.
  - destruct (onCommittedCss_cases details s1)
      as [->|(frame & css & _ & Hframe & Hflag & ->)]; [apply once_refl|].
    by apply tryInsertCss_once.
Qed.

(** X16 — over any history of committed navigations, as long as the
    tabs keep their frame objects, the listeners call [executeScript]
    at most once for a frame of a tab. *)
Theorem scripts_executed_once history tabId frameId s :
  (executions tabId frameId
     (tabCalls
        (navigate
           (onCommitted getTabFrame RETRIEVE_SCRIPTS RETRIEVE_TRADITIONAL_CSS
              processGetSelectorsAndScripts userCSSSupport isEdgeBrowser)
           history s)) ≤
   executions tabId frameId (tabCalls s) + 1)%nat.
Proof.
  apply (navigate_once (executedIn getTabFrame tabId frameId)
    (λ s, executions tabId frameId (tabCalls s)) _ history s
    (onCommitted_executes_once tabId frameId)).
Qed.

(** X17 — over any history of committed navigations, as long as the
    tabs keep their frame objects, the listeners call [insertCSS] at
    most once for a tab. *)
Theorem css_inserted_once history tabId s :
  (insertions tabId
     (tabCalls
        (navigate
           (onCommitted getTabFrame RETRIEVE_SCRIPTS RETRIEVE_TRADITIONAL_CSS
              processGetSelectorsAndScripts userCSSSupport isEdgeBrowser)
           history s)) ≤
   insertions tabId (tabCalls s) + 1)%nat.
Proof.
  apply (navigate_once (insertedIn getTabFrame tabId)
    (λ s, insertions tabId (tabCalls s)) _ history s
    (onCommitted_inserts_once tabId)).
Qed.
End navigation_facts.

(** ** Headers of a response *)

Section header_facts.
Import webrequest.
Context {Tab RequestType Rule : Type}.
Variable isEdgeBeforeCreatorsUpdate : bool.
Variable webSocketSupported : bool.
Variables WEBSOCKET WEBRTC CSP : RequestType.
Variable getFrameUrl : Tab → Z → string.
Variable getRuleForRequest : Tab → string → string → RequestType → option Rule.
Variable isRequestBlockedByRule : option Rule → bool.
Variable getCspRules : Tab → string → string → RequestType → option (list Rule).
Variable cspDirective : Rule → string.
Variable DEFAULT_DIRECTIVE : string.

Lemma findLegacyCspRule_blocked (tab : Tab) frameUrl :
  isRequestBlockedByRule
    (findLegacyCspRule webSocketSupported WEBSOCKET WEBRTC getRuleForRequest
       isRequestBlockedByRule tab frameUrl) =
  probeBlocked webSocketSupported WEBSOCKET WEBRTC getRuleForRequest
    isRequestBlockedByRule tab frameUrl.
Proof.
  unfold findLegacyCspRule, probeBlocked.
  destruct webSocketSupported; cbn [negb andb orb]; [done|].
  destruct (isRequestBlockedByRule (getRuleForRequest tab _ frameUrl WEBSOCKET))
    eqn:Hws; cbn [negb orb]; done.
Qed.

Lemma cspRuleStep_pair (tab : Tab) requestUrl frameUrl cspHeaders made rule :
  cspRuleStep CSP isRequestBlockedByRule cspDirective tab requestUrl frameUrl
    (cspHeaders, made) rule =
  (if isRequestBlockedByRule (Some rule)
   then cspHeaders ++ [mkHeader CSP_HEADER_NAME (cspDirective rule)]
   else cspHeaders,
   made ++ [RecordRuleHit tab rule requestUrl;
            AddHttpRequestEvent tab requestUrl frameUrl CSP rule]).
Proof. done. Qed.

Lemma cspRuleStep_loop (tab : Tab) requestUrl frameUrl cspRules cspHeaders made :
  foldl (cspRuleStep CSP isRequestBlockedByRule cspDirective tab requestUrl frameUrl)
    (cspHeaders, made) cspRules =
  (cspHeaders ++
     (mkHeader CSP_HEADER_NAME <$>
        (cspDirective <$>
           filter (λ rule, isRequestBlockedByRule (Some rule) = true) cspRules)),
   made ++
     (cspRules ≫= λ rule,
        [RecordRuleHit tab rule requestUrl;
         AddHttpRequestEvent tab requestUrl frameUrl CSP rule])).
Proof.
  revert cspHeaders made.
  induction cspRules as [|rule cspRules IH]; intros cspHeaders made.
  - cbn. by rewrite !app_nil_r.
  - cbn [foldl]. rewrite cspRuleStep_pair, IH, filter_cons.
    rewrite bind_cons, (assoc_L (++) made). f_equal.
    destruct (isRequestBlockedByRule (Some rule)) eqn:Hb.
    + rewrite decide_True by done. by rewrite <-(assoc_L (++)).
    + rewrite decide_False by (by intros ?). done.
Qed.

(** X18 — [modifyCSPHeader] answers the headers received, in their
    order, followed by the headers it adds, all of them named
    Content-Security-Policy: one with the default directive where a
    probe is blocked, then one for each rule of the request that
    blocks, in the order of the rules.  It answers nothing in Edge
    before the Creators update and where it has no header to add. *)
Theorem modifyCSPHeader_appends details made :
  (modifyCSPHeader isEdgeBeforeCreatorsUpdate webSocketSupported WEBSOCKET WEBRTC
     CSP getFrameUrl getRuleForRequest isRequestBlockedByRule getCspRules
     cspDirective DEFAULT_DIRECTIVE details made).1 =
  if isEdgeBeforeCreatorsUpdate then None
  else
    let added :=
      mkHeader CSP_HEADER_NAME <$>
        directives webSocketSupported WEBSOCKET WEBRTC getFrameUrl
          getRuleForRequest isRequestBlockedByRule getCspRules cspDirective
          DEFAULT_DIRECTIVE details in
    match added with
    | [] => None
    | _ =>
        Some (response.Build
                (default [] (requestDetails.responseHeaders details) ++ added)
                added)
    end.
Proof.
  unfold modifyCSPHeader, directives. cbv zeta.
  destruct isEdgeBeforeCreatorsUpdate; [done|].
  rewrite findLegacyCspRule_blocked.
  set (tab := requestDetails.tab details).
  set (frameUrl := getFrameUrl tab _).
  set (made1 := match findLegacyCspRule _ _ _ _ _ _ _ with
                | Some _ => _ | None => _ end).
  set (first := if probeBlocked _ _ _ _ _ tab frameUrl then _ else _).
  assert (Hfirst : first =
    mkHeader CSP_HEADER_NAME <$>
      (if probeBlocked webSocketSupported WEBSOCKET WEBRTC getRuleForRequest
            isRequestBlockedByRule tab frameUrl
       then [DEFAULT_DIRECTIVE] else [])).
  { unfold first. by destruct (probeBlocked _ _ _ _ _ _ _). }
  destruct (getCspRules tab _ frameUrl _) as [cspRules|]; cbn [default].
  - rewrite cspRuleStep_loop, fmap_app, Hfirst.
    set (added := _ ++ _). by destruct added.
  - rewrite filter_nil, fmap_nil, app_nil_r, Hfirst.
    set (added := _ <$> _). by destruct added.
Qed.

(** X19 — outside Edge before the Creators update, [modifyCSPHeader]
    records a hit for every rule that the request service reports for
    the request, whether the rule blocks or not, and keeps the calls
    made before. *)
Theorem modifyCSPHeader_hits details made cspRules rule :
  isEdgeBeforeCreatorsUpdate = false →
  getCspRules (requestDetails.tab details) (requestDetails.requestUrl details)
    (getFrameUrl (requestDetails.tab details) (requestDetails.frameId details))
    (requestDetails.requestType details) = Some cspRules →
  rule ∈ cspRules →
  ∃ after,
    (modifyCSPHeader isEdgeBeforeCreatorsUpdate webSocketSupported WEBSOCKET WEBRTC
       CSP getFrameUrl getRuleForRequest isRequestBlockedByRule getCspRules
       cspDirective DEFAULT_DIRECTIVE details made).2 = made ++ after ∧
    RecordRuleHit (RequestType := RequestType) (requestDetails.tab details) rule
      (requestDetails.requestUrl details) ∈ after.
Proof.
  intros -> Hrules Hin. unfold modifyCSPHeader. cbv zeta. rewrite Hrules.
  rewrite cspRuleStep_loop.
  set (legacy := findLegacyCspRule _ _ _ _ _ _ _).
  set (hits := cspRules ≫= _).
  assert (Hhit : RecordRuleHit (RequestType := RequestType)
    (requestDetails.tab details) rule (requestDetails.requestUrl details) ∈ hits).
  { unfold hits. apply list_elem_of_bind. exists rule. split; [|done].
    apply elem_of_cons. by left. }
  destruct legacy as [legacyRule|].
  - eexists (_ ++ hits). split.
    + destruct (0 <? _)%nat; cbn [snd]; by rewrite (assoc_L (++)).
    + apply elem_of_app. by right.
  - exists hits. split; [|done]. by destruct (0 <? _)%nat.
Qed.
End header_facts.

Lemma modifyCSPHeader_hits_witness :
  sampleCspRules 1 "https://example.org/page" "https://example.org/" 0 =
    Some [1; 2]%nat ∧
  1%nat ∈ [1; 2]%nat ∧
  ∃ after,
    (webrequest.modifyCSPHeader false true 1 2 3 (λ _ _, "https://example.org/"%string)
       (λ _ _ _ _, None) sampleBlocks sampleCspRules (λ _, "script-src 'self'"%string)
       "connect-src http: https:" sampleDetails []).2 = [] ++ after ∧
    webrequest.RecordRuleHit (RequestType := Z) 1 1%nat "https://example.org/page"
      ∈ after.
Proof.
  split_and!; [reflexivity|apply list_elem_of_here|].
  apply (modifyCSPHeader_hits false true 1 2 3 (λ _ _, "https://example.org/"%string)
    (λ _ _ _ _, None) sampleBlocks sampleCspRules (λ _, "script-src 'self'"%string)
    "connect-src http: https:" sampleDetails [] [1; 2]%nat 1%nat);
    [reflexivity|reflexivity|apply list_elem_of_here].
Defined.
